(** * World-cup sticker simulation: a shallow embedding of [sticker_simulation.py]

    The Python module defines two classes.  [Person] owns one collector's
    album, repeat counts, finished flag and money counter; [Economy] owns a
    dictionary of [Person] objects and drives rounds of trading.

    Objects are mutable and passed by reference, so the embedding keeps a
    heap of [Person] records addressed by locations.  The methods of [Person]
    only touch [self], hence they are written as functions on the record of
    [self]; the methods of [Economy] run in a state-and-exception monad over
    the heap, the random generator and a ghost trace of method calls. *)

From stdpp Require Import gmap strings list fin_maps fin_sets pretty.

Local Open Scope Z_scope.

(** ** Exceptions and results *)

Inductive exn := ValueError | ZeroDivisionError | KeyError.

(** Ways in which the model, not the program, can stop: the fuel of the
    [while] loop is used up, or a location is read that was never allocated
    (no Python program can do the latter). *)
Inductive stuck := OutOfFuel | NoSuchObject.

Inductive result (A : Type) :=
  | Ok (a : A)
  | Raise (e : exn)
  | Stuck (why : stuck).
Arguments Ok {A} a.
Arguments Raise {A} e.
Arguments Stuck {A} why.

(** ** The shared pseudo-random generator

    [np.random] is one process-wide generator.  It is modelled as an
    arbitrary tape of integers with a cursor; a draw from [range(n)] reduces
    the integer under the cursor modulo [n].  Every sequence of outcomes of
    [np.random.choice] is the reduction of some tape, so a statement proved
    for all tapes holds for all outcomes of the sampling. *)

Record RandomState := mkRandomState { tape : nat → Z; cursor : nat }.

Definition advance (k : nat) (g : RandomState) : RandomState :=
  mkRandomState (tape g) (cursor g + k)%nat.

Definition sample (n : Z) (k : nat) (g : RandomState) : list Z :=
  (λ i, tape g (cursor g + i)%nat `mod` n) <$> seq 0 k.

(** [np.random.choice(range(n), size, replace=True)]: a negative [size]
    raises, an empty population raises unless no sample is taken. *)
Definition choice (n size : Z) (g : RandomState) : result (list Z) * RandomState :=
  if size <? 0 then (Raise ValueError, g)
  else if (n <=? 0) && (0 <? size) then (Raise ValueError, g)
  else (Ok (sample n (Z.to_nat size) g), advance (Z.to_nat size) g).

(** Reading a [defaultdict(int)]: a missing key reads as 0. *)
Definition getitem (d : gmap Z Z) (k : Z) : Z := default 0 (d !! k).

(** ** class Person *)

Module Person.

Record state := mk {
  album : gset Z;
  repeats : gmap Z Z;
  is_finished : bool;
  money_spent : Z;
  n_stickers : Z
}.

Definition set_album (a : gset Z) (self : state) : state :=
  mk a (repeats self) (is_finished self) (money_spent self) (n_stickers self).
Definition set_repeats (r : gmap Z Z) (self : state) : state :=
  mk (album self) r (is_finished self) (money_spent self) (n_stickers self).
Definition set_is_finished (b : bool) (self : state) : state :=
  mk (album self) (repeats self) b (money_spent self) (n_stickers self).
Definition set_money_spent (m : Z) (self : state) : state :=
  mk (album self) (repeats self) (is_finished self) m (n_stickers self).

(** [def finished(self)] *)
Definition finished (self : state) : state :=
  if Z.of_nat (size (album self)) =? n_stickers self
  then set_is_finished true self
  else self.

(** One iteration of [for sticker in stickers_receving]. *)
Definition receive (sticker : Z) (self : state) : state :=
  set_album ({[sticker]} ∪ album self) self.

(** One iteration of [for sticker in stickers_giving]. *)
Definition give (sticker : Z) (self : state) : state :=
  set_repeats (<[sticker := getitem (repeats self) sticker - 1]> (repeats self)) self.

(** [def update_collection(self, stickers_giving, stickers_receving)] *)
Definition update_collection (stickers_giving stickers_receving : gset Z)
    (self : state) : state :=
  let self := set_fold receive self stickers_receving in
  let self := set_fold give self stickers_giving in
  finished self.

(** One iteration of [for sticker in new_pack]. *)
Definition add_sticker (self : state) (sticker : Z) : state :=
  if decide (sticker ∉ album self)
  then set_album ({[sticker]} ∪ album self) self
  else set_repeats (<[sticker := getitem (repeats self) sticker + 1]> (repeats self)) self.

(** [def buy_pack(self, stickers_per_pack=5)].  The money is spent before
    the pack is drawn, so the state left behind by a raising call has the
    counter incremented. *)
Definition buy_pack (stickers_per_pack : Z) (self : state) (g : RandomState)
    : result unit * state * RandomState :=
  let self := set_money_spent (money_spent self + 1) self in
  match choice (n_stickers self) stickers_per_pack g with
  | (Ok new_pack, g) => (Ok tt, finished (foldl add_sticker self new_pack), g)
  | (Raise e, g) => (Raise e, self, g)
  | (Stuck why, g) => (Stuck why, self, g)
  end.

(** The state in which a call of [buy_pack] leaves [self]. *)
Definition after_buy_pack (stickers_per_pack : Z) (self : state) (g : RandomState)
    : state := (buy_pack stickers_per_pack self g).1.2.

(** [def __init__(self, endowment, n_stickers)] *)
Definition fresh_state (n_stickers : Z) : state := mk ∅ ∅ false 0 n_stickers.

Definition init (endowment n_stickers : Z) (g : RandomState)
    : result unit * state * RandomState :=
  buy_pack endowment (fresh_state n_stickers) g.

(** A call of one of the two mutators, with arbitrary arguments. *)
Inductive call : state → state → Prop :=
  | calls_buy_pack k self g :
      call self (after_buy_pack k self g)
  | calls_update_collection giving receiving self :
      call self (update_collection giving receiving self).

(** Sticker identifiers of an album of [n] stickers. *)
Definition sticker_ids (n : Z) (X : gset Z) : Prop := ∀ s, s ∈ X → 0 ≤ s < n.

(** A call whose received stickers are identifiers of the album. *)
Inductive typed_call : state → state → Prop :=
  | typed_buy_pack k self g :
      typed_call self (after_buy_pack k self g)
  | typed_update_collection giving receiving self :
      sticker_ids (n_stickers self) receiving →
      typed_call self (update_collection giving receiving self).

(** A collector as its constructor returns it. *)
Definition constructed (self : state) : Prop :=
  ∃ endowment n g g', init endowment n g = (Ok tt, self, g').

End Person.

(** ** The heap of [Person] objects and the monad of [Economy] *)

Abbreviation loc := nat (only parsing).

(** Ghost trace of the calls of [Economy.trade] made by [round_of_trade]
    (with the [is_finished] flags of the two persons when the call was made
    and the flag the call returned) and of the calls of [Person.buy_pack].
    Nothing reads it. *)
Inductive event :=
  | Trade (person1 person2 : loc) (finished1 finished2 : bool) (traded : bool)
  | BuyPack (person : loc).

Global Instance event_eq_dec : EqDecision event.
Proof. solve_decision. Defined.

(** The two lines printed by [run_simulation] when it logs. *)
Inductive line :=
  | FinishersLine (n_rounds n_finishers : Z)
  | MoneyLine (n_rounds money_spent : Z).

Record World := mkWorld {
  heap : gmap loc Person.state;
  rng : RandomState;
  trace : list event;
  stdout : list line
}.

Definition M (A : Type) : Type := World → result A * World.

Definition ret {A} (a : A) : M A := λ w, (Ok a, w).

Definition bind {A B} (c : M A) (k : A → M B) : M B := λ w,
  match c w with
  | (Ok a, w) => k a w
  | (Raise e, w) => (Raise e, w)
  | (Stuck why, w) => (Stuck why, w)
  end.

Notation "'let!' x ':=' c 'in' k" := (bind c (λ x, k))
  (at level 10, x name, c at level 100, k at level 200, only parsing).
Notation "'let!' ' pat ':=' c 'in' k" := (bind c (λ x, match x with pat => k end))
  (at level 10, pat pattern, c at level 100, k at level 200, only parsing).
Notation "'do!' c 'in' k" := (bind c (λ _, k))
  (at level 10, c at level 100, k at level 200, only parsing).

Definition raise {A} (e : exn) : M A := λ w, (Raise e, w).
Definition get_stuck {A} (why : stuck) : M A := λ w, (Stuck why, w).

Definition deref (l : loc) : M Person.state := λ w,
  match heap w !! l with
  | Some p => (Ok p, w)
  | None => (Stuck NoSuchObject, w)
  end.

Definition store (l : loc) (p : Person.state) : M unit := λ w,
  (Ok tt, mkWorld (<[l := p]> (heap w)) (rng w) (trace w) (stdout w)).

Definition alloc (p : Person.state) : M loc := λ w,
  let l := fresh (dom (heap w)) in
  (Ok l, mkWorld (<[l := p]> (heap w)) (rng w) (trace w) (stdout w)).

Definition emit (e : event) : M unit := λ w,
  (Ok tt, mkWorld (heap w) (rng w) (trace w ++ [e]) (stdout w)).

Definition print (ln : line) : M unit := λ w,
  (Ok tt, mkWorld (heap w) (rng w) (trace w) (stdout w ++ [ln])).

(** [for x in l: acc = body(acc, x)] *)
Fixpoint for_each {A B} (l : list A) (body : B → A → M B) (acc : B) : M B :=
  match l with
  | [] => ret acc
  | x :: l => let! acc := body acc x in for_each l body acc
  end.

(** Method calls on a [Person] object in the heap. *)
Definition call_finished (self : loc) : M unit :=
  let! p := deref self in
  store self (Person.finished p).

Definition call_update_collection (self : loc)
    (stickers_giving stickers_receving : gset Z) : M unit :=
  let! p := deref self in
  store self (Person.update_collection stickers_giving stickers_receving p).

Definition call_buy_pack (self : loc) (stickers_per_pack : Z) : M unit :=
  do! emit (BuyPack self) in
  let! p := deref self in
  λ w,
    let '(r, p, g) := Person.buy_pack stickers_per_pack p (rng w) in
    (r, mkWorld (<[self := p]> (heap w)) g (trace w) (stdout w)).

(** [Person(endowment, n_stickers)]: the object is allocated, then
    [__init__] runs on it. *)
Definition new_Person (endowment n_stickers : Z) : M loc :=
  let! self := alloc (Person.fresh_state n_stickers) in
  do! call_buy_pack self endowment in
  ret self.

(** ** Python dictionaries with string keys, in insertion order *)

Fixpoint dict_get {V} (d : list (string * V)) (k : string) : option V :=
  match d with
  | [] => None
  | (k', v) :: d => if decide (k = k') then Some v else dict_get d k
  end.

Fixpoint dict_set {V} (d : list (string * V)) (k : string) (v : V) : list (string * V) :=
  match d with
  | [] => [(k, v)]
  | (k', v') :: d => if decide (k = k') then (k, v) :: d else (k', v') :: dict_set d k v
  end.

Definition dict_keys {V} (d : list (string * V)) : list string := d.*1.

(** [itertools.combinations(l, 2)] *)
Fixpoint combinations2 {A} (l : list A) : list (A * A) :=
  match l with
  | [] => []
  | x :: l => (pair x <$> l) ++ combinations2 l
  end.

(** ** class Economy *)

Module Economy.

Record state := mk {
  n_friends : Z;
  n_randos : Z;
  stickers_per_pack : Z;
  finishers : gset loc;
  n_stickers : Z;
  members : list (string * loc)
}.

Definition set_finishers (f : gset loc) (self : state) : state :=
  mk (n_friends self) (n_randos self) (stickers_per_pack self) f
     (n_stickers self) (members self).
Definition set_members (m : list (string * loc)) (self : state) : state :=
  mk (n_friends self) (n_randos self) (stickers_per_pack self) (finishers self)
     (n_stickers self) m.

(** [self.members[person_id]] *)
Definition members_getitem (self : state) (person_id : string) : M loc :=
  match dict_get (members self) person_id with
  | Some person => ret person
  | None => raise KeyError
  end.

(** The key ["id" + str(i)]. *)
Definition member_id (i : nat) : string := "id" +:+ pretty i.

(** [def create_people(self, n_friends, endowment)]; the dictionary it
    builds is returned to [__init__], which stores it in [self.members]. *)
Definition create_people (n_stickers n_friends endowment : Z)
    : M (list (string * loc)) :=
  for_each (seq 0 (Z.to_nat n_friends))
    (λ members i,
       let! person := new_Person endowment n_stickers in
       ret (dict_set members (member_id i) person))
    [].

(** [def __init__(self, n_friends, starting_endowment, n_randos=5,
    stickers_per_pack=5, n_stickers_in_album=682)] *)
Definition init (n_friends starting_endowment n_randos stickers_per_pack
    n_stickers_in_album : Z) : M state :=
  let! members := create_people n_stickers_in_album n_friends starting_endowment in
  ret (mk n_friends n_randos stickers_per_pack ∅ n_stickers_in_album members).

(** The stickers a person holds with a positive repeat count. *)
Definition can_give (p : Person.state) : gset Z :=
  dom (filter (λ kv, 0 < kv.2) (Person.repeats p)).

(** [def trade(self, person1, person2)]; the method reads no field of
    [self]. *)
Definition trade (person1 person2 : loc) : M (bool * loc * loc) :=
  let! p2 := deref person2 in
  let person2_can_give := can_give p2 in
  let! p1 := deref person1 in
  let person1_can_give := can_give p1 in
  let person1_can_receive := person2_can_give ∖ Person.album p1 in
  let person2_can_receive := person1_can_give ∖ Person.album p2 in
  if bool_decide (0 < size person1_can_receive)%nat
     && bool_decide (0 < size person2_can_receive)%nat
  then
    do! call_update_collection person1 person2_can_receive person1_can_receive in
    do! call_update_collection person2 person1_can_receive person2_can_receive in
    ret (true, person1, person2)
  else ret (false, person1, person2).

(** A call of [self.trade] from [round_of_trade], recorded in the trace
    together with the flags of the two persons before the call. *)
Definition call_trade (person1 person2 : loc) : M (bool * loc * loc) :=
  let! p1 := deref person1 in
  let! p2 := deref person2 in
  let! '(traded, person1', person2') := trade person1 person2 in
  do! emit (Trade person1 person2 (Person.is_finished p1) (Person.is_finished p2)
                  traded) in
  ret (traded, person1', person2').

(** [def update_member(self, person_id, person)] *)
Definition update_member (self : state) (person_id : string) (person : loc)
    : M state :=
  let! p := deref person in
  let self :=
    if Person.is_finished p
    then set_finishers ({[person]} ∪ finishers self) self
    else self in
  ret (set_members (dict_set (members self) person_id person) self).

(** Body of the loop [for id1, id2 in combinations(self.members, 2)]. *)
Definition trade_with_friends (acc : state * gset string) (ids : string * string)
    : M (state * gset string) :=
  let '(self, have_traded) := acc in
  let '(id1, id2) := ids in
  let! person1 := members_getitem self id1 in
  let! person2 := members_getitem self id2 in
  let! p1 := deref person1 in
  let! p2 := deref person2 in
  if Person.is_finished p1 || Person.is_finished p2 then ret (self, have_traded)
  else
    let! '(they_traded, person1, person2) := call_trade person1 person2 in
    if they_traded : bool then
      let have_traded := {[id2]} ∪ ({[id1]} ∪ have_traded) in
      do! call_finished person1 in
      do! call_finished person2 in
      let! self := update_member self id1 person1 in
      let! self := update_member self id2 person2 in
      ret (self, have_traded)
    else ret (self, have_traded).

(** Body of the loop [for _ in range(self.n_randos)] of one person. *)
Definition trade_with_rando (rando_endowment : Z) (person_id : string)
    (person : loc) (acc : state * gset string) (_ : nat)
    : M (state * gset string) :=
  let '(self, have_traded) := acc in
  let! rando := new_Person rando_endowment (n_stickers self) in
  let! '(traded, person, _) := call_trade person rando in
  if traded : bool then
    let have_traded := {[person_id]} ∪ have_traded in
    do! call_finished person in
    let! self := update_member self person_id person in
    ret (self, have_traded)
  else ret (self, have_traded).

(** Body of the loop [for person_id in self.members] of the second phase. *)
Definition trade_with_randos (rando_endowment : Z) (acc : state * gset string)
    (person_id : string) : M (state * gset string) :=
  let '(self, have_traded) := acc in
  let! person := members_getitem self person_id in
  let! p := deref person in
  if Person.is_finished p then ret (self, have_traded)
  else
    for_each (seq 0 (Z.to_nat (n_randos self)))
      (trade_with_rando rando_endowment person_id person) (self, have_traded).

(** Body of the loop [for person_id in did_not_trade]. *)
Definition buy_if_not_traded (self : state) (person_id : string) : M state :=
  let! person := members_getitem self person_id in
  do! call_buy_pack person (stickers_per_pack self) in
  do! call_finished person in
  update_member self person_id person.

(** The first two phases of a round; they return the economy and the
    local set [have_traded]. *)
Definition trading_phases (self : state) (rando_endowment : Z)
    : M (state * gset string) :=
  let have_traded : gset string := ∅ in
  let! acc := for_each (combinations2 (dict_keys (members self)))
                trade_with_friends (self, have_traded) in
  for_each (dict_keys (members acc.1)) (trade_with_randos rando_endowment) acc.

(** [def round_of_trade(self, rando_endowment=500)].  The set
    [did_not_trade] is iterated in the order of [elements]. *)
Definition round_of_trade (self : state) (rando_endowment : Z) : M state :=
  let! '(self, have_traded) := trading_phases self rando_endowment in
  let did_not_trade : gset string :=
    list_to_set (dict_keys (members self)) ∖ have_traded in
  for_each (elements did_not_trade) buy_if_not_traded self.

(** [sum(self.members[p].is_finished for p in self.members)] *)
Definition count_finished (self : state) : M Z :=
  for_each (dict_keys (members self))
    (λ total p,
       let! person := members_getitem self p in
       let! s := deref person in
       ret (total + (if Person.is_finished s then 1 else 0)))
    0.

(** [sum(self.members[id].money_spent for id in self.members)] *)
Definition total_money_spent (self : state) : M Z :=
  for_each (dict_keys (members self))
    (λ total id,
       let! person := members_getitem self id in
       let! s := deref person in
       ret (total + Person.money_spent s))
    0.

(** The [while] loop of [run_simulation], unrolled at most [fuel] times. *)
Fixpoint run_loop (fuel : nat) (self : state) (rando_endowment n_logging : Z)
    (n_rounds n_finished : Z) : M (state * Z * Z) :=
  if n_finished <? n_friends self then
    match fuel with
    | O => get_stuck OutOfFuel
    | S fuel =>
        do! (if n_logging =? 0 then raise ZeroDivisionError
             else if n_rounds `mod` n_logging =? 0 then
               let n_finishers := Z.of_nat (size (finishers self)) in
               let! money_spent := total_money_spent self in
               do! print (FinishersLine n_rounds n_finishers) in
               print (MoneyLine n_rounds money_spent)
             else ret tt) in
        let! self := round_of_trade self rando_endowment in
        let! n_finished := count_finished self in
        run_loop fuel self rando_endowment n_logging (n_rounds + 1) n_finished
    end
  else ret (self, n_rounds, n_finished).

(** [def run_simulation(self, rando_endowment, n_logging)].  The method
    returns nothing; the model returns the economy together with the final
    values of the locals [n_rounds] and [n_finished]. *)
Definition run_simulation (fuel : nat) (self : state) (rando_endowment n_logging : Z)
    : M (state * Z * Z) :=
  let n_rounds := 0 in
  let! n_finished := count_finished self in
  run_loop fuel self rando_endowment n_logging n_rounds n_finished.

End Economy.

(** ** Vocabulary of the statements *)

(** What [p] can receive from [other]: the stickers [other] can give that are
    not in the album of [p] (the sets [person1_can_receive] and
    [person2_can_receive] of [Economy.trade]). *)
Definition can_receive (p other : Person.state) : gset Z :=
  Economy.can_give other ∖ Person.album p.

(** [c] run in [w] returns normally, with a value and a world satisfying [Q]. *)
Definition returns {A} (c : M A) (w : World) (Q : A → World → Prop) : Prop :=
  ∃ a w', c w = (Ok a, w') ∧ Q a w'.

(** The heap after the two calls of [update_collection] of an executed
    trade between the objects at [a] and [b], whose records were [pa] and
    [pb] before; the second call reads the heap left by the first. *)
Definition settle (a b : loc) (pa pb : Person.state) (h : gmap loc Person.state)
    : gmap loc Person.state :=
  let h1 := <[a := Person.update_collection (can_receive pb pa) (can_receive pa pb) pa]> h in
  let pb1 := default pb (h1 !! b) in
  <[b := Person.update_collection (can_receive pa pb) (can_receive pb pa) pb1]> h1.

(** Every object of [h] is still in [h'], with the same money spent and the
    same album size, and finished if it was. *)
Definition same_purse (h h' : gmap loc Person.state) : Prop :=
  ∀ l p, h !! l = Some p →
    ∃ p', h' !! l = Some p' ∧
          Person.money_spent p' = Person.money_spent p ∧
          Person.n_stickers p' = Person.n_stickers p ∧
          (Person.is_finished p = true → Person.is_finished p' = true).

(** The object at [l], if it exists in [w], is not finished. *)
Definition unfinished_at (w : World) (l : loc) : Prop :=
  ∀ p, heap w !! l = Some p → Person.is_finished p = false.

(** The object at [l] took part in a trade of the trace that returned [True]. *)
Definition traded_in (tr : list event) (l : loc) : Prop :=
  ∃ other f1 f2, Trade l other f1 f2 true ∈ tr ∨ Trade other l f1 f2 true ∈ tr.

(** The object at [l] is the value of a key of [self.members]. *)
Definition member_loc (self : Economy.state) (l : loc) : Prop :=
  l ∈ (Economy.members self).*2.

(** A collector of an album of [n] stickers whose album and positive
    repeats are sticker identifiers, and whose album is full if it is
    finished. *)
Definition typed_person (n : Z) (p : Person.state) : Prop :=
  Person.n_stickers p = n ∧
  Person.sticker_ids n (Person.album p) ∧
  Person.sticker_ids n (Economy.can_give p) ∧
  (Person.is_finished p = true → Z.of_nat (size (Person.album p)) = n).

Definition typed_heap (n : Z) (h : gmap loc Person.state) : Prop :=
  ∀ l p, h !! l = Some p → typed_person n p.

(** An economy as [Economy.__init__] builds it: distinct keys, distinct
    objects, each an allocated [Person] with the album size of the economy. *)
Definition wf_economy (self : Economy.state) (w : World) : Prop :=
  NoDup (Economy.members self).*1 ∧
  NoDup (Economy.members self).*2 ∧
  ∀ id l, (id, l) ∈ Economy.members self →
    ∃ p, heap w !! l = Some p ∧ Person.n_stickers p = Economy.n_stickers self.

(** The configuration of an economy: everything but [finishers]. *)
Definition same_config (self self' : Economy.state) : Prop :=
  Economy.members self' = Economy.members self ∧
  Economy.n_stickers self' = Economy.n_stickers self ∧
  Economy.n_randos self' = Economy.n_randos self ∧
  Economy.stickers_per_pack self' = Economy.stickers_per_pack self ∧
  Economy.n_friends self' = Economy.n_friends self.

(** From [w] to [w'] the trace grew by [tr], no object of [w] lost or spent
    anything, the packs bought were bought by objects created since, and
    the heap is still one of collectors of an album of [n] stickers if it
    was. *)
Definition trading_step (n : Z) (w : World) (tr : list event) (w' : World) : Prop :=
  same_purse (heap w) (heap w') ∧
  trace w' = trace w ++ tr ∧
  (∀ l, BuyPack l ∈ tr → heap w !! l = None) ∧
  (typed_heap n (heap w) → typed_heap n (heap w')).

(** Invariant of the two trading phases of a round started in [w0] with
    economy [self0]. *)
Definition trading_inv (self0 : Economy.state) (w0 : World)
    (acc : Economy.state * gset string) (w : World) : Prop :=
  ∃ tr, same_config self0 acc.1 ∧
        trading_step (Economy.n_stickers self0) w0 tr w ∧
        (∀ a b f1 f2 t, Trade a b f1 f2 t ∈ tr →
           unfinished_at w0 a ∧ unfinished_at w0 b ∧
           (member_loc self0 a → member_loc self0 b → f1 = false ∧ f2 = false) ∧
           (typed_heap (Economy.n_stickers self0) (heap w0) → t = true →
            f1 = false ∧ f2 = false) ∧
           (t = true → ∀ id l, (id, l) ∈ Economy.members self0 →
                               l = a ∨ l = b → id ∈ acc.2)) ∧
        ∀ id, id ∈ acc.2 →
          ∃ l, dict_get (Economy.members self0) id = Some l ∧ traded_in tr l.

(** [1] if [id] is in [visited], else [0]. *)
Definition visits (visited : list string) (id : string) : nat :=
  if decide (id ∈ visited) then 1%nat else 0%nat.

(** Invariant of the purchase phase of a round whose trading phases ended in
    [w1]: since then only packs were bought, one by each member whose key
    was visited and none by the other members. *)
Definition buying_inv (self0 : Economy.state) (w1 : World)
    (visited : list string) (self : Economy.state) (w : World) : Prop :=
  same_config self0 self ∧
  (typed_heap (Economy.n_stickers self0) (heap w1) →
   typed_heap (Economy.n_stickers self0) (heap w)) ∧
  ∃ tr, trace w = trace w1 ++ tr ∧
        (∀ e, e ∈ tr → ∃ l, e = BuyPack l) ∧
        ∀ id l, (id, l) ∈ Economy.members self0 →
          ∃ p1 p, heap w1 !! l = Some p1 ∧ heap w !! l = Some p ∧
                  Person.n_stickers p = Person.n_stickers p1 ∧
                  (Person.is_finished p1 = true → Person.is_finished p = true) ∧
                  Person.money_spent p
                  = Person.money_spent p1 + Z.of_nat (visits visited id) ∧
                  count_occ event_eq_dec tr (BuyPack l) = visits visited id.

(** Invariant of the loop of [create_people] for an album of [n] stickers
    and a first pack of [endowment] stickers, after the indices [visited]:
    the members are distinct objects, each as its constructor returned it. *)
Definition people_inv (n endowment : Z) (visited : list nat)
    (members : list (string * loc)) (w : World) : Prop :=
  members.*1 = Economy.member_id <$> visited ∧
  NoDup members.*2 ∧
  ∀ id l, (id, l) ∈ members →
    ∃ p g g', heap w !! l = Some p ∧
              Person.init endowment n g = (Ok tt, p, g').

(** ** Concrete scenarios *)

(** A tape whose first draws are [draws]. *)
Definition tape_of (draws : list Z) : nat → Z := λ i, default 0 (draws !! i).

Definition random_state_of (draws : list Z) : RandomState :=
  mkRandomState (tape_of draws) 0.

(** The world before any object exists. *)
Definition empty_world (draws : list Z) : World :=
  mkWorld ∅ (random_state_of draws) [] [].

(** Two collectors of an album of three stickers: [alice] holds sticker 0 in
    her album and once more in repeat, [bob] holds sticker 1 in his album and
    once more in repeat. *)
Definition alice : Person.state := Person.mk {[0]} {[0 := 1]} false 1 3.
Definition bob : Person.state := Person.mk {[1]} {[1 := 1]} false 1 3.
Definition alice_and_bob : World :=
  mkWorld {[0%nat := alice; 1%nat := bob]} (random_state_of []) [] [].

(** The scenario as the specification words it: [stated_a] holds sticker 0
    in the album and sticker 1 in repeat, [stated_b] holds sticker 1 in the
    album and sticker 0 in repeat. *)
Definition stated_a : Person.state := Person.mk {[0]} {[1 := 1]} false 1 3.
Definition stated_b : Person.state := Person.mk {[1]} {[0 := 1]} false 1 3.
Definition stated_world : World :=
  mkWorld {[0%nat := stated_a; 1%nat := stated_b]} (random_state_of []) [] [].

(** Two friends of an album of two stickers after their first packs of two:
    [id0] drew 0 and 1 and is finished, [id1] drew 0 twice. *)
Definition finished_friend : Person.state := Person.mk {[0; 1]} ∅ true 1 2.
Definition other_friend : Person.state := Person.mk {[0]} {[0 := 1]} false 1 2.
Definition two_friends : Economy.state :=
  Economy.mk 2 1 1 ∅ 2 [("id0", 0%nat); ("id1", 1%nat)].
Definition two_friends_world : World :=
  mkWorld {[0%nat := finished_friend; 1%nat := other_friend]}
          (mkRandomState (tape_of [0; 1; 0; 0; 1; 1]) 4) [BuyPack 0; BuyPack 1] [].

(** ** Vocabulary of the further properties *)

(** The receivable sets in the words of the specification: [k] is
    receivable by [p] from [other] when [other] holds [k] as a duplicate
    with count > 0 and [k] is not in the album of [p]. *)
Definition receivable (p other : Person.state) (k : Z) : Prop :=
  0 < getitem (Person.repeats other) k ∧ k ∉ Person.album p.

(** [bob] after he gave his repeat of sticker 1 away: the key is still in
    his [repeats], with count 0. *)
Definition spent_bob : Person.state := Person.mk {[1]} {[1 := 0]} false 1 3.
Definition alice_and_spent_bob : World :=
  mkWorld {[0%nat := alice; 1%nat := spent_bob]} (random_state_of []) [] [].

(** The sum of the counts of a [repeats] dictionary. *)
Definition total_repeats (r : gmap Z Z) : Z :=
  map_fold (λ _ count total, count + total) 0 r.

(** The number of stickers a person holds: one per album entry, plus the
    repeats. *)
Definition holdings (p : Person.state) : Z :=
  Z.of_nat (size (Person.album p)) + total_repeats (Person.repeats p).

(** The pack sizes and album sizes for which [np.random.choice] returns. *)
Definition drawable (n size : Z) : Prop := 0 ≤ size ∧ (0 < n ∨ size = 0).

(** The member behind the pair [kv] of [self.members] is finished in [w]. *)
Definition finished_member (w : World) (kv : string * loc) : Prop :=
  ∃ p, heap w !! kv.2 = Some p ∧ Person.is_finished p = true.

Global Instance finished_member_dec w kv : Decision (finished_member w kv).
Proof.
  unfold finished_member. destruct (heap w !! kv.2) as [p|] eqn:Hl.
  - destruct (Person.is_finished p) eqn:Hf.
    + left. by exists p.
    + right. intros (q & [= <-] & Hq). congruence.
  - right. by intros (q & [=] & _).
Defined.

(** The number of finished members, as [run_simulation] counts them. *)
Definition n_finished_of (self : Economy.state) (w : World) : Z :=
  Z.of_nat (length (filter (finished_member w) (Economy.members self))).

(** The money spent by all members together. *)
Definition money_of (self : Economy.state) (w : World) : Z :=
  foldl (λ total kv, total + from_option Person.money_spent 0 (heap w !! kv.2))
        0 (Economy.members self).

(** From [h] to [h'] no object disappears, a finished object stays
    finished, and the objects outside [touched] are unchanged. *)
Definition keeps (touched : gset loc) (h h' : gmap loc Person.state) : Prop :=
  (∀ l p, h !! l = Some p →
     ∃ p', h' !! l = Some p' ∧
           (Person.is_finished p = true → Person.is_finished p' = true)) ∧
  (∀ l p, l ∉ touched → h !! l = Some p → h' !! l = Some p).

(** The object at [l] is a member of [self] and finished in [w]. *)
Definition finished_loc (self : Economy.state) (w : World) (l : loc) : Prop :=
  member_loc self l ∧ ∃ p, heap w !! l = Some p ∧ Person.is_finished p = true.

(** Invariant of the bookkeeping of [self.finishers] during a round started
    with economy [self0]: the set only grows, what it gains are finished
    members, and it holds every finished member whose key is [updated],
    that is, for which [update_member] ran after its last change. *)
Definition finishers_inv (self0 : Economy.state) (updated : string → Prop)
    (self : Economy.state) (w : World) : Prop :=
  Economy.members self = Economy.members self0 ∧
  Economy.finishers self0 ⊆ Economy.finishers self ∧
  (∀ l, l ∈ Economy.finishers self →
        l ∈ Economy.finishers self0 ∨ finished_loc self0 w l) ∧
  (∀ id l p, (id, l) ∈ Economy.members self0 → updated id →
             heap w !! l = Some p → Person.is_finished p = true →
             l ∈ Economy.finishers self).

(** The computation [c] prints nothing, whatever its outcome. *)
Definition quiet {A} (c : M A) : Prop := ∀ w, stdout (c w).2 = stdout w.

(** The rounds, among the [k] rounds from [n_rounds] on, at whose start
    [run_simulation] logs: those with [n_rounds % n_logging == 0]. *)
Definition logged_rounds (n_logging n_rounds k : Z) : list Z :=
  filter (λ r, r `mod` n_logging = 0) (seqZ n_rounds k).

(** The two lines logged at each of [rounds], where [n_finishers r] and
    [money_spent r] are the values of these locals in round [r]. *)
Definition log_lines (n_finishers money_spent : Z → Z) (rounds : list Z) : list line :=
  concat ((λ r, [FinishersLine r (n_finishers r); MoneyLine r (money_spent r)])
          <$> rounds).

(** ** Trade attempts and finished friends *)

(** The trade attempt [e] has the object [l] as one of its two parties. *)
Definition involves (l : loc) (e : event) : Prop :=
  match e with
  | Trade a b _ _ _ => a = l ∨ b = l
  | BuyPack _ => False
  end.

(** [e] is an attempt of the friend [l] to trade with a stranger. *)
Definition stranger_attempt (self : Economy.state) (l : loc) (e : event) : Prop :=
  match e with
  | Trade a b _ _ _ => a = l ∧ ¬ member_loc self b
  | BuyPack _ => False
  end.

(** In the trace [tr] of a round, the first party of every trade attempt is
    a friend; if it is finished when the attempt is made, the other party
    is a stranger and the friend has traded successfully, while it was not
    finished, with an earlier stranger of the round: the attempt is made in
    the friend's own stranger loop, whose guard was passed before that
    trade. *)
Definition finished_only_in_own_loop (self : Economy.state) (tr : list event) : Prop :=
  ∀ pre a b f1 f2 t post,
    tr = pre ++ Trade a b f1 f2 t :: post →
    member_loc self a ∧
    (f1 = true →
     ¬ member_loc self b ∧
     ∃ r g, ¬ member_loc self r ∧ Trade a r false g true ∈ pre).

(** The last successful trade of [l] in [tr], if it is not a trade of [l]
    with a stranger, is followed by no attempt that involves [l]. *)
Definition last_trade_in_own_loop (self : Economy.state) (tr : list event) (l : loc) : Prop :=
  ∀ pre a b f1 f2 post,
    tr = pre ++ Trade a b f1 f2 true :: post →
    a = l ∨ b = l → ¬ traded_in post l →
    a = l ∧ ¬ member_loc self b.

(** After its last successful trade in [tr] the object [l] takes part in no
    trade attempt, with one exception: when that trade was one of [l] with
    a stranger, [l] may take part in further attempts of its own with
    strangers. *)
Definition settled_after (self : Economy.state) (tr : list event) (l : loc) : Prop :=
  ∀ pre a b f1 f2 post,
    tr = pre ++ Trade a b f1 f2 true :: post →
    a = l ∨ b = l → ¬ traded_in post l →
    ∀ e, e ∈ post → involves l e →
         (a = l ∧ ¬ member_loc self b) ∧ stranger_attempt self l e.

(** Invariant of the trading phases of a round started in [w0] with economy
    [self0], about the attempts made so far. *)
Definition attempts_inv (self0 : Economy.state) (w0 w : World) : Prop :=
  ∃ tr, trace w = trace w0 ++ tr ∧
        finished_only_in_own_loop self0 tr ∧
        ∀ id l p, (id, l) ∈ Economy.members self0 →
                  heap w !! l = Some p → Person.is_finished p = true →
                  settled_after self0 tr l.

(** Invariant of the stranger loop of the friend at [l0]: if the friend is
    finished, it became so by a trade with a stranger of this loop. *)
Definition own_loop_inv (self0 : Economy.state) (w0 : World) (l0 : loc) (w : World)
    : Prop :=
  ∃ tr, trace w = trace w0 ++ tr ∧
        finished_only_in_own_loop self0 tr ∧
        (∀ id l p, (id, l) ∈ Economy.members self0 →
                   heap w !! l = Some p → Person.is_finished p = true →
                   settled_after self0 tr l) ∧
        ∀ p, heap w !! l0 = Some p → Person.is_finished p = true →
             (∃ r g, ¬ member_loc self0 r ∧ Trade l0 r false g true ∈ tr) ∧
             last_trade_in_own_loop self0 tr l0.

(** Three friends of an album of two stickers after their first packs of
    two: [id0] and [id2] drew 0 twice, [id1] drew 1 twice.  In the next
    round [id0] and [id1] complete their albums by trading with each
    other. *)
Definition second_friend : Person.state := Person.mk {[1]} {[1 := 1]} false 1 2.
Definition three_friends : Economy.state :=
  Economy.mk 3 1 1 ∅ 2 [("id0", 0%nat); ("id1", 1%nat); ("id2", 2%nat)].
Definition three_friends_world : World :=
  mkWorld {[0%nat := other_friend; 1%nat := second_friend; 2%nat := other_friend]}
          (mkRandomState (tape_of [0; 0; 1; 1; 0; 0; 0; 1]) 6)
          [BuyPack 0; BuyPack 1; BuyPack 2] [].

(** * Properties of [Person] *)

Section person_facts.
Import Person.
Implicit Types (self p : state) (X giving receiving : gset Z).

Lemma finished_fields p :
  album (finished p) = album p ∧ repeats (finished p) = repeats p ∧
  money_spent (finished p) = money_spent p ∧ n_stickers (finished p) = n_stickers p.
Proof. unfold finished. by destruct (_ =? _). Qed.

Lemma finished_flag p :
  is_finished (finished p)
  = is_finished p || bool_decide (Z.of_nat (size (album p)) = n_stickers p).
Proof.
  unfold finished. destruct (Z.eqb_spec (Z.of_nat (size (album p))) (n_stickers p)).
  - rewrite bool_decide_eq_true_2 by done. by rewrite orb_true_r.
  - rewrite bool_decide_eq_false_2 by done. by rewrite orb_false_r.
Qed.

Lemma fold_receive p X :
  set_fold receive p X = set_album (album p ∪ X) p.
Proof.
  apply (set_fold_ind_L (λ q Y, q = set_album (album p ∪ Y) p)).
  - destruct p; unfold set_album; simpl. f_equal. set_solver.
  - intros x Y q _ ->. unfold receive, set_album; simpl. f_equal. set_solver.
Qed.

Lemma fold_give p X :
  album (set_fold give p X) = album p ∧
  is_finished (set_fold give p X) = is_finished p ∧
  money_spent (set_fold give p X) = money_spent p ∧
  n_stickers (set_fold give p X) = n_stickers p ∧
  ∀ k, repeats (set_fold give p X) !! k
       = if decide (k ∈ X) then Some (getitem (repeats p) k - 1) else repeats p !! k.
Proof.
  refine (set_fold_ind_L (λ q Y,
    album q = album p ∧ is_finished q = is_finished p ∧
    money_spent q = money_spent p ∧ n_stickers q = n_stickers p ∧
    ∀ k, repeats q !! k
         = if decide (k ∈ Y) then Some (getitem (repeats p) k - 1) else repeats p !! k)
    give p _ _ X).
  - repeat split; try done; intros k; by rewrite decide_False by set_solver.
  - intros x Y q Hx (Ha & Hf & Hm & Hn & Hr). repeat split; try done.
    intros k. unfold give; simpl. destruct (decide (k = x)) as [->|Hne].
    + rewrite lookup_insert_eq, decide_True by set_solver.
      unfold getitem. rewrite Hr, decide_False by done. done.
    + rewrite lookup_insert_ne by done. rewrite Hr.
      destruct (decide (k ∈ Y)).
      * by rewrite decide_True by set_solver.
      * by rewrite decide_False by set_solver.
Qed.

Lemma update_collection_album giving receiving p :
  album (update_collection giving receiving p) = album p ∪ receiving.
Proof.
  unfold update_collection.
  destruct (finished_fields (set_fold give (set_fold receive p receiving) giving))
    as (-> & _).
  destruct (fold_give (set_fold receive p receiving) giving) as (-> & _).
  by rewrite fold_receive.
Qed.

Lemma update_collection_repeats giving receiving p k :
  repeats (update_collection giving receiving p) !! k
  = if decide (k ∈ giving) then Some (getitem (repeats p) k - 1) else repeats p !! k.
Proof.
  unfold update_collection.
  destruct (finished_fields (set_fold give (set_fold receive p receiving) giving))
    as (_ & -> & _).
  destruct (fold_give (set_fold receive p receiving) giving) as (_ & _ & _ & _ & ->).
  by rewrite fold_receive.
Qed.

Lemma update_collection_getitem giving receiving p k :
  getitem (repeats (update_collection giving receiving p)) k
  = if decide (k ∈ giving) then getitem (repeats p) k - 1 else getitem (repeats p) k.
Proof.
  unfold getitem at 1. rewrite update_collection_repeats. by case_decide.
Qed.

Lemma update_collection_money giving receiving p :
  money_spent (update_collection giving receiving p) = money_spent p.
Proof.
  unfold update_collection.
  destruct (finished_fields (set_fold give (set_fold receive p receiving) giving))
    as (_ & _ & -> & _).
  destruct (fold_give (set_fold receive p receiving) giving) as (_ & _ & -> & _).
  by rewrite fold_receive.
Qed.

Lemma update_collection_n_stickers giving receiving p :
  n_stickers (update_collection giving receiving p) = n_stickers p.
Proof.
  unfold update_collection.
  destruct (finished_fields (set_fold give (set_fold receive p receiving) giving))
    as (_ & _ & _ & ->).
  destruct (fold_give (set_fold receive p receiving) giving) as (_ & _ & _ & -> & _).
  by rewrite fold_receive.
Qed.

Lemma update_collection_flag giving receiving p :
  is_finished (update_collection giving receiving p)
  = is_finished p
    || bool_decide (Z.of_nat (size (album p ∪ receiving)) = n_stickers p).
Proof.
  unfold update_collection. rewrite finished_flag.
  destruct (fold_give (set_fold receive p receiving) giving)
    as (-> & -> & _ & -> & _).
  by rewrite fold_receive.
Qed.

(** The loop of [buy_pack] over the drawn pack. *)
Lemma fold_add_sticker new_pack p :
  album (foldl add_sticker p new_pack) = album p ∪ list_to_set new_pack ∧
  is_finished (foldl add_sticker p new_pack) = is_finished p ∧
  money_spent (foldl add_sticker p new_pack) = money_spent p ∧
  n_stickers (foldl add_sticker p new_pack) = n_stickers p.
Proof.
  revert p. induction new_pack as [|s l IH]; intros p; simpl.
  - repeat split; try done. set_solver.
  - destruct (IH (add_sticker p s)) as (Ha & Hf & Hm & Hn).
    rewrite Ha, Hf, Hm, Hn. unfold add_sticker.
    destruct (decide (s ∉ album p)) as [Hs|Hs]; simpl; repeat split; try done.
    + set_solver.
    + apply dec_stable in Hs. set_solver.
Qed.

Lemma sample_in_range n k g s : 0 < n → s ∈ sample n k g → 0 ≤ s < n.
Proof.
  intros Hn (i & -> & _)%list_elem_of_fmap. by apply Z.mod_pos_bound.
Qed.

Lemma choice_ok n size g :
  0 ≤ size → (0 < n ∨ size = 0) →
  choice n size g = (Ok (sample n (Z.to_nat size) g), advance (Z.to_nat size) g).
Proof.
  intros Hs Hn. unfold choice.
  destruct (Z.ltb_spec size 0); [lia|].
  destruct (Z.leb_spec n 0), (Z.ltb_spec 0 size); simpl; try done. lia.
Qed.

Lemma choice_cases n size g :
  (∃ e, choice n size g = (Raise e, g)) ∨
  (0 ≤ size ∧ (0 < n ∨ size = 0) ∧
   choice n size g = (Ok (sample n (Z.to_nat size) g), advance (Z.to_nat size) g)).
Proof.
  unfold choice. destruct (Z.ltb_spec size 0); [by eauto|].
  destruct (Z.leb_spec n 0), (Z.ltb_spec 0 size); simpl; eauto;
    right; repeat split; try done; lia.
Qed.

(** What [buy_pack] does to [self], in terms of the pack it drew. *)
Lemma buy_pack_cases k p g :
  (∃ e g', buy_pack k p g = (Raise e, set_money_spent (money_spent p + 1) p, g')) ∨
  (0 ≤ k ∧ (0 < n_stickers p ∨ k = 0) ∧
   buy_pack k p g
   = (Ok tt,
      finished (foldl add_sticker (set_money_spent (money_spent p + 1) p)
                      (sample (n_stickers p) (Z.to_nat k) g)),
      advance (Z.to_nat k) g)).
Proof.
  unfold buy_pack; simpl.
  destruct (choice_cases (n_stickers p) k g) as [[e ->]|(Hk & Hn & ->)]; eauto 10.
Qed.

Lemma after_buy_pack_fields k p g :
  album p ⊆ album (after_buy_pack k p g) ∧
  money_spent (after_buy_pack k p g) = money_spent p + 1 ∧
  n_stickers (after_buy_pack k p g) = n_stickers p ∧
  (is_finished p = true → is_finished (after_buy_pack k p g) = true) ∧
  (∀ s, s ∈ album (after_buy_pack k p g) → s ∈ album p ∨ 0 ≤ s < n_stickers p).
Proof.
  unfold after_buy_pack.
  destruct (buy_pack_cases k p g) as [(e & g' & ->)|(Hk & Hn & ->)]; simpl.
  - repeat split; auto.
  - set (l := sample _ _ _). set (p1 := set_money_spent _ _).
    destruct (finished_fields (foldl add_sticker p1 l)) as (-> & _ & -> & ->).
    rewrite finished_flag.
    destruct (fold_add_sticker l p1) as (-> & -> & -> & ->). simpl.
    repeat split; try done.
    + set_solver.
    + by intros ->.
    + intros s [Hs|Hs]%elem_of_union; [by left|right].
      apply elem_of_list_to_set in Hs. destruct Hn as [Hn| ->].
      * by eapply sample_in_range.
      * by apply elem_of_nil in Hs.
Qed.

(** A set of sticker identifiers of an album of [n] stickers has at most
    [n] elements. *)
Lemma sticker_ids_size n X : sticker_ids n X → Z.of_nat (size X) ≤ Z.max 0 n.
Proof.
  intros HX.
  assert (X ⊆ list_to_set (seqZ 0 n)) as Hsub.
  { intros s Hs. apply elem_of_list_to_set, elem_of_seqZ. specialize (HX s Hs). lia. }
  apply subseteq_size in Hsub.
  assert (size (list_to_set (C:=gset Z) (seqZ 0 n)) = length (seqZ 0 n)) as Hsz.
  { apply size_list_to_set, NoDup_seqZ. }
  rewrite Hsz, length_seqZ in Hsub. lia.
Qed.

(** A full album absorbs every set of sticker identifiers. *)
Lemma full_album_absorbs n A X :
  sticker_ids n A → sticker_ids n X → Z.of_nat (size A) = n → A ∪ X = A.
Proof.
  intros HA HX Hfull.
  assert (sticker_ids n (A ∪ X)) as HAX.
  { intros s [?|?]%elem_of_union; auto. }
  apply sticker_ids_size in HAX.
  symmetry. apply set_subseteq_size_eq; [set_solver|lia].
Qed.

(** The invariant of a collector: the album holds sticker identifiers
    only, and the flag says whether the album is full. *)
Lemma grow_keeps_invariant p q X :
  sticker_ids (n_stickers p) (album p) →
  (is_finished p = true → Z.of_nat (size (album p)) = n_stickers p) →
  sticker_ids (n_stickers p) X →
  album q = album p ∪ X →
  n_stickers q = n_stickers p →
  is_finished q
  = is_finished p || bool_decide (Z.of_nat (size (album q)) = n_stickers q) →
  sticker_ids (n_stickers q) (album q) ∧
  (is_finished q = true ↔ Z.of_nat (size (album q)) = n_stickers q).
Proof.
  intros Hids Hiff HX Ha Hn Hf. rewrite Hn, Ha in *. split.
  { intros s [?|?]%elem_of_union; auto. }
  rewrite Hf. destruct (is_finished p) eqn:Hfin; simpl.
  - assert (Z.of_nat (size (album p)) = n_stickers p) as Hfull by by apply Hiff.
    rewrite (full_album_absorbs _ _ _ Hids HX Hfull). done.
  - by rewrite bool_decide_eq_true.
Qed.

Lemma buy_pack_ok_invariant k p g r q g' :
  buy_pack k p g = (r, q, g') → r = Ok tt →
  sticker_ids (n_stickers p) (album p) →
  (is_finished p = true → Z.of_nat (size (album p)) = n_stickers p) →
  n_stickers q = n_stickers p ∧
  sticker_ids (n_stickers q) (album q) ∧
  (is_finished q = true ↔ Z.of_nat (size (album q)) = n_stickers q).
Proof.
  intros Hbuy -> Hids Hiff.
  destruct (buy_pack_cases k p g) as [(e & g1 & Heq)|(Hk & Hn & Heq)];
    rewrite Heq in Hbuy; [done|].
  injection Hbuy as <- <-.
  set (l := sample _ _ _). set (p1 := set_money_spent _ _).
  destruct (finished_fields (foldl add_sticker p1 l)) as (Ha & _ & _ & Hns).
  destruct (fold_add_sticker l p1) as (Ha' & Hf' & _ & Hns').
  split; [by rewrite Hns, Hns'|].
  apply (grow_keeps_invariant p _ (list_to_set l)); try done.
  - intros s Hs%elem_of_list_to_set. destruct Hn as [Hn| ->].
    + by eapply sample_in_range.
    + by apply elem_of_nil in Hs.
  - by rewrite Ha, Ha'.
  - by rewrite Hns, Hns'.
  - rewrite finished_flag, Hf', Ha, Hns. done.
Qed.

Lemma typed_call_invariant p q :
  typed_call p q →
  sticker_ids (n_stickers p) (album p) →
  (is_finished p = true ↔ Z.of_nat (size (album p)) = n_stickers p) →
  sticker_ids (n_stickers q) (album q) ∧
  (is_finished q = true ↔ Z.of_nat (size (album q)) = n_stickers q).
Proof.
  intros [k self g|giving receiving self Hrec] Hids Hiff.
  - unfold after_buy_pack.
    destruct (buy_pack k self g) as [[r q'] g'] eqn:Hbuy; simpl.
    destruct (buy_pack_cases k self g) as [(e & g1 & Heq)|(Hk & Hn & Heq)].
    + rewrite Heq in Hbuy. by injection Hbuy as <- <- <-.
    + eapply buy_pack_ok_invariant; [done| |done|by apply Hiff].
      rewrite Heq in Hbuy. by injection Hbuy as <- _ _.
  - apply (grow_keeps_invariant self _ receiving); try done.
    + by apply Hiff.
    + apply update_collection_album.
    + apply update_collection_n_stickers.
    + rewrite update_collection_flag, update_collection_album,
        update_collection_n_stickers. done.
Qed.

Lemma constructed_invariant p :
  constructed p →
  sticker_ids (n_stickers p) (album p) ∧
  (is_finished p = true ↔ Z.of_nat (size (album p)) = n_stickers p).
Proof.
  intros (endowment & n & g & g' & Hinit).
  eapply (buy_pack_ok_invariant _ (fresh_state n)); [exact Hinit|done| |done].
  intros s Hs. set_solver.
Qed.

Lemma call_keeps_finished p q :
  call p q → is_finished p = true → is_finished q = true.
Proof.
  intros [k self g|giving receiving self] Hfin.
  - by apply after_buy_pack_fields.
  - by rewrite update_collection_flag, Hfin.
Qed.

Lemma call_grows_album p q : call p q → album p ⊆ album q.
Proof.
  intros [k self g|giving receiving self].
  - apply after_buy_pack_fields.
  - rewrite update_collection_album. set_solver.
Qed.

End person_facts.

(** * Properties of [Economy.trade] *)

Section trade_facts.
Import Person Economy.
Implicit Types (w : World) (a b : loc) (pa pb : Person.state).

Lemma elem_of_can_give p k : k ∈ can_give p ↔ 0 < getitem (repeats p) k.
Proof.
  unfold can_give, getitem. rewrite elem_of_dom. split.
  - intros [v [Hv Hpos]%map_lookup_filter_Some]. by rewrite Hv.
  - destruct (repeats p !! k) as [v|] eqn:Hv; simpl; [|lia].
    intros Hpos. exists v. by apply map_lookup_filter_Some.
Qed.

Lemma size_pos_nonempty (X : gset Z) : (0 < size X)%nat ↔ X ≠ ∅.
Proof.
  pose proof (size_non_empty_iff X) as Hsz. unfold_leibniz.
  rewrite <- Hsz. lia.
Qed.

Lemma trade_unfold w a b pa pb :
  heap w !! a = Some pa → heap w !! b = Some pb →
  trade a b w
  = if decide (can_receive pa pb ≠ ∅ ∧ can_receive pb pa ≠ ∅)
    then (Ok (true, a, b),
          mkWorld (settle a b pa pb (heap w)) (rng w) (trace w) (stdout w))
    else (Ok (false, a, b), w).
Proof.
  intros Ha Hb. unfold trade, bind, deref. rewrite Hb, Ha.
  fold (can_receive pa pb). fold (can_receive pb pa).
  destruct (decide (can_receive pa pb ≠ ∅ ∧ can_receive pb pa ≠ ∅)) as [[H1 H2]|Hno].
  - rewrite !bool_decide_eq_true_2 by by apply size_pos_nonempty. simpl.
    unfold call_update_collection, bind, deref, store; simpl.
    rewrite Ha; simpl. unfold settle; simpl.
    destruct (decide (a = b)) as [->|Hne].
    + rewrite lookup_insert_eq. simpl. done.
    + rewrite lookup_insert_ne by done. rewrite Hb. simpl. done.
  - assert (bool_decide (0 < size (can_receive pa pb))%nat
            && bool_decide (0 < size (can_receive pb pa))%nat = false) as ->; [|done].
    apply andb_false_iff.
    rewrite !bool_decide_eq_false, !size_pos_nonempty.
    destruct (decide (can_receive pa pb = ∅)); [left; auto|right].
    intros ?. apply Hno. done.
Qed.

Lemma settle_distinct a b pa pb (h : gmap loc Person.state) :
  a ≠ b → h !! b = Some pb →
  settle a b pa pb h !! a
    = Some (update_collection (can_receive pb pa) (can_receive pa pb) pa) ∧
  settle a b pa pb h !! b
    = Some (update_collection (can_receive pa pb) (can_receive pb pa) pb) ∧
  ∀ l, l ≠ a → l ≠ b → settle a b pa pb h !! l = h !! l.
Proof.
  intros Hne Hb. unfold settle; simpl. rewrite (lookup_insert_ne _ a b) by done.
  rewrite Hb; simpl. repeat split.
  - rewrite lookup_insert_ne by done. by rewrite lookup_insert_eq.
  - by rewrite lookup_insert_eq.
  - intros l Hla Hlb. by rewrite !lookup_insert_ne by done.
Qed.

(** Whatever the aliasing, the album at [a] after an executed trade
    contains what [a] could receive. *)
Lemma settle_album_a a b pa pb (h : gmap loc Person.state) :
  ∃ pa', settle a b pa pb h !! a = Some pa' ∧
         album pa ∪ can_receive pa pb ⊆ album pa'.
Proof.
  unfold settle; simpl. destruct (decide (a = b)) as [->|Hne].
  - rewrite !lookup_insert_eq; simpl. eexists; split; [done|].
    rewrite !update_collection_album. set_solver.
  - rewrite lookup_insert_ne by done. rewrite lookup_insert_eq.
    eexists; split; [done|]. by rewrite update_collection_album.
Qed.

(** A collector never trades with itself when every sticker it holds in
    repeat is in its album, as is the case for every collector built by
    the constructor and changed by [buy_pack] and by trades. *)
Lemma trade_with_itself w a pa :
  heap w !! a = Some pa → can_give pa ⊆ album pa →
  trade a a w = (Ok (false, a, a), w).
Proof.
  intros Ha Hsub. rewrite (trade_unfold w a a pa pa) by done.
  rewrite decide_False; [done|]. intros [Hne _]. apply Hne.
  unfold can_receive. set_solver.
Qed.

(** An executed trade between two distinct objects. *)
Lemma trade_executed w a b pa pb :
  a ≠ b → heap w !! a = Some pa → heap w !! b = Some pb →
  can_receive pa pb ≠ ∅ → can_receive pb pa ≠ ∅ →
  ∃ w',
    trade a b w = (Ok (true, a, b), w') ∧
    heap w' !! a
      = Some (update_collection (can_receive pb pa) (can_receive pa pb) pa) ∧
    heap w' !! b
      = Some (update_collection (can_receive pa pb) (can_receive pb pa) pb).
Proof.
  intros Hne Ha Hb H1 H2. rewrite (trade_unfold w a b pa pb) by done.
  rewrite decide_True by done.
  destruct (settle_distinct a b pa pb (heap w) Hne Hb) as (Ha' & Hb' & _).
  eexists. split; [done|]. simpl. by split.
Qed.
End trade_facts.

(** * The claims about [Economy.trade] *)

(** The receivable sets computed by [trade] are those of the
    specification: the stickers the other holds with a count above 0 that
    are not in the album. *)
Lemma elem_of_can_receive (p other : Person.state) (k : Z) :
  k ∈ can_receive p other ↔ receivable p other k.
Proof.
  unfold can_receive, receivable. rewrite elem_of_difference, elem_of_can_give.
  done.
Qed.

Lemma can_receive_nonempty (p other : Person.state) :
  can_receive p other ≠ ∅ ↔ ∃ k, receivable p other k.
Proof.
  split.
  - intros [k Hk]%set_choose_L. exists k. by apply elem_of_can_receive.
  - intros [k Hk%elem_of_can_receive] Hempty. rewrite Hempty in Hk.
    by apply not_elem_of_empty in Hk.
Qed.

(** What a call of [trade] does, in terms of the sets it computes. *)
Lemma trade_outcome (w : World) (a b : loc) (pa pb : Person.state) :
  heap w !! a = Some pa → heap w !! b = Some pb →
  ∃ traded w',
    Economy.trade a b w = (Ok (traded, a, b), w') ∧
    (traded = true ↔ can_receive pa pb ≠ ∅ ∧ can_receive pb pa ≠ ∅) ∧
    (heap w' !! a ≠ Some pa ∨ heap w' !! b ≠ Some pb
     ↔ can_receive pa pb ≠ ∅ ∧ can_receive pb pa ≠ ∅) ∧
    (can_receive pa pb = ∅ ∨ can_receive pb pa = ∅ → traded = false ∧ w' = w).
Proof.
  intros Ha Hb. rewrite (trade_unfold w a b pa pb) by done.
  destruct (decide (can_receive pa pb ≠ ∅ ∧ can_receive pb pa ≠ ∅)) as [Hyes|Hno].
  - eexists _, _. split; [done|]. simpl. split; [done|]. split.
    + split; [done|]. intros _. left.
      destruct (settle_album_a a b pa pb (heap w)) as (pa' & -> & Hsub).
      intros [= ->]. destruct Hyes as [Hne _].
      apply set_choose_L in Hne as [k Hk].
      assert (k ∈ Person.album pa) as Hin by set_solver.
      unfold can_receive in Hk. set_solver.
    + destruct Hyes as [H1 H2]. intros [?|?]; done.
  - eexists _, _. split; [done|]. split; [done|]. split; [|done].
    split; [|done]. intros [?|?]; done.
Qed.

(** C1.  [trade(a, b)] changes the state of [a] or of [b] if and only if
    both receivable sets are non-empty before the call: some sticker that
    [b] holds as a duplicate with count > 0 is not in the album of [a], and
    some sticker that [a] holds as a duplicate with count > 0 is not in the
    album of [b]; this is also when it returns [True].  When one of the two
    sets is empty it returns [False] and leaves the whole world, hence both
    collectors, unchanged. *)
Theorem trade_fairness (w : World) (a b : loc) (pa pb : Person.state) :
  heap w !! a = Some pa → heap w !! b = Some pb →
  ∃ traded w',
    Economy.trade a b w = (Ok (traded, a, b), w') ∧
    (traded = true ↔ (∃ k, receivable pa pb k) ∧ (∃ k, receivable pb pa k)) ∧
    (heap w' !! a ≠ Some pa ∨ heap w' !! b ≠ Some pb
     ↔ (∃ k, receivable pa pb k) ∧ (∃ k, receivable pb pa k)) ∧
    ((¬ ∃ k, receivable pa pb k) ∨ (¬ ∃ k, receivable pb pa k) →
     traded = false ∧ w' = w).
Proof.
  intros Ha Hb.
  destruct (trade_outcome w a b pa pb Ha Hb)
    as (traded & w' & Htrade & Htraded & Hchanged & Hnone).
  exists traded, w'. split; [done|].
  rewrite <- !can_receive_nonempty. split; [done|]. split; [done|].
  intros Hempty. apply Hnone.
  destruct Hempty as [He|He]; [left|right].
  - by destruct (decide (can_receive pa pb = ∅)) as [?|?%He].
  - by destruct (decide (can_receive pb pa = ∅)) as [?|?%He].
Qed.

(** C2.  When [trade(a, b)] executes on two collectors, every sticker [a]
    could receive is in the album of [a] afterwards and its repeat count at
    [b] is one less than before; and the same with [a] and [b] exchanged. *)
Theorem trade_conservation (w : World) (a b : loc) (pa pb : Person.state) :
  a ≠ b → heap w !! a = Some pa → heap w !! b = Some pb →
  can_receive pa pb ≠ ∅ → can_receive pb pa ≠ ∅ →
  ∃ w' pa' pb',
    Economy.trade a b w = (Ok (true, a, b), w') ∧
    heap w' !! a = Some pa' ∧ heap w' !! b = Some pb' ∧
    (∀ k, k ∈ can_receive pa pb →
          k ∈ Person.album pa' ∧
          getitem (Person.repeats pb') k = getitem (Person.repeats pb) k - 1) ∧
    (∀ k, k ∈ can_receive pb pa →
          k ∈ Person.album pb' ∧
          getitem (Person.repeats pa') k = getitem (Person.repeats pa) k - 1).
Proof.
  intros Hne Ha Hb H1 H2.
  destruct (trade_executed w a b pa pb Hne Ha Hb H1 H2) as (w' & Htrade & Ha' & Hb').
  eexists _, _, _. split; [done|]. split; [exact Ha'|]. split; [exact Hb'|].
  split; intros k Hk.
  - rewrite update_collection_album, update_collection_getitem.
    rewrite decide_True by done. split; [set_solver|done].
  - rewrite update_collection_album, update_collection_getitem.
    rewrite decide_True by done. split; [set_solver|done].
Qed.

(** C7.  In every call of [trade(a, b)] on two collectors, the set each
    party gives is made of stickers whose repeat count at that party was
    positive before the call, and no repeat count that was non-negative
    before the call is negative after it. *)
Theorem trade_never_underflows (w : World) (a b : loc) (pa pb : Person.state) :
  a ≠ b → heap w !! a = Some pa → heap w !! b = Some pb →
  ∃ traded w' pa' pb',
    Economy.trade a b w = (Ok (traded, a, b), w') ∧
    heap w' !! a = Some pa' ∧ heap w' !! b = Some pb' ∧
    (traded = true →
       pa' = Person.update_collection (can_receive pb pa) (can_receive pa pb) pa ∧
       pb' = Person.update_collection (can_receive pa pb) (can_receive pb pa) pb) ∧
    (traded = false → pa' = pa ∧ pb' = pb) ∧
    (∀ k, k ∈ can_receive pb pa → 0 < getitem (Person.repeats pa) k) ∧
    (∀ k, k ∈ can_receive pa pb → 0 < getitem (Person.repeats pb) k) ∧
    (∀ k, 0 ≤ getitem (Person.repeats pa) k → 0 ≤ getitem (Person.repeats pa') k) ∧
    (∀ k, 0 ≤ getitem (Person.repeats pb) k → 0 ≤ getitem (Person.repeats pb') k).
Proof.
  intros Hne Ha Hb.
  assert (∀ k, k ∈ can_receive pb pa → 0 < getitem (Person.repeats pa) k) as Hga.
  { intros k Hk. apply elem_of_can_give. unfold can_receive in Hk. set_solver. }
  assert (∀ k, k ∈ can_receive pa pb → 0 < getitem (Person.repeats pb) k) as Hgb.
  { intros k Hk. apply elem_of_can_give. unfold can_receive in Hk. set_solver. }
  rewrite (trade_unfold w a b pa pb) by done.
  destruct (decide (can_receive pa pb ≠ ∅ ∧ can_receive pb pa ≠ ∅)) as [Hyes|Hno].
  - destruct (settle_distinct a b pa pb (heap w) Hne Hb) as (Ha' & Hb' & _).
    eexists _, _, _, _. split; [done|]. simpl. split; [exact Ha'|]. split; [exact Hb'|].
    repeat split; try done.
    + intros k Hk. rewrite update_collection_getitem. case_decide as Hin; [|done].
      specialize (Hga k Hin). lia.
    + intros k Hk. rewrite update_collection_getitem. case_decide as Hin; [|done].
      specialize (Hgb k Hin). lia.
  - eexists _, _, _, _. split; [done|]. split; [exact Ha|]. split; [exact Hb|].
    repeat split; try done.
Qed.

(** * Reasoning about the monad *)

Section monad_facts.

Lemma returns_ret {A} (a : A) w (Q : A → World → Prop) : Q a w → returns (ret a) w Q.
Proof. intros HQ. by exists a, w. Qed.

Lemma returns_bind {A B} (c : M A) (k : A → M B) w (Q : B → World → Prop) :
  returns c w (λ a w', returns (k a) w' Q) → returns (bind c k) w Q.
Proof.
  intros (a & w' & Hc & b & w'' & Hk & HQ). exists b, w''. split; [|done].
  unfold bind. by rewrite Hc.
Qed.

Lemma returns_mono {A} (c : M A) w (Q Q' : A → World → Prop) :
  returns c w Q → (∀ a w', Q a w' → Q' a w') → returns c w Q'.
Proof. intros (a & w' & Hc & HQ) Himp. exists a, w'. auto. Qed.

Lemma returns_eq {A} (c : M A) w a w' (Q : A → World → Prop) :
  c w = (Ok a, w') → Q a w' → returns c w Q.
Proof. intros Hc HQ. by exists a, w'. Qed.

(** A loop keeps an invariant that may mention the elements already
    visited. *)
Lemma returns_for_each {A B} (I : list A → B → World → Prop) (body : B → A → M B) :
  ∀ l visited acc w,
    I visited acc w →
    (∀ pre x post acc w,
       visited ++ l = pre ++ x :: post →
       I pre acc w → returns (body acc x) w (I (pre ++ [x]))) →
    returns (for_each l body acc) w (I (visited ++ l)).
Proof.
  induction l as [|x l IH]; intros visited acc w HI Hbody; simpl.
  - rewrite app_nil_r. by apply returns_ret.
  - apply returns_bind. eapply returns_mono.
    + by apply (Hbody visited x l).
    + intros acc' w' HI'. simpl.
      replace (visited ++ x :: l) with ((visited ++ [x]) ++ l)
        by by rewrite <- app_assoc.
      apply IH; [done|]. intros pre y post acc'' w'' Heq. apply (Hbody _ _ post).
      by rewrite <- Heq, <- app_assoc.
Qed.

Lemma returns_for_each_simple {A B} (I : B → World → Prop) (l : list A)
    (body : B → A → M B) acc w :
  I acc w →
  (∀ x acc w, x ∈ l → I acc w → returns (body acc x) w I) →
  returns (for_each l body acc) w I.
Proof.
  intros HI Hbody.
  apply (returns_for_each (λ _, I) body l [] acc w HI).
  intros pre x post acc' w' Heq. apply Hbody. simpl in Heq. rewrite Heq.
  apply elem_of_app. right. by left.
Qed.
End monad_facts.

(** * Dictionaries *)

Section dict_facts.
Context {V : Type}.
Implicit Types (d : list (string * V)).

Lemma dict_get_Some d k v : dict_get d k = Some v → (k, v) ∈ d.
Proof.
  induction d as [|[k' v'] d IH]; simpl; [done|].
  destruct (decide (k = k')) as [->|Hne].
  - intros [= ->]. by left.
  - intros Hd. right. by apply IH.
Qed.

Lemma dict_get_key d k : k ∈ dict_keys d → ∃ v, dict_get d k = Some v.
Proof.
  unfold dict_keys. induction d as [|[k' v'] d IH]; simpl.
  - by intros ?%elem_of_nil.
  - destruct (decide (k = k')) as [->|Hne]; [by eauto|].
    intros [?|?]%elem_of_cons; [done|]. by apply IH.
Qed.

Lemma dict_get_elem d k v : NoDup d.*1 → (k, v) ∈ d → dict_get d k = Some v.
Proof.
  induction d as [|[k' v'] d IH]; simpl.
  - by intros _ ?%elem_of_nil.
  - intros [Hk' Hnd]%NoDup_cons [[= -> ->]|Hin]%elem_of_cons.
    + by rewrite decide_True.
    + rewrite decide_False; [by apply IH|]. intros ->. apply Hk'.
      by apply (list_elem_of_fmap_2 fst _ (k', v)).
Qed.

Lemma dict_set_same d k v : dict_get d k = Some v → dict_set d k v = d.
Proof.
  induction d as [|[k' v'] d IH]; simpl; [done|].
  destruct (decide (k = k')) as [->|Hne].
  - by intros [= ->].
  - intros Hd. by rewrite IH.
Qed.

Lemma dict_set_fresh d k v : k ∉ d.*1 → dict_set d k v = d ++ [(k, v)].
Proof.
  induction d as [|[k' v'] d IH]; simpl; [done|].
  intros [Hne Hk]%not_elem_of_cons. rewrite decide_False by done. by rewrite IH.
Qed.
End dict_facts.

Lemma NoDup_snd_key {K V} (d : list (K * V)) k k' v :
  NoDup d.*2 → (k, v) ∈ d → (k', v) ∈ d → k = k'.
Proof.
  induction d as [|[k0 v0] d IH]; simpl.
  - by intros _ ?%elem_of_nil.
  - intros [Hv0 Hnd]%NoDup_cons Hin Hin'.
    apply elem_of_cons in Hin as [Heq|Hin], Hin' as [Heq'|Hin'].
    + congruence.
    + injection Heq as -> ->. destruct Hv0.
      by apply (list_elem_of_fmap_2 snd _ (k', v0)).
    + injection Heq' as -> ->. destruct Hv0.
      by apply (list_elem_of_fmap_2 snd _ (k, v0)).
    + by apply IH.
Qed.

Lemma combinations2_elem {A} (l : list A) x y :
  (x, y) ∈ combinations2 l → x ∈ l ∧ y ∈ l.
Proof.
  induction l as [|z l IH]; simpl.
  - by intros ?%elem_of_nil.
  - intros [Hin|Hin]%elem_of_app.
    + apply list_elem_of_fmap in Hin as (y' & [= -> ->] & Hy). split; [by left|by right].
    + destruct (IH Hin). split; by right.
Qed.

(** * Steps of the trading phases *)

Section purse_facts.
Implicit Types (h : gmap loc Person.state) (w : World).

Lemma same_purse_refl h : same_purse h h.
Proof. intros l p Hl. by exists p. Qed.

Lemma same_purse_trans h1 h2 h3 :
  same_purse h1 h2 → same_purse h2 h3 → same_purse h1 h3.
Proof.
  intros H12 H23 l p Hl.
  destruct (H12 l p Hl) as (p2 & Hl2 & Hm2 & Hn2 & Hf2).
  destruct (H23 l p2 Hl2) as (p3 & Hl3 & Hm3 & Hn3 & Hf3).
  exists p3. split; [done|]. split; [congruence|]. split; [congruence|auto].
Qed.

Lemma same_purse_insert h l p p' :
  h !! l = Some p →
  Person.money_spent p' = Person.money_spent p →
  Person.n_stickers p' = Person.n_stickers p →
  (Person.is_finished p = true → Person.is_finished p' = true) →
  same_purse h (<[l := p']> h).
Proof.
  intros Hl Hm Hn Hf l' q Hl'. destruct (decide (l' = l)) as [->|Hne].
  - rewrite lookup_insert_eq. exists p'. split; [done|].
    rewrite Hl in Hl'. injection Hl' as <-. done.
  - rewrite lookup_insert_ne by done. by exists q.
Qed.

Lemma same_purse_unfinished h h' l p p' :
  same_purse h h' → h !! l = Some p → h' !! l = Some p' →
  Person.is_finished p' = false → Person.is_finished p = false.
Proof.
  intros Hp Hl Hl' Hf. destruct (Hp l p Hl) as (q & Hq & _ & _ & Hmono).
  rewrite Hl' in Hq. injection Hq as <-.
  destruct (Person.is_finished p); [|done]. rewrite Hmono in Hf; done.
Qed.

Lemma same_purse_alloc h l p' : h !! l = None → same_purse h (<[l := p']> h).
Proof.
  intros Hl l' q Hl'. rewrite lookup_insert_ne by congruence. by exists q.
Qed.

Lemma same_purse_None h h' l : same_purse h h' → h' !! l = None → h !! l = None.
Proof.
  intros Hp Hl. destruct (h !! l) as [p|] eqn:Hhl; [|done].
  destruct (Hp l p Hhl) as (p' & Hl' & _). congruence.
Qed.

Lemma trading_step_refl n w : trading_step n w [] w.
Proof.
  split; [apply same_purse_refl|]. split; [by rewrite app_nil_r|].
  split; [by intros l ?%elem_of_nil|done].
Qed.

Lemma trading_step_trans n w1 w2 w3 tr tr' :
  trading_step n w1 tr w2 → trading_step n w2 tr' w3 →
  trading_step n w1 (tr ++ tr') w3.
Proof.
  intros (Hp & Ht & Hb & Hty) (Hp' & Ht' & Hb' & Hty').
  split; [by eapply same_purse_trans|].
  split; [by rewrite Ht', Ht, app_assoc|]. split; [|auto].
  intros l [Hl|Hl]%elem_of_app; [by apply Hb|].
  eapply same_purse_None; [exact Hp|by apply Hb'].
Qed.

Lemma trading_step_alive n w tr w' l :
  trading_step n w tr w' → is_Some (heap w !! l) → is_Some (heap w' !! l).
Proof. intros (Hp & _) [p Hl]. destruct (Hp l p Hl) as (p' & -> & _). by eexists. Qed.

Lemma trading_step_quiet n w h' g :
  same_purse (heap w) h' → (typed_heap n (heap w) → typed_heap n h') →
  trading_step n w [] (mkWorld h' g (trace w) (stdout w)).
Proof.
  intros Hp Hty. split; [done|]. split; [by rewrite app_nil_r|].
  split; [by intros l ?%elem_of_nil|done].
Qed.

Lemma same_config_refl self : same_config self self.
Proof. by repeat split. Qed.

Lemma same_config_trans s1 s2 s3 :
  same_config s1 s2 → same_config s2 s3 → same_config s1 s3.
Proof.
  intros (? & ? & ? & ? & ?) (? & ? & ? & ? & ?). repeat split; congruence.
Qed.

Lemma traded_in_app_l tr tr' l : traded_in tr l → traded_in (tr ++ tr') l.
Proof.
  intros (o & f1 & f2 & [H|H]); exists o, f1, f2; [left|right];
    apply elem_of_app; by left.
Qed.

Lemma settle_same_purse a b pa pb h :
  h !! a = Some pa → h !! b = Some pb → same_purse h (settle a b pa pb h).
Proof.
  intros Ha Hb. unfold settle. simpl.
  eapply same_purse_trans.
  - apply (same_purse_insert h a pa); [done| | |].
    + apply update_collection_money.
    + apply update_collection_n_stickers.
    + intros Hf. by rewrite update_collection_flag, Hf.
  - destruct (decide (a = b)) as [->|Hne].
    + rewrite lookup_insert_eq; simpl.
      eapply same_purse_insert; [apply lookup_insert_eq| | |].
      * apply update_collection_money.
      * apply update_collection_n_stickers.
      * intros Hf. by rewrite update_collection_flag, Hf.
    + rewrite lookup_insert_ne by done. rewrite Hb; simpl.
      eapply same_purse_insert; [by rewrite lookup_insert_ne| | |].
      * apply update_collection_money.
      * apply update_collection_n_stickers.
      * intros Hf. by rewrite update_collection_flag, Hf.
Qed.
End purse_facts.

Section typed_facts.
Import Economy Person.
Implicit Types (n : Z) (p : Person.state) (h : gmap loc Person.state).

Lemma full_album_has n (A : gset Z) s :
  sticker_ids n A → Z.of_nat (size A) = n → 0 ≤ s < n → s ∈ A.
Proof.
  intros HA Hfull Hs.
  assert (A ∪ {[s]} = A) as Heq.
  { apply (full_album_absorbs n); [done| |done].
    intros s' ->%elem_of_singleton. done. }
  rewrite <- Heq. set_solver.
Qed.

Lemma typed_fresh_state n : typed_person n (fresh_state n).
Proof.
  split; [done|]. split; [by intros s ?%not_elem_of_empty|].
  split; [|done]. intros s Hs%elem_of_can_give. unfold getitem in Hs. simpl in Hs.
  rewrite lookup_empty in Hs. simpl in Hs. lia.
Qed.

Lemma typed_grow n p q (X : gset Z) :
  typed_person n p → sticker_ids n X →
  album q = album p ∪ X → n_stickers q = n_stickers p →
  (∀ k, k ∈ can_give q → k ∈ can_give p ∨ k ∈ X) →
  is_finished q
  = is_finished p || bool_decide (Z.of_nat (size (album q)) = n_stickers q) →
  typed_person n q.
Proof.
  intros (Hn & Ha & Hg & Hf) HX Hqa Hqn Hqg Hqf.
  split; [congruence|]. split; [|split].
  - rewrite Hqa. intros s [?|?]%elem_of_union; auto.
  - intros s Hs. destruct (Hqg s Hs); auto.
  - rewrite Hqf. destruct (is_finished p); simpl.
    + intros _. rewrite Hqa. rewrite (full_album_absorbs n); auto.
    + rewrite bool_decide_eq_true. congruence.
Qed.

Lemma typed_finished n p : typed_person n p → typed_person n (finished p).
Proof.
  intros Hp. destruct (finished_fields p) as (Ha & Hr & _ & Hn).
  apply (typed_grow n p _ ∅); try done.
  - rewrite Ha. set_solver.
  - intros k. unfold can_give. rewrite Hr. auto.
  - by rewrite finished_flag, Ha, Hn.
Qed.

Lemma typed_update_collection n giving receiving p :
  typed_person n p → sticker_ids n receiving →
  typed_person n (update_collection giving receiving p).
Proof.
  intros Hp Hrec. apply (typed_grow n p _ receiving); try done.
  - apply update_collection_album.
  - apply update_collection_n_stickers.
  - intros k Hk%elem_of_can_give. left. apply elem_of_can_give.
    rewrite update_collection_getitem in Hk. case_decide; lia.
  - by rewrite update_collection_flag, update_collection_album,
      update_collection_n_stickers.
Qed.

Lemma can_give_add_sticker p s k :
  k ∈ can_give (add_sticker p s) → k ∈ can_give p ∨ k = s.
Proof.
  unfold add_sticker. destruct (decide (s ∉ album p)); [by left|].
  intros Hk%elem_of_can_give. simpl in Hk.
  destruct (decide (k = s)) as [->|Hne]; [by right|left].
  apply elem_of_can_give. unfold getitem in *.
  by rewrite lookup_insert_ne in Hk.
Qed.

Lemma can_give_fold_add_sticker new_pack p k :
  k ∈ can_give (foldl add_sticker p new_pack) → k ∈ can_give p ∨ k ∈ new_pack.
Proof.
  revert p. induction new_pack as [|s l IH]; intros p; simpl; [by left|].
  intros [Hk|Hk]%IH; [|right; by right].
  destruct (can_give_add_sticker p s k Hk) as [?| ->]; [by left|right; by left].
Qed.

Lemma typed_after_buy_pack n k p g :
  typed_person n p → typed_person n (after_buy_pack k p g).
Proof.
  intros Hp. unfold after_buy_pack.
  destruct (buy_pack_cases k p g) as [(e & g' & ->)|(Hk & Hn & ->)]; simpl.
  { done. }
  set (l := sample _ _ _). set (p1 := set_money_spent _ _).
  destruct (finished_fields (foldl add_sticker p1 l)) as (Ha & Hr & _ & Hns).
  destruct (fold_add_sticker l p1) as (Ha' & Hf' & _ & Hns').
  pose proof Hp as (Hpn & _).
  apply (typed_grow n p _ (list_to_set l)); try done.
  - intros s Hs%elem_of_list_to_set. rewrite <- Hpn. destruct Hn as [Hn| ->].
    + by eapply sample_in_range.
    + by apply elem_of_nil in Hs.
  - by rewrite Ha, Ha'.
  - by rewrite Hns, Hns'.
  - intros s. unfold can_give at 1. rewrite Hr. fold (can_give (foldl add_sticker p1 l)).
    intros [Hs|Hs]%can_give_fold_add_sticker; [by left|right].
    by apply elem_of_list_to_set.
  - by rewrite finished_flag, Hf', Ha, Hns.
Qed.

(** A finished collector of a typed pair can receive nothing. *)
Lemma finished_cannot_receive n p other :
  typed_person n p → typed_person n other → is_finished p = true →
  can_receive p other = ∅.
Proof.
  intros (_ & Ha & _ & Hf) (_ & _ & Hg & _) Hfin. apply set_eq. intros s.
  rewrite elem_of_empty. split; [|done]. unfold can_receive.
  rewrite elem_of_difference. intros [Hs Hnot]. apply Hnot.
  apply (full_album_has n); auto.
Qed.

Lemma typed_heap_insert n h l p :
  typed_heap n h → typed_person n p → typed_heap n (<[l := p]> h).
Proof.
  intros Hh Hp l' q. destruct (decide (l' = l)) as [->|Hne].
  - rewrite lookup_insert_eq. by intros [= <-].
  - rewrite lookup_insert_ne by done. apply Hh.
Qed.

Lemma can_receive_ids n p other :
  typed_person n other → sticker_ids n (can_receive p other).
Proof.
  intros (_ & _ & Hg & _) s. unfold can_receive. rewrite elem_of_difference.
  intros [Hs _]. by apply Hg.
Qed.

Lemma settle_typed n a b pa pb h :
  typed_heap n h → h !! a = Some pa → h !! b = Some pb →
  typed_heap n (settle a b pa pb h).
Proof.
  intros Hh Ha Hb. pose proof (Hh a pa Ha) as Hpa. pose proof (Hh b pb Hb) as Hpb.
  unfold settle. simpl.
  assert (typed_person n
            (update_collection (can_receive pb pa) (can_receive pa pb) pa)) as Hpa'.
  { apply typed_update_collection; [done|]. by apply (can_receive_ids n pa pb). }
  apply typed_heap_insert; [by apply typed_heap_insert|].
  apply typed_update_collection; [|by apply (can_receive_ids n pb pa)].
  destruct (decide (a = b)) as [->|Hne].
  - by rewrite lookup_insert_eq.
  - rewrite lookup_insert_ne by done. by rewrite Hb.
Qed.
End typed_facts.

Section method_specs.
Import Economy.
Implicit Types (w : World) (self : Economy.state) (n : Z).

Lemma call_finished_spec n l w :
  is_Some (heap w !! l) →
  returns (call_finished l) w (λ _ w', trading_step n w [] w').
Proof.
  intros [p Hl]. eapply returns_eq.
  - unfold call_finished, bind, deref, store. rewrite Hl. done.
  - apply trading_step_quiet.
    + eapply same_purse_insert; [done| | |].
      * by destruct (finished_fields p) as (_ & _ & ? & ?).
      * by destruct (finished_fields p) as (_ & _ & ? & ?).
      * intros Hf. by rewrite finished_flag, Hf.
    + intros Hty. apply typed_heap_insert; [done|].
      apply typed_finished. by apply (Hty l).
Qed.

Lemma call_trade_spec n a b w pa pb :
  heap w !! a = Some pa → heap w !! b = Some pb →
  returns (call_trade a b) w
    (λ r w', ∃ traded,
       r = (traded, a, b) ∧
       trading_step n w
         [Trade a b (Person.is_finished pa) (Person.is_finished pb) traded] w' ∧
       (typed_heap n (heap w) → traded = true →
        Person.is_finished pa = false ∧ Person.is_finished pb = false)).
Proof.
  intros Ha Hb. unfold returns, call_trade, bind, deref. rewrite Ha, Hb.
  rewrite (trade_unfold w a b pa pb Ha Hb).
  destruct (decide (can_receive pa pb ≠ ∅ ∧ can_receive pb pa ≠ ∅))
    as [[H1 H2]|Hno]; simpl.
  - eexists _, _. split; [done|]. exists true. split; [done|]. split.
    + split; [by apply settle_same_purse|]. split; [done|]. split.
      * intros l Hl. apply list_elem_of_singleton in Hl. done.
      * intros Hty. by apply settle_typed.
    + intros Hty _. pose proof (Hty a pa Ha) as Hpa. pose proof (Hty b pb Hb) as Hpb.
      split.
      * destruct (Person.is_finished pa) eqn:Hf; [|done].
        destruct H1. by apply (finished_cannot_receive n).
      * destruct (Person.is_finished pb) eqn:Hf; [|done].
        destruct H2. by apply (finished_cannot_receive n).
  - eexists _, _. split; [done|]. exists false. split; [done|]. split; [|done].
    split; [apply same_purse_refl|]. split; [done|]. split; [|done].
    intros l Hl. apply list_elem_of_singleton in Hl. done.
Qed.

Lemma call_buy_pack_spec l k w p :
  heap w !! l = Some p → 0 ≤ k → (0 < Person.n_stickers p ∨ k = 0) →
  returns (call_buy_pack l k) w
    (λ _ w', ∃ p', heap w' = <[l := p']> (heap w) ∧
                   Person.money_spent p' = Person.money_spent p + 1 ∧
                   Person.n_stickers p' = Person.n_stickers p ∧
                   (Person.is_finished p = true → Person.is_finished p' = true) ∧
                   (∀ n, typed_person n p → typed_person n p') ∧
                   trace w' = trace w ++ [BuyPack l]).
Proof.
  intros Hl Hk Hn. unfold returns, call_buy_pack, bind, emit, deref.
  cbn [heap rng trace stdout]. rewrite Hl. cbn [heap rng trace stdout].
  destruct (buy_pack_cases k p (rng w)) as [(e & g' & Heq)|(_ & _ & Heq)].
  - exfalso. unfold Person.buy_pack in Heq.
    rewrite (choice_ok _ _ _ Hk Hn) in Heq. done.
  - rewrite Heq. eexists _, _. split; [done|]. simpl.
    eexists. split; [done|].
    pose proof (after_buy_pack_fields k p (rng w)) as (_ & Hm & Hns & Hf & _).
    pose proof (λ n, typed_after_buy_pack n k p (rng w)) as Hty.
    unfold Person.after_buy_pack in Hm, Hns, Hf, Hty.
    rewrite Heq in Hm, Hns, Hf, Hty. done.
Qed.

Lemma new_Person_spec endowment n w :
  0 ≤ endowment → (0 < n ∨ endowment = 0) →
  returns (new_Person endowment n) w
    (λ l w', is_Some (heap w' !! l) ∧ trading_step n w [BuyPack l] w').
Proof.
  intros He Hn. unfold new_Person. apply returns_bind.
  eapply returns_eq; [done|]. apply returns_bind. simpl.
  set (l := fresh (dom (heap w))).
  assert (heap w !! l = None) as Hfresh.
  { apply not_elem_of_dom. apply is_fresh. }
  eapply returns_mono.
  { eapply (call_buy_pack_spec l endowment); [apply lookup_insert_eq|done|done]. }
  intros _ w' (p' & Hh & _ & _ & _ & Hty & Ht). simpl in *. apply returns_ret.
  rewrite Hh, insert_insert_eq in *. split; [by rewrite lookup_insert_eq|].
  split; [|split; [|split]].
  - rewrite Hh. by apply same_purse_alloc.
  - done.
  - intros l' Hl'. apply list_elem_of_singleton in Hl'. by injection Hl' as ->.
  - intros Hheap. rewrite Hh. apply typed_heap_insert; [done|].
    apply Hty, typed_fresh_state.
Qed.

Lemma update_member_spec self person_id person w :
  is_Some (heap w !! person) →
  dict_get (members self) person_id = Some person →
  returns (update_member self person_id person) w
    (λ self' w', w' = w ∧ same_config self self').
Proof.
  intros [p Hl] Hd. eapply returns_eq.
  - unfold update_member, bind, deref. rewrite Hl. done.
  - split; [done|]. destruct (Person.is_finished p); simpl;
      rewrite (dict_set_same _ _ _ Hd); by repeat split.
Qed.

Lemma members_getitem_spec self person_id person w (Q : loc → World → Prop) :
  dict_get (members self) person_id = Some person →
  Q person w → returns (members_getitem self person_id) w Q.
Proof.
  intros Hd HQ. eapply returns_eq; [|done]. unfold members_getitem. by rewrite Hd.
Qed.

Lemma deref_spec l p w (Q : Person.state → World → Prop) :
  heap w !! l = Some p → Q p w → returns (deref l) w Q.
Proof.
  intros Hl HQ. eapply returns_eq; [|done]. unfold deref. by rewrite Hl.
Qed.
End method_specs.

(** * The trading phases keep their invariant *)

Section trading_phases.
Import Economy.
Variables (self0 : Economy.state) (w0 : World).
Hypothesis wf0 : wf_economy self0 w0.

Lemma member_alive tr w id l :
  trading_step (n_stickers self0) w0 tr w → dict_get (members self0) id = Some l →
  ∃ p, heap w !! l = Some p ∧ Person.n_stickers p = n_stickers self0.
Proof.
  intros (Hp & _) Hd%dict_get_Some.
  destruct wf0 as (_ & _ & Hobj). destruct (Hobj id l Hd) as (p0 & Hl0 & Hn0).
  destruct (Hp l p0 Hl0) as (p & Hl & _ & Hn & _). exists p. split; [done|].
  congruence.
Qed.

Lemma unfinished_at_start tr w l p :
  trading_step (n_stickers self0) w0 tr w → heap w !! l = Some p → Person.is_finished p = false →
  unfinished_at w0 l.
Proof.
  intros (Hp & _) Hl Hf p0 Hl0. by eapply same_purse_unfinished.
Qed.

Lemma fresh_not_at_start tr w l :
  trading_step (n_stickers self0) w0 tr w → heap w !! l = None → heap w0 !! l = None.
Proof. intros (Hp & _) Hl. by apply (same_purse_None _ _ _ Hp). Qed.

Lemma fresh_not_member tr w l :
  trading_step (n_stickers self0) w0 tr w → heap w !! l = None → ¬ member_loc self0 l.
Proof.
  intros Hstep Hl%(fresh_not_at_start tr w l Hstep).
  intros ([id l'] & -> & Hin)%list_elem_of_fmap. simpl in Hl.
  destruct wf0 as (_ & _ & Hobj). destruct (Hobj id l' Hin) as (p & Hp & _).
  congruence.
Qed.

Lemma member_key id id' l :
  dict_get (members self0) id = Some l → (id', l) ∈ members self0 → id' = id.
Proof.
  intros Hd%dict_get_Some Hin. destruct wf0 as (_ & Hlocs & _).
  by eapply NoDup_snd_key.
Qed.

Lemma trading_inv_start : trading_inv self0 w0 (self0, ∅) w0.
Proof.
  exists []. split; [apply same_config_refl|]. split; [apply trading_step_refl|].
  split; [by intros a b f1 f2 t ?%elem_of_nil|]. intros id Hid. set_solver.
Qed.

(** The clause of the invariant about the events, for a trace extended by
    one call of [trade]. *)
Lemma events_clause_snoc tr pre a b pa pb traded (ht ht' : gset string) :
  (∀ a b f1 f2 t, Trade a b f1 f2 t ∈ tr →
     unfinished_at w0 a ∧ unfinished_at w0 b ∧
     (member_loc self0 a → member_loc self0 b → f1 = false ∧ f2 = false) ∧
     (typed_heap (n_stickers self0) (heap w0) → t = true → f1 = false ∧ f2 = false) ∧
     (t = true → ∀ id l, (id, l) ∈ members self0 → l = a ∨ l = b → id ∈ ht)) →
  ht ⊆ ht' →
  (∀ e, e ∈ pre → ∃ l, e = BuyPack l) →
  unfinished_at w0 a → unfinished_at w0 b →
  (member_loc self0 a → member_loc self0 b →
   Person.is_finished pa = false ∧ Person.is_finished pb = false) →
  (typed_heap (n_stickers self0) (heap w0) → traded = true →
   Person.is_finished pa = false ∧ Person.is_finished pb = false) →
  (traded = true → ∀ id l, (id, l) ∈ members self0 → l = a ∨ l = b → id ∈ ht') →
  ∀ a' b' f1 f2 t,
    Trade a' b' f1 f2 t
      ∈ tr ++ pre ++ [Trade a b (Person.is_finished pa) (Person.is_finished pb) traded] →
    unfinished_at w0 a' ∧ unfinished_at w0 b' ∧
    (member_loc self0 a' → member_loc self0 b' → f1 = false ∧ f2 = false) ∧
    (typed_heap (n_stickers self0) (heap w0) → t = true → f1 = false ∧ f2 = false) ∧
    (t = true → ∀ id l, (id, l) ∈ members self0 → l = a' ∨ l = b' → id ∈ ht').
Proof.
  intros Hev Hsub Hpre Ha Hb Hmem Hty Hht a' b' f1 f2 t Hin.
  apply elem_of_app in Hin as [Hin|Hin].
  - destruct (Hev _ _ _ _ _ Hin) as (? & ? & ? & ? & Hold).
    repeat (split; [done|]). intros Ht id l Hid Hl. apply Hsub. by eapply Hold.
  - apply elem_of_app in Hin as [Hin|Hin%list_elem_of_singleton].
    + by destruct (Hpre _ Hin).
    + injection Hin as -> -> -> -> ->. done.
Qed.

Lemma trade_with_friends_inv acc ids w :
  ids.1 ∈ dict_keys (members self0) → ids.2 ∈ dict_keys (members self0) →
  trading_inv self0 w0 acc w →
  returns (trade_with_friends acc ids) w (trading_inv self0 w0).
Proof.
  destruct acc as [self ht], ids as [id1 id2]. simpl.
  intros [l1 Hd1]%dict_get_key [l2 Hd2]%dict_get_key
    (tr & Hcfg & Hstep & Hev & Hht).
  simpl in Hcfg, Hht, Hev. pose proof Hcfg as (Hmem & _).
  destruct (member_alive tr w id1 l1 Hstep Hd1) as (p1 & Hl1 & _).
  destruct (member_alive tr w id2 l2 Hstep Hd2) as (p2 & Hl2 & _).
  apply returns_bind. eapply members_getitem_spec; [by rewrite Hmem|].
  apply returns_bind. eapply members_getitem_spec; [by rewrite Hmem|].
  apply returns_bind. eapply deref_spec; [done|].
  apply returns_bind. eapply deref_spec; [done|].
  destruct (Person.is_finished p1 || Person.is_finished p2) eqn:Hfin.
  { apply returns_ret. by exists tr. }
  apply orb_false_elim in Hfin as [Hf1 Hf2].
  apply returns_bind. eapply returns_mono; [by apply (call_trade_spec (n_stickers self0))|].
  intros r w1 (traded & -> & Hs1 & Hty1).
  pose proof (trading_step_trans _ _ _ _ _ _ Hstep Hs1) as Hstep1.
  assert (∀ ht' : gset string,
            ht ⊆ ht' →
            (traded = true → id1 ∈ ht' ∧ id2 ∈ ht') →
            ∀ a' b' f1 f2 t,
              Trade a' b' f1 f2 t
                ∈ tr ++ [Trade l1 l2 (Person.is_finished p1)
                               (Person.is_finished p2) traded] →
              unfinished_at w0 a' ∧ unfinished_at w0 b' ∧
              (member_loc self0 a' → member_loc self0 b' →
               f1 = false ∧ f2 = false) ∧
              (typed_heap (n_stickers self0) (heap w0) → t = true → f1 = false ∧ f2 = false) ∧
              (t = true → ∀ id l, (id, l) ∈ members self0 →
                                  l = a' ∨ l = b' → id ∈ ht')) as Hev'.
  { intros ht' Hsub Hin.
    apply (events_clause_snoc tr [] l1 l2 p1 p2 traded ht ht'); try done.
    - by intros e ?%elem_of_nil.
    - exact (unfinished_at_start tr w l1 p1 Hstep Hl1 Hf1).
    - exact (unfinished_at_start tr w l2 p2 Hstep Hl2 Hf2).
    - intros Ht id l Hid [-> | ->].
      + rewrite (member_key id1 id l1); [by apply Hin|done|done].
      + rewrite (member_key id2 id l2); [by apply Hin|done|done]. }
  destruct traded.
  - apply returns_bind. eapply returns_mono.
    { apply (call_finished_spec (n_stickers self0)). eapply trading_step_alive; [exact Hs1|done]. }
    intros [] w2 Hs2. cbn beta.
    apply returns_bind. eapply returns_mono.
    { apply (call_finished_spec (n_stickers self0)).
      eapply trading_step_alive; [exact Hs2|].
      eapply trading_step_alive; [exact Hs1|done]. }
    intros [] w3 Hs3. cbn beta.
    pose proof (trading_step_trans _ _ _ _ _ _ Hstep1
                  (trading_step_trans _ _ _ _ _ _ Hs2 Hs3)) as Hs13.
    rewrite !app_nil_r in Hs13.
    apply returns_bind. eapply returns_mono.
    { apply update_member_spec; [|by rewrite Hmem].
      eapply trading_step_alive; [exact Hs13|].
      destruct wf0 as (_ & _ & Hobj).
      destruct (Hobj id1 l1 (dict_get_Some _ _ _ Hd1)) as (? & -> & _). by eexists. }
    intros self1 ? (-> & Hcfg1). cbn beta.
    apply returns_bind. eapply returns_mono.
    { apply update_member_spec; [|by destruct Hcfg1 as (-> & _); rewrite Hmem].
      eapply trading_step_alive; [exact Hs13|].
      destruct wf0 as (_ & _ & Hobj).
      destruct (Hobj id2 l2 (dict_get_Some _ _ _ Hd2)) as (? & -> & _). by eexists. }
    intros self2 ? (-> & Hcfg2). cbn beta.
    apply returns_ret.
    exists (tr ++ [Trade l1 l2 (Person.is_finished p1) (Person.is_finished p2) true]).
    simpl. split; [eauto using same_config_trans|]. split; [done|].
    split; [apply Hev'; set_solver|].
    intros id [Hid|[Hid|Hid]%elem_of_union]%elem_of_union.
    + apply elem_of_singleton in Hid as ->. exists l2. split; [done|].
      exists l1, (Person.is_finished p1), (Person.is_finished p2).
      right. apply elem_of_app. right. by left.
    + apply elem_of_singleton in Hid as ->. exists l1. split; [done|].
      exists l2, (Person.is_finished p1), (Person.is_finished p2).
      left. apply elem_of_app. right. by left.
    + destruct (Hht id Hid) as (l & Hd & Htr). exists l. split; [done|].
      by apply traded_in_app_l.
  - apply returns_ret.
    exists (tr ++ [Trade l1 l2 (Person.is_finished p1) (Person.is_finished p2) false]).
    simpl. split; [done|]. split; [done|]. split; [by apply Hev'|].
    intros id Hid. destruct (Hht id Hid) as (l & Hd & Htr). exists l.
    split; [done|]. by apply traded_in_app_l.
Qed.

Variable rando_endowment : Z.
Hypothesis endowment_nonneg : 0 ≤ rando_endowment.
Hypothesis album_positive : 0 < n_stickers self0.

Lemma trade_with_rando_inv person_id person acc i w :
  dict_get (members self0) person_id = Some person →
  unfinished_at w0 person →
  trading_inv self0 w0 acc w →
  returns (trade_with_rando rando_endowment person_id person acc i) w
    (trading_inv self0 w0).
Proof.
  destruct acc as [self ht]. intros Hd Hunf (tr & Hcfg & Hstep & Hev & Hht).
  simpl in Hcfg, Hht, Hev. pose proof Hcfg as (Hmem & Hns & _).
  destruct (member_alive tr w person_id person Hstep Hd) as (p & Hl & _).
  unfold trade_with_rando.
  apply returns_bind. eapply returns_mono.
  { apply new_Person_spec; [done|]. left. by rewrite Hns. }
  intros rando w1 ([q Hrando] & Hs1). cbn beta. rewrite Hns in Hs1.
  pose proof (trading_step_trans _ _ _ _ _ _ Hstep Hs1) as Hstep1.
  assert (heap w !! rando = None) as Hfresh.
  { destruct Hs1 as (_ & _ & Hfresh & _). apply Hfresh. by left. }
  destruct (trading_step_alive _ _ _ _ person Hs1) as [p' Hl']; [by eexists|].
  apply returns_bind. eapply returns_mono; [by apply (call_trade_spec (n_stickers self0))|].
  intros r w2 (traded & -> & Hs2 & Hty2).
  pose proof (trading_step_trans _ _ _ _ _ _ Hstep1 Hs2) as Hstep2.
  rewrite <- app_assoc in Hstep2. simpl in Hstep2.
  assert (∀ ht' : gset string,
            ht ⊆ ht' →
            (traded = true → person_id ∈ ht') →
            ∀ a' b' f1 f2 t,
              Trade a' b' f1 f2 t
                ∈ tr ++ [BuyPack rando;
                         Trade person rando (Person.is_finished p')
                               (Person.is_finished q) traded] →
              unfinished_at w0 a' ∧ unfinished_at w0 b' ∧
              (member_loc self0 a' → member_loc self0 b' →
               f1 = false ∧ f2 = false) ∧
              (typed_heap (n_stickers self0) (heap w0) → t = true → f1 = false ∧ f2 = false) ∧
              (t = true → ∀ id l, (id, l) ∈ members self0 →
                                  l = a' ∨ l = b' → id ∈ ht')) as Hev'.
  { intros ht' Hsub Hin.
    apply (events_clause_snoc tr [BuyPack rando] person rando p' q traded
             ht ht'); try done.
    - intros e ?%list_elem_of_singleton. by eexists.
    - intros p0 Hp0. rewrite (fresh_not_at_start tr w rando Hstep Hfresh) in Hp0.
      done.
    - intros _ Hrm. by destruct (fresh_not_member tr w rando Hstep Hfresh).
    - intros Hty0. apply Hty2. destruct Hstep1 as (_ & _ & _ & Hty). by apply Hty.
    - intros Ht id l Hid [-> | ->].
      + rewrite (member_key person_id id person); [by apply Hin|done|done].
      + destruct (fresh_not_member tr w rando Hstep Hfresh).
        by apply (list_elem_of_fmap_2 snd _ (id, rando)). }
  destruct traded.
  - apply returns_bind. eapply returns_mono.
    { apply (call_finished_spec (n_stickers self0)).
      eapply trading_step_alive; [exact Hs2|by eexists]. }
    intros [] w3 Hs3. cbn beta.
    pose proof (trading_step_trans _ _ _ _ _ _ Hstep2 Hs3) as Hs13.
    rewrite app_nil_r in Hs13.
    apply returns_bind. eapply returns_mono.
    { apply update_member_spec; [|by rewrite Hmem].
      eapply trading_step_alive; [exact Hs3|].
      eapply trading_step_alive; [exact Hs2|by eexists]. }
    intros self1 ? (-> & Hcfg1). cbn beta.
    apply returns_ret.
    exists (tr ++ [BuyPack rando;
                   Trade person rando (Person.is_finished p')
                         (Person.is_finished q) true]).
    simpl. split; [eauto using same_config_trans|]. split; [done|].
    split; [apply Hev'; set_solver|].
    intros id [Hid|Hid]%elem_of_union.
    + apply elem_of_singleton in Hid as ->. exists person. split; [done|].
      exists rando, (Person.is_finished p'), (Person.is_finished q).
      left. apply elem_of_app. right. right. by left.
    + destruct (Hht id Hid) as (l & Hd' & Htr). exists l. split; [done|].
      by apply traded_in_app_l.
  - apply returns_ret.
    exists (tr ++ [BuyPack rando;
                   Trade person rando (Person.is_finished p')
                         (Person.is_finished q) false]).
    simpl. split; [done|]. split; [done|]. split; [by apply Hev'|].
    intros id Hid. destruct (Hht id Hid) as (l & Hd' & Htr). exists l.
    split; [done|]. by apply traded_in_app_l.
Qed.

Lemma trade_with_randos_inv acc person_id w :
  person_id ∈ dict_keys (members self0) →
  trading_inv self0 w0 acc w →
  returns (trade_with_randos rando_endowment acc person_id) w
    (trading_inv self0 w0).
Proof.
  destruct acc as [self ht]. intros [person Hd]%dict_get_key Hinv.
  pose proof Hinv as (tr & Hcfg & Hstep & Hev & Hht).
  simpl in Hcfg, Hht. pose proof Hcfg as (Hmem & _).
  destruct (member_alive tr w person_id person Hstep Hd) as (p & Hl & _).
  unfold trade_with_randos.
  apply returns_bind. eapply members_getitem_spec; [by rewrite Hmem|].
  apply returns_bind. eapply deref_spec; [done|].
  destruct (Person.is_finished p) eqn:Hfin; [by apply returns_ret|].
  apply returns_for_each_simple; [done|].
  intros i acc' w' _ Hinv'. apply trade_with_rando_inv; [done| |done].
  exact (unfinished_at_start tr w person p Hstep Hl Hfin).
Qed.

Lemma trading_phases_inv :
  returns (trading_phases self0 rando_endowment) w0 (trading_inv self0 w0).
Proof.
  unfold trading_phases. apply returns_bind. eapply returns_mono.
  - apply (returns_for_each_simple (trading_inv self0 w0)).
    + apply trading_inv_start.
    + intros [id1 id2] acc w [H1 H2]%combinations2_elem Hinv.
      by apply trade_with_friends_inv.
  - intros acc w Hinv. cbn beta.
    pose proof Hinv as (tr & (Hmem & _) & _).
    apply returns_for_each_simple; [done|].
    intros id acc' w' Hid Hinv'. apply trade_with_randos_inv; [|done].
    by rewrite <- Hmem.
Qed.
End trading_phases.

(** * The purchase phase *)

Section buying_phase.
Import Economy.
Variables (self0 : Economy.state) (w1 : World).
Hypothesis wf1 : wf_economy self0 w1.
Hypothesis album_positive : 0 < n_stickers self0.
Hypothesis pack_nonneg : 0 ≤ stickers_per_pack self0.

Lemma visits_snoc_eq pre x : x ∉ pre → visits pre x = 0%nat ∧ visits (pre ++ [x]) x = 1%nat.
Proof.
  intros Hx. unfold visits. rewrite decide_False by done.
  rewrite decide_True; [done|]. apply elem_of_app. right. by left.
Qed.

Lemma visits_snoc_ne pre x id : id ≠ x → visits (pre ++ [x]) id = visits pre id.
Proof.
  intros Hne. unfold visits. destruct (decide (id ∈ pre)) as [Hin|Hin].
  - rewrite decide_True; [done|]. apply elem_of_app. by left.
  - rewrite decide_False; [done|]. intros [?|Hx%list_elem_of_singleton]%elem_of_app; done.
Qed.

Lemma buying_inv_start self1 : same_config self0 self1 → buying_inv self0 w1 [] self1 w1.
Proof.
  intros Hcfg. split; [done|]. split; [done|].
  exists []. split; [by rewrite app_nil_r|].
  split; [by intros e ?%elem_of_nil|].
  intros id l Hin. destruct wf1 as (_ & _ & Hobj).
  destruct (Hobj id l Hin) as (p & Hl & _). exists p, p. unfold visits.
  rewrite decide_False by by intros ?%elem_of_nil. simpl.
  repeat split; try done. lia.
Qed.

Lemma buy_if_not_traded_inv pre x self w :
  x ∈ dict_keys (members self0) → x ∉ pre →
  buying_inv self0 w1 pre self w →
  returns (buy_if_not_traded self x) w (buying_inv self0 w1 (pre ++ [x])).
Proof.
  intros [lx Hdx]%dict_get_key Hx (Hcfg & Hty & tr & Htr & Hbuy & Hmem).
  pose proof Hcfg as (Hmembers & _ & _ & Hpack & _).
  pose proof wf1 as (Hkeys & Hlocs & Hobj).
  pose proof (dict_get_Some _ _ _ Hdx) as Hinx.
  destruct (Hmem x lx Hinx) as (p1 & p & Hl1 & Hl & Hn & Hf & Hm & Hc).
  destruct (Hobj x lx Hinx) as (p1' & Hl1' & Hn1). rewrite Hl1 in Hl1'.
  injection Hl1' as <-.
  unfold buy_if_not_traded.
  apply returns_bind. eapply members_getitem_spec; [by rewrite Hmembers|].
  apply returns_bind. eapply returns_mono.
  { apply (call_buy_pack_spec lx _ w p); [done|by rewrite Hpack|].
    left. by rewrite Hn, Hn1. }
  intros [] w2 (p2 & Hh2 & Hm2 & Hn2 & Hf2 & Hty2 & Ht2). cbn beta.
  apply returns_bind. eapply returns_mono.
  { apply (call_finished_spec (n_stickers self0)).
    rewrite Hh2, lookup_insert_eq. by eexists. }
  intros [] w3 (Hp3 & Ht3 & _ & Hty3). cbn beta.
  eapply returns_mono.
  { apply update_member_spec; [|by rewrite Hmembers].
    destruct (Hp3 lx p2) as (p3 & -> & _); [|by eexists].
    by rewrite Hh2, lookup_insert_eq. }
  intros self' ? (-> & Hcfg'). split; [eauto using same_config_trans|].
  split.
  { intros Hty1. apply Hty3. rewrite Hh2. specialize (Hty Hty1).
    apply typed_heap_insert; [done|]. apply Hty2. by apply (Hty lx). }
  exists (tr ++ [BuyPack lx]). split; [by rewrite Ht3, app_nil_r, Ht2, Htr, app_assoc|].
  split.
  { intros e [He|He%list_elem_of_singleton]%elem_of_app; [by apply Hbuy|by eexists]. }
  intros id l Hin.
  destruct (Hmem id l Hin) as (q1 & q & Hq1 & Hq & Hqn & Hqf & Hqm & Hqc).
  destruct (decide (id = x)) as [->|Hne].
  - assert (l = lx) as -> by (apply dict_get_elem in Hin; [congruence|done]).
    destruct (Hp3 lx p2) as (p3 & Hl3 & Hm3 & Hn3 & Hf3);
      [by rewrite Hh2, lookup_insert_eq|].
    rewrite Hl1 in Hq1. injection Hq1 as <-.
    exists p1, p3. destruct (visits_snoc_eq pre x Hx) as (Hv0 & ->).
    rewrite Hv0 in Hm, Hc. rewrite count_occ_app, Hc.
    rewrite count_occ_cons_eq by done. simpl.
    repeat split; try done; try congruence; try lia. auto.
  - assert (l ≠ lx) as Hl_ne.
    { intros ->. apply Hne. by eapply NoDup_snd_key. }
    destruct (Hp3 l q) as (q3 & Hl3 & Hm3 & Hn3 & Hf3);
      [by rewrite Hh2, lookup_insert_ne|].
    exists q1, q3. rewrite (visits_snoc_ne pre x id Hne).
    rewrite count_occ_app, Hqc.
    rewrite count_occ_cons_neq by congruence. simpl.
    repeat split; try done; try congruence; try lia. auto.
Qed.

Lemma buying_phase_inv self1 (have_traded : gset string) :
  same_config self0 self1 →
  returns
    (for_each (elements (list_to_set (dict_keys (members self1)) ∖ have_traded))
       buy_if_not_traded self1) w1
    (buying_inv self0 w1
       (elements (list_to_set (dict_keys (members self1)) ∖ have_traded))).
Proof.
  intros Hcfg. set (did_not_trade := _ ∖ _).
  change (elements did_not_trade) with ([] ++ elements did_not_trade) at 2.
  apply (returns_for_each (buying_inv self0 w1) buy_if_not_traded
           (elements did_not_trade) [] self1 w1).
  - by apply buying_inv_start.
  - intros pre x post self w Heq Hinv. simpl in Heq.
    pose proof (NoDup_elements did_not_trade) as Hnd. rewrite Heq in Hnd.
    apply NoDup_app in Hnd as (_ & Hpre & _).
    assert (x ∈ did_not_trade) as Hx.
    { apply elem_of_elements. rewrite Heq. apply elem_of_app. right. by left. }
    apply buy_if_not_traded_inv; [| |done].
    + destruct Hcfg as (<- & _). unfold did_not_trade in Hx.
      apply elem_of_difference in Hx as [Hx _]. by apply elem_of_list_to_set in Hx.
    + intros Hin. apply (Hpre x Hin). by left.
Qed.
End buying_phase.

(** * A whole round *)

Lemma wf_economy_after_trading self0 w0 tr w1 :
  wf_economy self0 w0 → trading_step (Economy.n_stickers self0) w0 tr w1 →
  wf_economy self0 w1.
Proof.
  intros Hwf Hstep. pose proof Hwf as (Hk & Hl & _). split; [done|]. split; [done|].
  intros id l Hin. eapply member_alive; [done|done|]. by apply dict_get_elem.
Qed.

Lemma classic_traded (tr : list event) (l : loc) : traded_in tr l ∨ ¬ traded_in tr l.
Proof.
  induction tr as [|e tr IH].
  - right. intros (o & f1 & f2 & [H|H]); by apply elem_of_nil in H.
  - destruct IH as [(o & f1 & f2 & [H|H])|IH].
    + left. exists o, f1, f2. left. by right.
    + left. exists o, f1, f2. right. by right.
    + destruct e as [a b f1 f2 [|]|x].
      * destruct (decide (a = l)) as [->|Ha].
        { left. exists b, f1, f2. left. by left. }
        destruct (decide (b = l)) as [->|Hb].
        { left. exists a, f1, f2. right. by left. }
        right. intros (o & g1 & g2 & [H|H]); apply elem_of_cons in H as [H|H];
          try (by injection H); apply IH; exists o, g1, g2; auto.
      * right. intros (o & g1 & g2 & [H|H]); apply elem_of_cons in H as [H|H];
          try done; apply IH; exists o, g1, g2; auto.
      * right. intros (o & g1 & g2 & [H|H]); apply elem_of_cons in H as [H|H];
          try done; apply IH; exists o, g1, g2; auto.
Qed.

(** What one call of [round_of_trade] does to a well-formed economy. *)
Lemma round_of_trade_spec (self : Economy.state) (w : World) (rando_endowment : Z) :
  wf_economy self w →
  0 < Economy.n_stickers self →
  0 ≤ Economy.stickers_per_pack self →
  0 ≤ rando_endowment →
  ∃ self' w' tr,
    Economy.round_of_trade self rando_endowment w = (Ok self', w') ∧
    trace w' = trace w ++ tr ∧
    same_config self self' ∧
    wf_economy self' w' ∧
    (typed_heap (Economy.n_stickers self) (heap w) →
     typed_heap (Economy.n_stickers self) (heap w')) ∧
    (∀ a b f1 f2 t, Trade a b f1 f2 t ∈ tr →
       unfinished_at w a ∧ unfinished_at w b ∧
       (member_loc self a → member_loc self b → f1 = false ∧ f2 = false) ∧
       (typed_heap (Economy.n_stickers self) (heap w) → t = true →
        f1 = false ∧ f2 = false)) ∧
    ∀ id l p,
      (id, l) ∈ Economy.members self → heap w !! l = Some p →
      ∃ p', heap w' !! l = Some p' ∧
            (Person.is_finished p = true → Person.is_finished p' = true) ∧
            (¬ traded_in tr l →
               count_occ event_eq_dec tr (BuyPack l) = 1%nat ∧
               Person.money_spent p' = Person.money_spent p + 1) ∧
            (traded_in tr l →
               count_occ event_eq_dec tr (BuyPack l) = 0%nat ∧
               Person.money_spent p' = Person.money_spent p).
Proof.
  intros Hwf Hn Hpack Hrando.
  destruct (trading_phases_inv self w Hwf rando_endowment Hrando Hn)
    as ([self1 have_traded] & w1 & Hphases & tr12 & Hcfg & Hstep & Hev & Hht).
  simpl in Hcfg, Hht, Hev.
  pose proof (wf_economy_after_trading _ _ _ _ Hwf Hstep) as Hwf1.
  destruct (buying_phase_inv self w1 Hwf1 Hn Hpack self1 have_traded Hcfg)
    as (self2 & w2 & Hbuying & Hcfg2 & Hty2 & tr3 & Htr3 & Honly & Hmem).
  exists self2, w2, (tr12 ++ tr3). split.
  { unfold Economy.round_of_trade, bind. rewrite Hphases. exact Hbuying. }
  destruct Hstep as (Hpurse & Htr12 & Hfresh & Hty1).
  split; [by rewrite Htr3, Htr12, app_assoc|]. split; [done|].
  pose proof Hwf as (Hkeys & Hlocs & Hobj).
  pose proof Hcfg2 as (Hmembers & Hns & _).
  split; [|split; [|split]].
  - split; [by rewrite Hmembers|]. split; [by rewrite Hmembers|].
    intros id l Hin. rewrite Hmembers in Hin.
    destruct (Hmem id l Hin) as (p1 & p2 & Hl1 & Hl2 & Hn2 & _).
    destruct Hwf1 as (_ & _ & Hobj1). destruct (Hobj1 id l Hin) as (p1' & Hl1' & Hn1).
    exists p2. split; [done|]. congruence.
  - auto.
  - intros a b f1 f2 t [Hin|Hin]%elem_of_app.
    + destruct (Hev _ _ _ _ _ Hin) as (? & ? & ? & ? & _). done.
    + by destruct (Honly _ Hin).
  - intros id l p Hin Hl.
    destruct (Hmem id l Hin) as (p1 & p2 & Hl1 & Hl2 & _ & Hf & Hm & Hc).
    destruct (Hpurse l p Hl) as (p1' & Hl1' & Hm1 & _ & Hf1).
    rewrite Hl1 in Hl1'. injection Hl1' as <-.
    assert (count_occ event_eq_dec tr12 (BuyPack l) = 0%nat) as Hc12.
    { apply count_occ_not_In. intros Hbuy%list_elem_of_In.
      apply Hfresh in Hbuy. congruence. }
    exists p2. split; [done|]. split; [auto|]. split.
    + intros Hnot.
      assert (id ∉ have_traded) as Hid.
      { intros Hid. destruct (Hht id Hid) as (l' & Hd & Htraded).
        apply dict_get_Some in Hd.
        assert (l' = l) as ->.
        { apply (dict_get_elem _ _ _ Hkeys) in Hd, Hin. congruence. }
        apply Hnot. by apply traded_in_app_l. }
      assert (visits (elements (list_to_set (dict_keys (Economy.members self1))
                                ∖ have_traded)) id = 1%nat) as Hvisit.
      { unfold visits. rewrite decide_True; [done|].
        apply elem_of_elements, elem_of_difference. split; [|done].
        apply elem_of_list_to_set. destruct Hcfg as (-> & _).
        by apply (list_elem_of_fmap_2 fst _ (id, l)). }
      rewrite Hvisit in Hm, Hc. rewrite count_occ_app, Hc, Hc12. split; [done|lia].
    + intros Htraded.
      assert (id ∈ have_traded) as Hid.
      { destruct Htraded as (other & f1 & f2 & [Ht|Ht]);
          apply elem_of_app in Ht as [Ht|Ht]; try (by destruct (Honly _ Ht));
          destruct (Hev _ _ _ _ _ Ht) as (_ & _ & _ & _ & Hin_ht);
          apply (Hin_ht eq_refl id l Hin); auto. }
      assert (visits (elements (list_to_set (dict_keys (Economy.members self1))
                                ∖ have_traded)) id = 0%nat) as Hvisit.
      { unfold visits. rewrite decide_False; [done|].
        rewrite elem_of_elements, elem_of_difference. by intros [_ ?]. }
      rewrite Hvisit in Hm, Hc. rewrite count_occ_app, Hc, Hc12. split; [done|lia].
Qed.

(** C5.  In every call of [round_of_trade] on a well-formed economy with a
    positive album size and non-negative pack sizes, the call returns, and
    every friend that took part in no successful trade of the round buys
    exactly one pack: its [money_spent] is one more than before the round. *)
Theorem round_completeness (self : Economy.state) (w : World) (rando_endowment : Z) :
  wf_economy self w →
  0 < Economy.n_stickers self →
  0 ≤ Economy.stickers_per_pack self →
  0 ≤ rando_endowment →
  ∃ self' w' tr,
    Economy.round_of_trade self rando_endowment w = (Ok self', w') ∧
    trace w' = trace w ++ tr ∧
    Economy.members self' = Economy.members self ∧
    ∀ id l p,
      (id, l) ∈ Economy.members self → heap w !! l = Some p →
      ¬ traded_in tr l →
      count_occ event_eq_dec tr (BuyPack l) = 1%nat ∧
      ∃ p', heap w' !! l = Some p' ∧
            Person.money_spent p' = Person.money_spent p + 1.
Proof.
  intros Hwf Hn Hpack Hrando.
  destruct (round_of_trade_spec self w rando_endowment Hwf Hn Hpack Hrando)
    as (self' & w' & tr & Hround & Htr & (Hmembers & _) & _ & _ & _ & Hfriends).
  exists self', w', tr. split; [done|]. split; [done|]. split; [done|].
  intros id l p Hin Hl Hnot.
  destruct (Hfriends id l p Hin Hl) as (p' & Hl' & _ & Hbuy & _).
  destruct (Hbuy Hnot) as (Hcount & Hmoney). split; [done|]. by exists p'.
Qed.

(** * Construction of the economy *)

Section construction.
Import Economy.

Lemma init_fields endowment n g p g' :
  Person.init endowment n g = (Ok tt, p, g') →
  0 ≤ endowment ∧ (0 < n ∨ endowment = 0) ∧
  Person.album p = list_to_set (sample n (Z.to_nat endowment) g) ∧
  Person.n_stickers p = n ∧ Person.money_spent p = 1.
Proof.
  unfold Person.init. intros Hinit.
  destruct (buy_pack_cases endowment (Person.fresh_state n) g)
    as [(e & g1 & Heq)|(Hk & Hn & Heq)]; rewrite Heq in Hinit; [done|].
  injection Hinit as <- <-. split; [done|]. split; [done|].
  set (l := sample _ _ _). set (p1 := Person.set_money_spent _ _).
  destruct (finished_fields (foldl Person.add_sticker p1 l)) as (-> & _ & -> & ->).
  destruct (fold_add_sticker l p1) as (-> & _ & -> & ->). simpl.
  split; [set_solver|done].
Qed.

Lemma new_Person_constructs endowment n w :
  0 ≤ endowment → (0 < n ∨ endowment = 0) →
  returns (new_Person endowment n) w
    (λ l w', heap w !! l = None ∧
             ∃ p g', Person.init endowment n (rng w) = (Ok tt, p, g') ∧
                     heap w' = <[l := p]> (heap w) ∧
                     trace w' = trace w ++ [BuyPack l] ∧ stdout w' = stdout w).
Proof.
  intros He Hn.
  assert (heap w !! fresh (dom (heap w)) = None) as Hfresh.
  { apply not_elem_of_dom. apply is_fresh. }
  destruct (Person.init endowment n (rng w)) as [[r p] g'] eqn:Hinit.
  assert (r = Ok tt) as ->.
  { unfold Person.init, Person.buy_pack in Hinit. simpl in Hinit.
    rewrite (choice_ok _ _ _ He Hn) in Hinit. by injection Hinit as <- _ _. }
  unfold returns, new_Person, bind, alloc, call_buy_pack, bind, emit, deref, ret.
  cbn [heap rng trace stdout]. rewrite lookup_insert_eq.
  cbn [heap rng trace stdout]. unfold Person.init in Hinit. rewrite Hinit.
  eexists _, _. split; [done|]. split; [done|]. exists p, g'.
  split; [done|]. cbn [heap rng trace stdout]. by rewrite insert_insert_eq.
Qed.

Lemma create_people_inv n n_friends endowment w :
  0 ≤ endowment → (0 < n ∨ endowment = 0) →
  returns (create_people n n_friends endowment) w
    (λ members w',
       people_inv n endowment (seq 0 (Z.to_nat n_friends)) members w' ∧
       stdout w' = stdout w ∧
       (typed_heap n (heap w) → typed_heap n (heap w'))).
Proof.
  intros He Hn. unfold create_people.
  change (seq 0 (Z.to_nat n_friends)) with ([] ++ seq 0 (Z.to_nat n_friends)) at 2.
  apply (returns_for_each
           (λ visited members w',
              people_inv n endowment visited members w' ∧
              stdout w' = stdout w ∧
              (typed_heap n (heap w) → typed_heap n (heap w')))).
  - split; [|done]. split; [done|]. split; [constructor|].
    by intros id l ?%elem_of_nil.
  - intros pre x post members w1 Heq [(Hkeys & Hlocs & Hobj) [Hout Hty]].
    simpl in Heq.
    apply returns_bind. eapply returns_mono; [by apply new_Person_constructs|].
    intros l w2 (Hfresh & p & g' & Hinit & Hh & _ & Hout2). cbn beta.
    apply returns_ret.
    assert (member_id x ∉ members.*1) as Hnew.
    { rewrite Hkeys. intros (y & Hxy & Hy)%list_elem_of_fmap.
      apply (inj (String.append "id")) in Hxy. apply (inj pretty) in Hxy as <-.
      pose proof (NoDup_seq 0 (Z.to_nat n_friends)) as Hnd. rewrite Heq in Hnd.
      apply NoDup_app in Hnd as (_ & Hpre & _). apply (Hpre x Hy). by left. }
    rewrite (dict_set_fresh _ _ _ Hnew). split; [|split; [congruence|]];
      [split; [|split]|].
    + by rewrite !fmap_app, Hkeys.
    + rewrite fmap_app. apply NoDup_app. split; [done|]. split; [|apply NoDup_singleton].
      intros l' (kv & -> & Hkv)%list_elem_of_fmap Hl'%list_elem_of_singleton.
      destruct kv as [id l']. simpl in Hl'. subst l'.
      destruct (Hobj id l Hkv) as (q & ? & ? & Hq & _). congruence.
    + intros id l' [Hin|Hin%list_elem_of_singleton]%elem_of_app.
      * destruct (Hobj id l' Hin) as (q & g1 & g1' & Hq & Hqi). exists q, g1, g1'.
        split; [|done]. rewrite Hh, lookup_insert_ne; [done|congruence].
      * injection Hin as -> ->. exists p, (rng w1), g'.
        by rewrite Hh, lookup_insert_eq.
    + intros Hty0. rewrite Hh. apply typed_heap_insert; [auto|].
      assert (p = Person.after_buy_pack endowment (Person.fresh_state n) (rng w1))
        as ->.
      { unfold Person.after_buy_pack. unfold Person.init in Hinit. by rewrite Hinit. }
      apply typed_after_buy_pack, typed_fresh_state.
Qed.

(** [Economy.__init__] returns a well-formed economy of [n_friends]
    constructed collectors. *)
Lemma init_wf n_friends starting_endowment n_randos stickers_per_pack n w :
  0 ≤ starting_endowment → (0 < n ∨ starting_endowment = 0) →
  returns (init n_friends starting_endowment n_randos stickers_per_pack n) w
    (λ self w', wf_economy self w' ∧
                people_inv n starting_endowment (seq 0 (Z.to_nat n_friends))
                  (members self) w' ∧
                Economy.n_friends self = n_friends ∧ Economy.n_stickers self = n ∧
                stdout w' = stdout w ∧
                (typed_heap n (heap w) → typed_heap n (heap w'))).
Proof.
  intros He Hn. unfold init. apply returns_bind.
  eapply returns_mono; [by apply create_people_inv|].
  intros members w' [Hinv [Hout Hty]]. cbn beta. apply returns_ret. simpl.
  pose proof Hinv as (Hkeys & Hlocs & Hobj).
  split; [|done]. split; [|split; [done|]].
  - simpl. rewrite Hkeys. apply NoDup_fmap_2; [|apply NoDup_seq].
    intros x y Hxy. apply (inj (String.append "id")) in Hxy.
    by apply (inj pretty) in Hxy.
  - simpl. intros id l Hin. destruct (Hobj id l Hin) as (p & g & g' & ? & Hi).
    exists p. split; [done|]. by destruct (init_fields _ _ _ _ _ Hi) as (_ & _ & _ & ? & _).
Qed.

(** With an album of one sticker, a collector that got a non-empty first
    pack is finished when its constructor returns. *)
Lemma init_album_of_one endowment g p g' :
  0 < endowment → Person.init endowment 1 g = (Ok tt, p, g') →
  Person.is_finished p = true ∧ Person.money_spent p = 1.
Proof.
  intros He Hinit.
  destruct (init_fields _ _ _ _ _ Hinit) as (_ & _ & Ha & Hns & Hm).
  split; [|done].
  assert (Person.constructed p) as Hc by by exists endowment, 1, g, g'.
  apply constructed_invariant in Hc as (_ & Hiff). apply Hiff. rewrite Hns.
  assert (Person.album p = {[0]}) as ->; [|by rewrite size_singleton].
  rewrite Ha. apply set_eq. intros s.
  rewrite elem_of_list_to_set, elem_of_singleton. split.
  - intros Hs. apply (sample_in_range 1) in Hs; lia.
  - intros ->. unfold sample. apply list_elem_of_fmap. exists 0%nat.
    split; [by rewrite Z.mod_1_r|]. apply elem_of_seq. lia.
Qed.

Lemma count_finished_all self w :
  (∀ id l, (id, l) ∈ members self →
     ∃ p, heap w !! l = Some p ∧ Person.is_finished p = true) →
  count_finished self w = (Ok (Z.of_nat (length (members self))), w).
Proof.
  intros Hall. unfold count_finished.
  assert (returns
            (for_each (dict_keys (members self))
               (λ total p,
                  let! person := members_getitem self p in
                  let! s := deref person in
                  ret (total + (if Person.is_finished s then 1 else 0))) 0) w
            (λ total w', total = Z.of_nat (length (dict_keys (members self)))
                         ∧ w' = w)) as (total & w' & -> & -> & ->).
  { change (dict_keys (members self))
      with ([] ++ dict_keys (members self)) at 2.
    apply (returns_for_each
             (λ (visited : list string) total w',
                total = Z.of_nat (length visited) ∧ w' = w)); [done|].
    intros pre x post total w' Heq [-> ->]. simpl in Heq.
    assert (x ∈ dict_keys (members self)) as [l Hd]%dict_get_key.
    { rewrite Heq. apply elem_of_app. right. by left. }
    destruct (Hall x l (dict_get_Some _ _ _ Hd)) as (p & Hl & Hfin).
    apply returns_bind. eapply members_getitem_spec; [done|].
    apply returns_bind. eapply deref_spec; [done|]. apply returns_ret.
    rewrite Hfin, length_app. simpl. split; [lia|done]. }
  unfold dict_keys. by rewrite length_fmap.
Qed.
End construction.

(** C10.  With an album of one sticker, a positive first pack and at least
    one friend, [Economy.__init__] returns an economy in which every
    collector is finished after the single purchase of its constructor, and
    [run_simulation] returns at round 0 with [n_finished = n_friends] without
    entering its loop: the world, and hence the trace of trades and
    purchases, is left as the constructor left it. *)
Theorem album_of_one_stops_at_round_zero
    (n_friends starting_endowment n_randos stickers_per_pack : Z)
    (rando_endowment n_logging : Z) (fuel : nat) (w : World) :
  1 ≤ n_friends → 0 < starting_endowment →
  ∃ self w',
    Economy.init n_friends starting_endowment n_randos stickers_per_pack 1 w
      = (Ok self, w') ∧
    Z.of_nat (length (Economy.members self)) = n_friends ∧
    (∀ id l, (id, l) ∈ Economy.members self →
       ∃ p, heap w' !! l = Some p ∧ Person.is_finished p = true ∧
            Person.money_spent p = 1) ∧
    Economy.run_simulation fuel self rando_endowment n_logging w'
      = (Ok (self, 0, n_friends), w').
Proof.
  intros Hfriends Hendow.
  destruct (init_wf n_friends starting_endowment n_randos stickers_per_pack 1 w)
    as (self & w' & Hinit & _ & (Hkeys & _ & Hobj) & Hnf & _ & _ & _); [lia|lia|].
  exists self, w'. split; [done|].
  assert (Z.of_nat (length (Economy.members self)) = n_friends) as Hlen.
  { rewrite <- (length_fmap fst), Hkeys, length_fmap, length_seq. lia. }
  assert (∀ id l, (id, l) ∈ Economy.members self →
            ∃ p, heap w' !! l = Some p ∧ Person.is_finished p = true ∧
                 Person.money_spent p = 1) as Hall.
  { intros id l Hin. destruct (Hobj id l Hin) as (p & g & g' & Hl & Hi).
    exists p. split; [done|]. by eapply init_album_of_one. }
  split; [done|]. split; [done|].
  unfold Economy.run_simulation, bind. rewrite count_finished_all.
  - rewrite Hlen. destruct fuel; simpl; by rewrite Hnf, Z.ltb_irrefl.
  - intros id l Hin. destruct (Hall id l Hin) as (p & ? & ? & _). eauto.
Qed.

(** * The claims about [Person] *)

Lemma typed_calls_invariant (p q : Person.state) :
  rtc Person.typed_call p q →
  Person.sticker_ids (Person.n_stickers p) (Person.album p) →
  (Person.is_finished p = true
   ↔ Z.of_nat (size (Person.album p)) = Person.n_stickers p) →
  Person.sticker_ids (Person.n_stickers q) (Person.album q) ∧
  (Person.is_finished q = true
   ↔ Z.of_nat (size (Person.album q)) = Person.n_stickers q).
Proof.
  induction 1 as [p|p p' q Hcall _ IH]; intros Hids Hiff; [done|].
  destruct (typed_call_invariant p p' Hcall Hids Hiff). by apply IH.
Qed.

Lemma calls_keep_finished (p q : Person.state) :
  rtc Person.call p q → Person.is_finished p = true → Person.is_finished q = true.
Proof.
  induction 1 as [|p1 p2 p3 Hcall _ IH]; [done|].
  intros Hfin. apply IH. by eapply call_keeps_finished.
Qed.

(** C6.  For every collector returned by the constructor and changed by any
    sequence of [buy_pack] and [update_collection] calls that receive sticker
    identifiers of its album, [is_finished] is true if and only if the size
    of the album equals [n_stickers]; and once [is_finished] is true it is
    true after every further call of the two methods, whatever the arguments. *)
Theorem finished_iff_album_full (p0 p : Person.state) :
  Person.constructed p0 → rtc Person.typed_call p0 p →
  (Person.is_finished p = true
   ↔ Z.of_nat (size (Person.album p)) = Person.n_stickers p) ∧
  ∀ q, rtc Person.call p q →
       Person.is_finished p = true → Person.is_finished q = true.
Proof.
  intros Hcons Hcalls. split.
  - destruct (constructed_invariant p0 Hcons) as (Hids & Hiff).
    by apply (typed_calls_invariant p0 p).
  - intros q. apply calls_keep_finished.
Qed.

(** C8.  Over every sequence of [buy_pack] and [update_collection] calls the
    album only grows: no sticker leaves it and its size does not decrease. *)
Theorem album_never_shrinks (p q : Person.state) :
  rtc Person.call p q →
  Person.album p ⊆ Person.album q ∧
  (size (Person.album p) ≤ size (Person.album q))%nat.
Proof.
  intros Hcalls.
  assert (Person.album p ⊆ Person.album q) as Hsub.
  { induction Hcalls as [|p1 p2 p3 Hcall _ IH]; [done|].
    apply call_grows_album in Hcall. set_solver. }
  split; [done|]. by apply subseteq_size.
Qed.

(** C9.  A call of [buy_pack] with a non-negative pack size leaves
    [money_spent] one higher, whatever is drawn; it returns normally when
    the album size is positive or the pack is empty; and with pack size 0 it
    leaves the album and the repeats as they were. *)
Theorem buy_pack_costs_one (k : Z) (p : Person.state) (g : RandomState) :
  0 ≤ k →
  Person.money_spent (Person.after_buy_pack k p g) = Person.money_spent p + 1 ∧
  (0 < Person.n_stickers p ∨ k = 0 → (Person.buy_pack k p g).1.1 = Ok tt) ∧
  (k = 0 →
     Person.album (Person.after_buy_pack k p g) = Person.album p ∧
     Person.repeats (Person.after_buy_pack k p g) = Person.repeats p).
Proof.
  intros Hk. split; [apply after_buy_pack_fields|]. split.
  - intros Hn. unfold Person.buy_pack. simpl.
    by rewrite (choice_ok _ _ _ Hk Hn).
  - intros ->. unfold Person.after_buy_pack, Person.buy_pack. simpl.
    rewrite choice_ok by (lia || auto). simpl.
    by destruct (finished_fields (Person.set_money_spent (Person.money_spent p + 1) p))
      as (-> & -> & _).
Qed.

(** * The two-friend scenario *)

(** C4, as amended.  When [a] holds sticker 0 in the album and in repeat but
    lacks sticker 1, and [b] holds sticker 1 in the album and in repeat but
    lacks sticker 0, [trade(a, b)] returns [True]; afterwards both albums
    hold stickers 0 and 1, and each repeat count of the sticker given away
    is one less than before. *)
Theorem two_friend_trade (w : World) (a b : loc) (pa pb : Person.state) :
  a ≠ b → heap w !! a = Some pa → heap w !! b = Some pb →
  0 ∈ Person.album pa → 1 ∉ Person.album pa →
  1 ≤ getitem (Person.repeats pa) 0 →
  1 ∈ Person.album pb → 0 ∉ Person.album pb →
  1 ≤ getitem (Person.repeats pb) 1 →
  ∃ w' pa' pb',
    Economy.trade a b w = (Ok (true, a, b), w') ∧
    heap w' !! a = Some pa' ∧ heap w' !! b = Some pb' ∧
    0 ∈ Person.album pa' ∧ 1 ∈ Person.album pa' ∧
    0 ∈ Person.album pb' ∧ 1 ∈ Person.album pb' ∧
    getitem (Person.repeats pa') 0 = getitem (Person.repeats pa) 0 - 1 ∧
    getitem (Person.repeats pb') 1 = getitem (Person.repeats pb) 1 - 1.
Proof.
  intros Hne Ha Hb Ha0 Ha1 Hra Hb1 Hb0 Hrb.
  assert (1 ∈ can_receive pa pb) as H1.
  { unfold can_receive. apply elem_of_difference. split; [|done].
    apply elem_of_can_give. lia. }
  assert (0 ∈ can_receive pb pa) as H0.
  { unfold can_receive. apply elem_of_difference. split; [|done].
    apply elem_of_can_give. lia. }
  destruct (trade_executed w a b pa pb Hne Ha Hb) as (w' & Htrade & Ha' & Hb');
    [set_solver..|].
  eexists _, _, _. split; [done|]. split; [exact Ha'|]. split; [exact Hb'|].
  rewrite !update_collection_album, !update_collection_getitem.
  rewrite !decide_True by done.
  repeat split; try done; set_solver.
Qed.

(** * The claims at concrete inputs *)

Ltac by_computation := apply (bool_decide_unpack _); vm_compute; exact I.

(** C1 at [alice] and [bob], who can each receive a sticker from the other:
    the trade returns [True] and changes [alice]; and at [alice] and
    [spent_bob], whose only key in [repeats] has count 0: the trade returns
    [False] and changes nothing. *)
Lemma trade_fairness_witness :
  heap alice_and_bob !! 0%nat = Some alice ∧
  heap alice_and_bob !! 1%nat = Some bob ∧
  (∃ traded w',
     Economy.trade 0 1 alice_and_bob = (Ok (traded, 0%nat, 1%nat), w') ∧
     (traded = true ↔ (∃ k, receivable alice bob k) ∧ (∃ k, receivable bob alice k)) ∧
     (heap w' !! 0%nat ≠ Some alice ∨ heap w' !! 1%nat ≠ Some bob
      ↔ (∃ k, receivable alice bob k) ∧ (∃ k, receivable bob alice k)) ∧
     ((¬ ∃ k, receivable alice bob k) ∨ (¬ ∃ k, receivable bob alice k) →
      traded = false ∧ w' = alice_and_bob)) ∧
  (∃ w', Economy.trade 0 1 alice_and_bob = (Ok (true, 0%nat, 1%nat), w') ∧
         (heap w' !! 0%nat ≠ Some alice ∨ heap w' !! 1%nat ≠ Some bob)) ∧
  heap alice_and_spent_bob !! 0%nat = Some alice ∧
  heap alice_and_spent_bob !! 1%nat = Some spent_bob ∧
  Economy.trade 0 1 alice_and_spent_bob
  = (Ok (false, 0%nat, 1%nat), alice_and_spent_bob).
Proof.
  assert ((∃ k, receivable alice bob k) ∧ (∃ k, receivable bob alice k)) as Hboth.
  { split; [exists 1|exists 0]; unfold receivable; split; by_computation. }
  assert (¬ ∃ k, receivable alice spent_bob k) as Hnone.
  { intros (k & Hpos & _). unfold getitem in Hpos. simpl in Hpos.
    destruct (decide (k = 1)) as [->|Hne].
    - rewrite lookup_singleton_eq in Hpos. simpl in Hpos. lia.
    - rewrite lookup_singleton_ne in Hpos by done. simpl in Hpos. lia. }
  split; [reflexivity|]. split; [reflexivity|].
  split; [exact (trade_fairness alice_and_bob 0 1 alice bob eq_refl eq_refl)|].
  split.
  { destruct (trade_fairness alice_and_bob 0 1 alice bob eq_refl eq_refl)
      as (traded & w' & Htrade & Htraded & Hchanged & _).
    exists w'. split; [|by apply Hchanged].
    by rewrite (proj2 Htraded Hboth) in Htrade. }
  split; [reflexivity|]. split; [reflexivity|].
  destruct (trade_fairness alice_and_spent_bob 0 1 alice spent_bob eq_refl eq_refl)
    as (traded & w' & Htrade & _ & _ & Hunchanged).
  destruct (Hunchanged (or_introl Hnone)) as [-> ->]. exact Htrade.
Defined.

(** C2 at [alice] and [bob], who can each receive one sticker. *)
Lemma trade_conservation_witness :
  0%nat ≠ 1%nat ∧
  heap alice_and_bob !! 0%nat = Some alice ∧
  heap alice_and_bob !! 1%nat = Some bob ∧
  can_receive alice bob ≠ ∅ ∧ can_receive bob alice ≠ ∅ ∧
  ∃ w' pa' pb',
    Economy.trade 0 1 alice_and_bob = (Ok (true, 0%nat, 1%nat), w') ∧
    heap w' !! 0%nat = Some pa' ∧ heap w' !! 1%nat = Some pb' ∧
    (∀ k, k ∈ can_receive alice bob →
          k ∈ Person.album pa' ∧
          getitem (Person.repeats pb') k = getitem (Person.repeats bob) k - 1) ∧
    (∀ k, k ∈ can_receive bob alice →
          k ∈ Person.album pb' ∧
          getitem (Person.repeats pa') k = getitem (Person.repeats alice) k - 1).
Proof.
  assert (0%nat ≠ 1%nat) as Hne by lia.
  assert (can_receive alice bob ≠ ∅) as H1 by by_computation.
  assert (can_receive bob alice ≠ ∅) as H2 by by_computation.
  split; [exact Hne|]. split; [reflexivity|]. split; [reflexivity|].
  split; [exact H1|]. split; [exact H2|].
  exact (trade_conservation alice_and_bob 0 1 alice bob Hne eq_refl eq_refl H1 H2).
Defined.

(** C7 at [alice] and [bob]. *)
Lemma trade_never_underflows_witness :
  0%nat ≠ 1%nat ∧
  heap alice_and_bob !! 0%nat = Some alice ∧
  heap alice_and_bob !! 1%nat = Some bob ∧
  ∃ traded w' pa' pb',
    Economy.trade 0 1 alice_and_bob = (Ok (traded, 0%nat, 1%nat), w') ∧
    heap w' !! 0%nat = Some pa' ∧ heap w' !! 1%nat = Some pb' ∧
    (traded = true →
       pa' = Person.update_collection (can_receive bob alice) (can_receive alice bob) alice ∧
       pb' = Person.update_collection (can_receive alice bob) (can_receive bob alice) bob) ∧
    (traded = false → pa' = alice ∧ pb' = bob) ∧
    (∀ k, k ∈ can_receive bob alice → 0 < getitem (Person.repeats alice) k) ∧
    (∀ k, k ∈ can_receive alice bob → 0 < getitem (Person.repeats bob) k) ∧
    (∀ k, 0 ≤ getitem (Person.repeats alice) k → 0 ≤ getitem (Person.repeats pa') k) ∧
    (∀ k, 0 ≤ getitem (Person.repeats bob) k → 0 ≤ getitem (Person.repeats pb') k).
Proof.
  assert (0%nat ≠ 1%nat) as Hne by lia.
  split; [exact Hne|]. split; [reflexivity|]. split; [reflexivity|].
  exact (trade_never_underflows alice_and_bob 0 1 alice bob Hne eq_refl eq_refl).
Defined.

(** C4, as amended, at [alice] and [bob]. *)
Lemma two_friend_trade_witness :
  0%nat ≠ 1%nat ∧
  heap alice_and_bob !! 0%nat = Some alice ∧
  heap alice_and_bob !! 1%nat = Some bob ∧
  0 ∈ Person.album alice ∧ (1 ∉ Person.album alice) ∧
  1 ≤ getitem (Person.repeats alice) 0 ∧
  1 ∈ Person.album bob ∧ (0 ∉ Person.album bob) ∧
  1 ≤ getitem (Person.repeats bob) 1 ∧
  ∃ w' pa' pb',
    Economy.trade 0 1 alice_and_bob = (Ok (true, 0%nat, 1%nat), w') ∧
    heap w' !! 0%nat = Some pa' ∧ heap w' !! 1%nat = Some pb' ∧
    0 ∈ Person.album pa' ∧ 1 ∈ Person.album pa' ∧
    0 ∈ Person.album pb' ∧ 1 ∈ Person.album pb' ∧
    getitem (Person.repeats pa') 0 = getitem (Person.repeats alice) 0 - 1 ∧
    getitem (Person.repeats pb') 1 = getitem (Person.repeats bob) 1 - 1.
Proof.
  assert (0%nat ≠ 1%nat) as Hne by lia.
  assert (0 ∈ Person.album alice) as Ha0 by by_computation.
  assert (1 ∉ Person.album alice) as Ha1 by by_computation.
  assert (1 ≤ getitem (Person.repeats alice) 0) as Hra by by_computation.
  assert (1 ∈ Person.album bob) as Hb1 by by_computation.
  assert (0 ∉ Person.album bob) as Hb0 by by_computation.
  assert (1 ≤ getitem (Person.repeats bob) 1) as Hrb by by_computation.
  repeat (split; [done|]).
  exact (two_friend_trade alice_and_bob 0 1 alice bob Hne eq_refl eq_refl
           Ha0 Ha1 Hra Hb1 Hb0 Hrb).
Defined.

(** C4, as stated, fails: with sticker 0 in the album of [stated_a] and in
    repeat at [stated_b], and sticker 1 in the album of [stated_b] and in
    repeat at [stated_a], neither can receive anything; [trade] returns
    [False] and changes nothing, so the album of [stated_a] still lacks
    sticker 1. *)
Lemma two_friend_scenario_as_stated_fails :
  heap stated_world !! 0%nat = Some stated_a ∧
  heap stated_world !! 1%nat = Some stated_b ∧
  0 ∈ Person.album stated_a ∧ 1 ≤ getitem (Person.repeats stated_a) 1 ∧
  1 ∈ Person.album stated_b ∧ 1 ≤ getitem (Person.repeats stated_b) 0 ∧
  Economy.trade 0 1 stated_world = (Ok (false, 0%nat, 1%nat), stated_world) ∧
  (1 ∉ Person.album stated_a) ∧ (0 ∉ Person.album stated_b).
Proof.
  split; [reflexivity|]. split; [reflexivity|].
  split; [by_computation|]. split; [by_computation|].
  split; [by_computation|]. split; [by_computation|].
  split; [vm_compute; reflexivity|]. split; by_computation.
Qed.

(** The economy [two_friends] is well-formed. *)
Lemma two_friends_wf : wf_economy two_friends two_friends_world.
Proof.
  split; [by_computation|]. split; [by_computation|].
  intros id l Hin. simpl in Hin.
  apply elem_of_cons in Hin as [[= -> ->]|Hin]; [by eexists|].
  apply list_elem_of_singleton in Hin as [= -> ->]. by eexists.
Qed.

(** C5 at the economy [two_friends], with strangers endowed with two
    stickers. *)
Lemma round_completeness_witness :
  wf_economy two_friends two_friends_world ∧
  0 < Economy.n_stickers two_friends ∧
  0 ≤ Economy.stickers_per_pack two_friends ∧
  0 ≤ 2 ∧
  ∃ self' w' tr,
    Economy.round_of_trade two_friends 2 two_friends_world = (Ok self', w') ∧
    trace w' = trace two_friends_world ++ tr ∧
    Economy.members self' = Economy.members two_friends ∧
    ∀ id l p,
      (id, l) ∈ Economy.members two_friends →
      heap two_friends_world !! l = Some p →
      ¬ traded_in tr l →
      count_occ event_eq_dec tr (BuyPack l) = 1%nat ∧
      ∃ p', heap w' !! l = Some p' ∧
            Person.money_spent p' = Person.money_spent p + 1.
Proof.
  assert (0 < Economy.n_stickers two_friends) as Hn by (simpl; lia).
  assert (0 ≤ Economy.stickers_per_pack two_friends) as Hpack by (simpl; lia).
  assert (0 ≤ 2) as Hrando by lia.
  split; [exact two_friends_wf|]. split; [exact Hn|]. split; [exact Hpack|].
  split; [exact Hrando|].
  exact (round_completeness two_friends two_friends_world 2
           two_friends_wf Hn Hpack Hrando).
Defined.

(** [two_friends] is the economy the constructor builds from the draws
    0, 1, 0, 0. *)
Lemma two_friends_built :
  Economy.init 2 2 1 1 2 (empty_world [0; 1; 0; 0; 1; 1])
  = (Ok two_friends, two_friends_world).
Proof. vm_compute. reflexivity. Qed.

(** Its heap holds typed collectors only. *)
Lemma two_friends_typed :
  typed_heap (Economy.n_stickers two_friends) (heap two_friends_world).
Proof.
  destruct (init_wf 2 2 1 1 2 (empty_world [0; 1; 0; 0; 1; 1]))
    as (self & w & Hinit & _ & _ & _ & _ & _ & Hty); [lia|lia|].
  rewrite two_friends_built in Hinit. injection Hinit as <- <-.
  apply Hty. intros l p Hl. simpl in Hl. by rewrite lookup_empty in Hl.
Qed.

(** C3, as stated, fails: the economy [two_friends] is the one the
    constructor builds from the draws 0, 1, 0, 0; its member [id0] is
    finished before the round, and yet the round makes it buy a pack. *)
Lemma finished_friend_buys_again :
  Economy.init 2 2 1 1 2 (empty_world [0; 1; 0; 0; 1; 1])
    = (Ok two_friends, two_friends_world) ∧
  ("id0", 0%nat) ∈ Economy.members two_friends ∧
  heap two_friends_world !! 0%nat = Some finished_friend ∧
  Person.is_finished finished_friend = true ∧
  ∃ self' w' p',
    Economy.round_of_trade two_friends 2 two_friends_world = (Ok self', w') ∧
    trace w'
      = trace two_friends_world
        ++ [BuyPack 2; Trade 1 2 false false true; BuyPack 0] ∧
    heap w' !! 0%nat = Some p' ∧
    Person.money_spent p' = Person.money_spent finished_friend + 1.
Proof.
  split; [exact two_friends_built|]. split; [by left|].
  split; [reflexivity|]. split; [reflexivity|].
  eexists _, _, _. split; [vm_compute; reflexivity|].
  split; [reflexivity|]. split; [vm_compute; reflexivity|]. reflexivity.
Qed.

(** C10 with two friends and a first pack of three stickers. *)
Lemma album_of_one_stops_at_round_zero_witness :
  1 ≤ 2 ∧ 0 < 3 ∧
  ∃ self w',
    Economy.init 2 3 5 5 1 (empty_world [4; 7; 9]) = (Ok self, w') ∧
    Z.of_nat (length (Economy.members self)) = 2 ∧
    (∀ id l, (id, l) ∈ Economy.members self →
       ∃ p, heap w' !! l = Some p ∧ Person.is_finished p = true ∧
            Person.money_spent p = 1) ∧
    Economy.run_simulation 0 self 500 10 w' = (Ok (self, 0, 2), w').
Proof.
  assert (1 ≤ 2) as Hfriends by lia.
  assert (0 < 3) as Hendow by lia.
  split; [exact Hfriends|]. split; [exact Hendow|].
  exact (album_of_one_stops_at_round_zero 2 3 5 5 500 10 0
           (empty_world [4; 7; 9]) Hfriends Hendow).
Defined.

(** [other_friend] is what the constructor returns on the draws 0, 0. *)
Lemma other_friend_constructed : Person.constructed other_friend.
Proof.
  exists 2, 2, (random_state_of [0; 0]), (advance 2 (random_state_of [0; 0])).
  vm_compute. reflexivity.
Qed.

(** C6 at [other_friend] after it received sticker 1. *)
Lemma finished_iff_album_full_witness :
  Person.constructed other_friend ∧
  rtc Person.typed_call other_friend
    (Person.update_collection ∅ {[1]} other_friend) ∧
  (Person.is_finished (Person.update_collection ∅ {[1]} other_friend) = true
   ↔ Z.of_nat (size (Person.album (Person.update_collection ∅ {[1]} other_friend)))
     = Person.n_stickers (Person.update_collection ∅ {[1]} other_friend)) ∧
  ∀ q, rtc Person.call (Person.update_collection ∅ {[1]} other_friend) q →
       Person.is_finished (Person.update_collection ∅ {[1]} other_friend) = true →
       Person.is_finished q = true.
Proof.
  assert (rtc Person.typed_call other_friend
            (Person.update_collection ∅ {[1]} other_friend)) as Hcalls.
  { apply rtc_once, Person.typed_update_collection.
    intros s Hs. apply elem_of_singleton in Hs as ->. simpl. lia. }
  split; [exact other_friend_constructed|]. split; [exact Hcalls|].
  exact (finished_iff_album_full other_friend _ other_friend_constructed Hcalls).
Defined.

(** C8 at [other_friend] buying a pack of one sticker. *)
Lemma album_never_shrinks_witness :
  rtc Person.call other_friend
    (Person.after_buy_pack 1 other_friend (random_state_of [1])) ∧
  Person.album other_friend
    ⊆ Person.album (Person.after_buy_pack 1 other_friend (random_state_of [1])) ∧
  (size (Person.album other_friend)
   ≤ size (Person.album
             (Person.after_buy_pack 1%Z other_friend (random_state_of [1%Z]))))%nat.
Proof.
  assert (rtc Person.call other_friend
            (Person.after_buy_pack 1 other_friend (random_state_of [1]))) as Hcalls.
  { apply rtc_once, Person.calls_buy_pack. }
  split; [exact Hcalls|]. exact (album_never_shrinks _ _ Hcalls).
Defined.

(** C9 at [other_friend] buying an empty pack. *)
Lemma buy_pack_costs_one_witness :
  0 ≤ 0 ∧
  Person.money_spent (Person.after_buy_pack 0 other_friend (random_state_of []))
    = Person.money_spent other_friend + 1 ∧
  (0 < Person.n_stickers other_friend ∨ 0 = 0 →
   (Person.buy_pack 0 other_friend (random_state_of [])).1.1 = Ok tt) ∧
  (0 = 0 →
     Person.album (Person.after_buy_pack 0 other_friend (random_state_of []))
       = Person.album other_friend ∧
     Person.repeats (Person.after_buy_pack 0 other_friend (random_state_of []))
       = Person.repeats other_friend).
Proof.
  assert (0 ≤ 0) as Hk by lia.
  split; [exact Hk|].
  exact (buy_pack_costs_one 0 other_friend (random_state_of []) Hk).
Defined.

(** * Further properties of [Person] *)

Section holdings_facts.
Import Economy Person.
Implicit Types (p : Person.state) (r : gmap Z Z).

Lemma total_repeats_insert r k v :
  total_repeats (<[k := v]> r) = total_repeats r - getitem r k + v.
Proof.
  assert (∀ (m : gmap Z Z) (j1 j2 z1 z2 y : Z),
            j1 ≠ j2 → m !! j1 = Some z1 → m !! j2 = Some z2 →
            z1 + (z2 + y) = z2 + (z1 + y)) as Hcomm by (intros; lia).
  unfold total_repeats, getitem. destruct (r !! k) as [v0|] eqn:Hk; simpl.
  - rewrite <- insert_delete_eq.
    rewrite map_fold_insert_L; [|by eauto|by rewrite lookup_delete_eq].
    rewrite (map_fold_delete_L _ _ k v0 r); [lia|by eauto|done].
  - rewrite map_fold_insert_L; [lia|by eauto|done].
Qed.

Lemma holdings_add_sticker p s : holdings (add_sticker p s) = holdings p + 1.
Proof.
  unfold holdings, add_sticker. destruct (decide (s ∉ album p)) as [Hs|Hs]; simpl.
  - rewrite size_union by set_solver. rewrite size_singleton. lia.
  - rewrite total_repeats_insert. lia.
Qed.

Lemma holdings_fold_add_sticker new_pack p :
  holdings (foldl add_sticker p new_pack) = holdings p + Z.of_nat (length new_pack).
Proof.
  revert p. induction new_pack as [|s l IH]; intros p; simpl; [lia|].
  rewrite IH, holdings_add_sticker. lia.
Qed.

Lemma holdings_finished p : holdings (finished p) = holdings p.
Proof.
  unfold holdings. by destruct (finished_fields p) as (-> & -> & _).
Qed.

Lemma total_repeats_fold_give p (X : gset Z) :
  total_repeats (repeats (set_fold give p X))
  = total_repeats (repeats p) - Z.of_nat (size X).
Proof.
  refine (set_fold_ind_L (λ q Y,
    total_repeats (repeats q) = total_repeats (repeats p) - Z.of_nat (size Y))
    give p _ _ X).
  - rewrite size_empty. lia.
  - intros x Y q Hx IH. unfold give; simpl. rewrite total_repeats_insert, IH.
    rewrite size_union by set_solver. rewrite size_singleton. lia.
Qed.

Lemma holdings_update_collection giving receiving p :
  holdings (update_collection giving receiving p)
  = holdings p + Z.of_nat (size (receiving ∖ album p)) - Z.of_nat (size giving).
Proof.
  unfold holdings. rewrite update_collection_album, size_union_alt.
  unfold update_collection.
  destruct (finished_fields (set_fold give (set_fold receive p receiving) giving))
    as (_ & -> & _).
  rewrite total_repeats_fold_give, fold_receive. simpl. lia.
Qed.

Lemma sample_length n k g : length (sample n k g) = k.
Proof. unfold sample. by rewrite length_fmap, length_seq. Qed.

Lemma choice_raises n size g :
  ¬ drawable n size → choice n size g = (Raise ValueError, g).
Proof.
  unfold drawable, choice. intros Hno.
  destruct (Z.ltb_spec size 0); [done|].
  destruct (Z.leb_spec n 0), (Z.ltb_spec 0 size); simpl; try done; destruct Hno; lia.
Qed.

Lemma drawable_dec n size : drawable n size ∨ ¬ drawable n size.
Proof. unfold drawable. lia. Qed.
End holdings_facts.

Lemma buy_pack_drawable (k : Z) (p : Person.state) (g : RandomState) :
  drawable (Person.n_stickers p) k →
  ∃ q, Person.buy_pack k p g = (Ok tt, q, advance (Z.to_nat k) g) ∧
       holdings q = holdings p + k ∧
       Person.album q
       = Person.album p ∪ list_to_set (sample (Person.n_stickers p) (Z.to_nat k) g) ∧
       Person.money_spent q = Person.money_spent p + 1 ∧
       Person.n_stickers q = Person.n_stickers p.
Proof.
  intros [Hk Hn].
  destruct (buy_pack_cases k p g) as [(e & g' & Heq)|(_ & _ & Heq)].
  { exfalso. unfold Person.buy_pack in Heq. simpl in Heq.
    rewrite (choice_ok _ _ _ Hk Hn) in Heq. done. }
  eexists. split; [exact Heq|].
  set (l := sample _ _ _). set (p1 := Person.set_money_spent _ _).
  destruct (finished_fields (foldl Person.add_sticker p1 l)) as (-> & _ & -> & ->).
  destruct (fold_add_sticker l p1) as (-> & _ & -> & ->).
  rewrite holdings_finished, holdings_fold_add_sticker.
  unfold l. rewrite sample_length. split; [|done].
  unfold holdings, p1. simpl. lia.
Qed.

(** X1.  When the pack size is not negative and the album has a sticker to
    draw or the pack is empty, [buy_pack] returns normally; the person then
    holds as many more stickers as the pack has, the album is the old one
    with the stickers drawn, and the generator has advanced by the pack
    size. *)
Theorem buy_pack_draws (k : Z) (p : Person.state) (g : RandomState) :
  drawable (Person.n_stickers p) k →
  ∃ q, Person.buy_pack k p g = (Ok tt, q, advance (Z.to_nat k) g) ∧
       holdings q = holdings p + k ∧
       Person.album q
       = Person.album p ∪ list_to_set (sample (Person.n_stickers p) (Z.to_nat k) g) ∧
       Person.money_spent q = Person.money_spent p + 1 ∧
       Person.n_stickers q = Person.n_stickers p.
Proof.
  apply buy_pack_drawable.
Qed.

Lemma buy_pack_raises_eq (k : Z) (p : Person.state) (g : RandomState) :
  ¬ drawable (Person.n_stickers p) k →
  Person.buy_pack k p g
  = (Raise ValueError,
     Person.mk (Person.album p) (Person.repeats p) (Person.is_finished p)
               (Person.money_spent p + 1) (Person.n_stickers p),
     g).
Proof.
  intros Hno. unfold Person.buy_pack. simpl. by rewrite (choice_raises _ _ _ Hno).
Qed.

(** X2.  With a negative pack size, or a positive pack size and an album
    size that is not positive, [buy_pack] raises [ValueError]; the money is
    already spent, nothing else of the person has changed and no draw was
    made. *)
Theorem buy_pack_raises (k : Z) (p : Person.state) (g : RandomState) :
  ¬ drawable (Person.n_stickers p) k →
  Person.buy_pack k p g
  = (Raise ValueError,
     Person.mk (Person.album p) (Person.repeats p) (Person.is_finished p)
               (Person.money_spent p + 1) (Person.n_stickers p),
     g).
Proof.
  apply buy_pack_raises_eq.
Qed.

Lemma call_keeps_repeats_in_album (p q : Person.state) :
  Person.call p q →
  Economy.can_give p ⊆ Person.album p → Economy.can_give q ⊆ Person.album q.
Proof.
  intros [k self g|giving receiving self] Hinv.
  - unfold Person.after_buy_pack.
    destruct (buy_pack_cases k self g) as [(e & g' & ->)|(_ & _ & ->)]; simpl; [done|].
    set (l := sample _ _ _). set (p1 := Person.set_money_spent _ _).
    destruct (finished_fields (foldl Person.add_sticker p1 l)) as (Ha & Hr & _).
    unfold Economy.can_give. rewrite Ha, Hr.
    fold (Economy.can_give (foldl Person.add_sticker p1 l)).
    assert (Economy.can_give p1 ⊆ Person.album p1) as Hinv1 by done.
    clearbody p1 l. clear Ha Hr. revert p1 Hinv1.
    induction l as [|s l IH]; intros p1 Hinv1; simpl; [done|].
    apply IH. unfold Person.add_sticker.
    destruct (decide (s ∉ Person.album p1)) as [Hs|Hs]; simpl.
    + unfold Economy.can_give in *. simpl. set_solver.
    + apply dec_stable in Hs. intros x Hx%elem_of_can_give. simpl in Hx.
      destruct (decide (x = s)) as [->|Hne]; [done|].
      apply Hinv1, elem_of_can_give. unfold getitem in *.
      by rewrite lookup_insert_ne in Hx.
  - rewrite update_collection_album. intros x Hx%elem_of_can_give.
    rewrite update_collection_getitem in Hx.
    apply elem_of_union. left. apply Hinv, elem_of_can_give. case_decide; lia.
Qed.

(** X3.  Every sticker a collector holds with a positive repeat count is in
    its album: this holds when the constructor returns and after every
    sequence of [buy_pack] and [update_collection] calls, whatever their
    arguments. *)
Theorem repeats_are_in_album (p0 p : Person.state) :
  Person.constructed p0 → rtc Person.call p0 p →
  Economy.can_give p ⊆ Person.album p.
Proof.
  intros (endowment & n & g & g' & Hinit) Hcalls.
  assert (Economy.can_give p0 ⊆ Person.album p0) as Hinv.
  { assert (p0 = Person.after_buy_pack endowment (Person.fresh_state n) g) as ->.
    { unfold Person.after_buy_pack. unfold Person.init in Hinit. by rewrite Hinit. }
    apply (call_keeps_repeats_in_album (Person.fresh_state n)); [constructor|].
    intros x Hx%elem_of_can_give. unfold getitem in Hx. simpl in Hx.
    rewrite lookup_empty in Hx. simpl in Hx. lia. }
  clear Hinit. induction Hcalls as [|p1 p2 p3 Hcall _ IH]; [done|].
  apply IH. by eapply call_keeps_repeats_in_album.
Qed.

Lemma init_drawable (endowment n : Z) (g : RandomState) :
  drawable n endowment →
  ∃ p, Person.init endowment n g = (Ok tt, p, advance (Z.to_nat endowment) g) ∧
       Person.money_spent p = 1 ∧
       Person.n_stickers p = n ∧
       holdings p = endowment ∧
       Person.album p = list_to_set (sample n (Z.to_nat endowment) g) ∧
       (Person.is_finished p = true ↔ Z.of_nat (size (Person.album p)) = n).
Proof.
  intros Hd. unfold Person.init.
  destruct (buy_pack_drawable endowment (Person.fresh_state n) g Hd)
    as (p & Hbuy & Hh & Ha & Hm & Hn).
  exists p. split; [done|]. split; [done|]. split; [done|]. split; [|split].
  - rewrite Hh. assert (holdings (Person.fresh_state n) = 0) as -> by reflexivity.
    lia.
  - rewrite Ha. simpl. set_solver.
  - assert (Person.constructed p) as Hc.
    { by exists endowment, n, g, (advance (Z.to_nat endowment) g). }
    apply constructed_invariant in Hc as (_ & Hiff). simpl in Hn. by rewrite <- Hn.
Qed.

(** X4.  When the first pack can be drawn, the constructor returns a
    collector that has spent one unit, holds exactly [endowment] stickers,
    has the stickers drawn as its album, and is finished if and only if the
    album is full. *)
Theorem constructor_endows (endowment n : Z) (g : RandomState) :
  drawable n endowment →
  ∃ p, Person.init endowment n g = (Ok tt, p, advance (Z.to_nat endowment) g) ∧
       Person.money_spent p = 1 ∧
       Person.n_stickers p = n ∧
       holdings p = endowment ∧
       Person.album p = list_to_set (sample n (Z.to_nat endowment) g) ∧
       (Person.is_finished p = true ↔ Z.of_nat (size (Person.album p)) = n).
Proof.
  apply init_drawable.
Qed.

(** X5.  [update_collection] adds the received stickers to the album and
    takes one from the repeat count of each sticker given: the person holds
    as many more stickers as it received new ones, less the number given;
    the money spent does not change. *)
Theorem update_collection_settles (giving receiving : gset Z) (p : Person.state) :
  Person.album (Person.update_collection giving receiving p)
    = Person.album p ∪ receiving ∧
  (∀ k, getitem (Person.repeats (Person.update_collection giving receiving p)) k
        = if decide (k ∈ giving) then getitem (Person.repeats p) k - 1
          else getitem (Person.repeats p) k) ∧
  holdings (Person.update_collection giving receiving p)
    = holdings p + Z.of_nat (size (receiving ∖ Person.album p))
      - Z.of_nat (size giving) ∧
  Person.money_spent (Person.update_collection giving receiving p)
    = Person.money_spent p.
Proof.
  split; [apply update_collection_album|].
  split; [apply update_collection_getitem|].
  split; [apply holdings_update_collection|apply update_collection_money].
Qed.

(** * Further properties of [Economy.trade] *)

Lemma can_receive_new (p other : Person.state) :
  can_receive p other ∖ Person.album p = can_receive p other.
Proof. unfold can_receive. set_solver. Qed.

(** X6.  A trade is a barter between two collectors: whether it executes or
    not, the two together hold as many stickers as before, neither spends
    money, no draw is made and no other object changes; when it executes,
    each one's holdings grow by what it received less what it gave. *)
Theorem trade_is_barter (w : World) (a b : loc) (pa pb : Person.state) :
  a ≠ b → heap w !! a = Some pa → heap w !! b = Some pb →
  ∃ traded w' pa' pb',
    Economy.trade a b w = (Ok (traded, a, b), w') ∧
    heap w' !! a = Some pa' ∧ heap w' !! b = Some pb' ∧
    holdings pa' + holdings pb' = holdings pa + holdings pb ∧
    (traded = true →
       holdings pa' = holdings pa + Z.of_nat (size (can_receive pa pb))
                      - Z.of_nat (size (can_receive pb pa))) ∧
    Person.money_spent pa' = Person.money_spent pa ∧
    Person.money_spent pb' = Person.money_spent pb ∧
    rng w' = rng w ∧ trace w' = trace w ∧ stdout w' = stdout w ∧
    ∀ l, l ≠ a → l ≠ b → heap w' !! l = heap w !! l.
Proof.
  intros Hne Ha Hb. rewrite (trade_unfold w a b pa pb Ha Hb).
  destruct (decide (can_receive pa pb ≠ ∅ ∧ can_receive pb pa ≠ ∅)) as [Hyes|Hno].
  - destruct (settle_distinct a b pa pb (heap w) Hne Hb) as (Ha' & Hb' & Hframe).
    eexists _, _, _, _. split; [done|]. simpl.
    split; [exact Ha'|]. split; [exact Hb'|].
    rewrite !holdings_update_collection, !can_receive_new, !update_collection_money.
    repeat split; try done; lia.
  - eexists _, _, _, _. split; [done|]. split; [exact Ha|]. split; [exact Hb|].
    repeat split; try done.
Qed.

Lemma settle_comm (a b : loc) (pa pb : Person.state) (h : gmap loc Person.state) :
  a ≠ b → h !! a = Some pa → h !! b = Some pb →
  settle b a pb pa h = settle a b pa pb h.
Proof.
  intros Hne Ha Hb. unfold settle. simpl.
  rewrite (lookup_insert_ne _ a b) by done.
  rewrite (lookup_insert_ne _ b a) by done. rewrite Ha, Hb. simpl.
  by apply insert_insert_ne.
Qed.

(** X7.  The outcome of a trade does not depend on which of the two
    collectors is passed first: [trade(b, a)] returns the same flag and
    leaves the same world as [trade(a, b)]. *)
Theorem trade_is_symmetric (w : World) (a b : loc) (pa pb : Person.state) :
  heap w !! a = Some pa → heap w !! b = Some pb →
  ∃ traded w',
    Economy.trade a b w = (Ok (traded, a, b), w') ∧
    Economy.trade b a w = (Ok (traded, b, a), w').
Proof.
  intros Ha Hb. destruct (decide (a = b)) as [->|Hne].
  { rewrite Ha in Hb. injection Hb as <-.
    rewrite (trade_unfold w b b pa pa Ha Ha). case_decide; by eexists _, _. }
  rewrite (trade_unfold w a b pa pb Ha Hb), (trade_unfold w b a pb pa Hb Ha).
  destruct (decide (can_receive pa pb ≠ ∅ ∧ can_receive pb pa ≠ ∅)) as [Hyes|Hno].
  - rewrite decide_True by (by destruct Hyes).
    rewrite (settle_comm a b pa pb (heap w) Hne Ha Hb). by eexists _, _.
  - rewrite decide_False by (intros [? ?]; by apply Hno). by eexists _, _.
Qed.

Lemma can_give_update_collection giving receiving (p : Person.state) :
  Economy.can_give (Person.update_collection giving receiving p) ⊆ Economy.can_give p.
Proof.
  intros x Hx%elem_of_can_give. apply elem_of_can_give.
  rewrite update_collection_getitem in Hx. case_decide; lia.
Qed.

(** X8.  Two collectors have nothing left to trade right after a trade:
    whatever the first call of [trade(a, b)] did, a second call returns
    [False] and leaves the world as the first call left it. *)
Theorem trade_twice (w : World) (a b : loc) (pa pb : Person.state) :
  a ≠ b → heap w !! a = Some pa → heap w !! b = Some pb →
  ∃ traded w',
    Economy.trade a b w = (Ok (traded, a, b), w') ∧
    Economy.trade a b w' = (Ok (false, a, b), w').
Proof.
  intros Hne Ha Hb. rewrite (trade_unfold w a b pa pb Ha Hb).
  destruct (decide (can_receive pa pb ≠ ∅ ∧ can_receive pb pa ≠ ∅)) as [Hyes|Hno].
  - destruct (settle_distinct a b pa pb (heap w) Hne Hb) as (Ha' & Hb' & _).
    eexists _, _. split; [done|].
    erewrite trade_unfold; [|exact Ha'|exact Hb'].
    rewrite decide_False; [done|]. intros [Hrecv _]. apply Hrecv.
    apply set_eq. intros x. rewrite elem_of_empty. split; [|done].
    unfold can_receive at 1. rewrite elem_of_difference, update_collection_album.
    intros [Hx%can_give_update_collection Hnot]. apply Hnot.
    destruct (decide (x ∈ Person.album pa)); [by apply elem_of_union_l|].
    apply elem_of_union_r. unfold can_receive. by apply elem_of_difference.
  - eexists _, _. split; [done|].
    rewrite (trade_unfold w a b pa pb Ha Hb). by rewrite decide_False.
Qed.

(** * Further properties of the construction of an economy *)

Lemma returns_and {A} (c : M A) w (Q1 Q2 : A → World → Prop) :
  returns c w Q1 → returns c w Q2 → returns c w (λ a w', Q1 a w' ∧ Q2 a w').
Proof.
  intros (a & w' & Hc & H1) (a2 & w2 & Hc2 & H2). rewrite Hc in Hc2.
  injection Hc2 as <- <-. by exists a, w'.
Qed.

Lemma dict_set_elem {V} (d : list (string * V)) k v k' v' :
  (k', v') ∈ dict_set d k v → (k', v') ∈ d ∨ (k', v') = (k, v).
Proof.
  induction d as [|[k0 v0] d IH]; simpl.
  - intros ?%list_elem_of_singleton. by right.
  - destruct (decide (k = k0)) as [->|Hne].
    + intros [->|?]%elem_of_cons; [by right|left; by right].
    + intros [->|Hin]%elem_of_cons; [left; by left|].
      destruct (IH Hin); [left; by right|by right].
Qed.

Lemma create_people_fresh n n_friends endowment w :
  drawable n endowment →
  returns (Economy.create_people n n_friends endowment) w
    (λ members w',
       (∀ l p, heap w !! l = Some p → heap w' !! l = Some p) ∧
       (∀ id l, (id, l) ∈ members → heap w !! l = None)).
Proof.
  intros [He Hn]. unfold Economy.create_people.
  apply (returns_for_each_simple
           (λ members w',
              (∀ l p, heap w !! l = Some p → heap w' !! l = Some p) ∧
              (∀ id l, (id, l) ∈ members → heap w !! l = None))).
  - split; [done|]. by intros id l ?%elem_of_nil.
  - intros x members w1 _ (Hold & Hnew).
    apply returns_bind. eapply returns_mono; [by apply new_Person_constructs|].
    intros l w2 (Hfresh & p & g' & Hinit & Hh & _ & _). cbn beta.
    apply returns_ret.
    assert (heap w !! l = None) as Hl.
    { destruct (heap w !! l) as [q|] eqn:Hq; [|done].
      specialize (Hold _ _ Hq). congruence. }
    split.
    + intros l' q Hq. rewrite Hh. rewrite lookup_insert_ne; [by apply Hold|].
      intros <-. congruence.
    + intros id l' [Hin|[= -> ->]]%dict_set_elem; [by eapply Hnew|done].
Qed.

(** X9.  When the first pack can be drawn, [Economy.__init__] returns an
    economy with the keys [id0], [id1], ... in this order, one per friend,
    bound to distinct new [Person] objects, each of which has spent one unit
    and holds [starting_endowment] stickers; the objects that existed before
    are untouched, the configuration is stored as given, and [finishers] is
    empty, also when some friends are finished already. *)
Theorem economy_init_builds
    (n_friends starting_endowment n_randos stickers_per_pack n : Z) (w : World) :
  drawable n starting_endowment →
  ∃ self w',
    Economy.init n_friends starting_endowment n_randos stickers_per_pack n w
      = (Ok self, w') ∧
    self = Economy.mk n_friends n_randos stickers_per_pack ∅ n (Economy.members self) ∧
    dict_keys (Economy.members self)
      = Economy.member_id <$> seq 0 (Z.to_nat n_friends) ∧
    wf_economy self w' ∧
    (∀ id l, (id, l) ∈ Economy.members self →
       heap w !! l = None ∧
       ∃ p, heap w' !! l = Some p ∧ Person.constructed p ∧
            Person.money_spent p = 1 ∧ holdings p = starting_endowment) ∧
    (∀ l p, heap w !! l = Some p → heap w' !! l = Some p) ∧
    stdout w' = stdout w.
Proof.
  intros Hd. pose proof Hd as [He Hn].
  destruct (returns_and _ _ _ _
              (create_people_inv n n_friends starting_endowment w He Hn)
              (create_people_fresh n n_friends starting_endowment w Hd))
    as (members & w' & Hcreate & ((Hkeys & Hlocs & Hobj) & Hout & _) & Hold & Hnew).
  exists (Economy.mk n_friends n_randos stickers_per_pack ∅ n members), w'.
  split; [unfold Economy.init, bind; by rewrite Hcreate|]. simpl.
  split; [done|]. split; [done|].
  assert (∀ id l, (id, l) ∈ members →
            ∃ p, heap w' !! l = Some p ∧ Person.constructed p ∧
                 Person.money_spent p = 1 ∧ holdings p = starting_endowment ∧
                 Person.n_stickers p = n) as Hpeople.
  { intros id l Hin. destruct (Hobj id l Hin) as (p & g & g' & Hl & Hinit).
    exists p. split; [done|]. split; [by exists starting_endowment, n, g, g'|].
    destruct (init_drawable starting_endowment n g Hd)
      as (q & Hq & Hm & Hns & Hh & _).
    rewrite Hinit in Hq. injection Hq as -> _. done. }
  split; [|split; [|done]].
  - split; [|split; [done|]].
    + simpl. unfold dict_keys in Hkeys. rewrite Hkeys.
      apply NoDup_fmap_2; [|apply NoDup_seq].
      intros x y Hxy. apply (inj (String.append "id")) in Hxy.
      by apply (inj pretty) in Hxy.
    + simpl. intros id l Hin. destruct (Hpeople id l Hin) as (p & ? & _ & _ & _ & ?).
      eauto.
  - intros id l Hin. split; [by eapply Hnew|].
    destruct (Hpeople id l Hin) as (p & ? & ? & ? & ? & _). eauto.
Qed.

(** * Further properties of [Economy.__init__] and [run_simulation] *)

Lemma new_Person_raises endowment n w :
  ¬ drawable n endowment →
  ∃ w', new_Person endowment n w = (Raise ValueError, w') ∧
        ∀ l p, heap w !! l = Some p → heap w' !! l = Some p.
Proof.
  intros Hno.
  assert (heap w !! fresh (dom (heap w)) = None) as Hfresh.
  { apply not_elem_of_dom. apply is_fresh. }
  unfold new_Person, bind, alloc, call_buy_pack, bind, emit, deref.
  cbn [heap rng trace stdout]. rewrite lookup_insert_eq.
  cbn [heap rng trace stdout].
  rewrite (buy_pack_raises_eq endowment (Person.fresh_state n) (rng w) Hno).
  eexists. split; [done|]. cbn [heap]. intros l p Hl.
  rewrite !lookup_insert_ne; [done|congruence..].
Qed.

(** X10.  With at least one friend and a first pack that cannot be drawn (a
    negative endowment, or a positive one for an album without stickers),
    [Economy.__init__] raises [ValueError]: no economy is built, and the
    objects that existed before are untouched. *)
Theorem economy_init_raises
    (n_friends starting_endowment n_randos stickers_per_pack n : Z) (w : World) :
  1 ≤ n_friends → ¬ drawable n starting_endowment →
  ∃ w',
    Economy.init n_friends starting_endowment n_randos stickers_per_pack n w
      = (Raise ValueError, w') ∧
    ∀ l p, heap w !! l = Some p → heap w' !! l = Some p.
Proof.
  intros Hfriends Hno.
  destruct (new_Person_raises starting_endowment n w Hno) as (w' & Hnew & Hold).
  exists w'. split; [|done].
  unfold Economy.init, Economy.create_people.
  destruct (Z.to_nat n_friends) as [|k] eqn:Hk; [lia|].
  simpl. unfold bind. by rewrite Hnew.
Qed.

(** X11.  Without friends ([n_friends] zero or negative) [Economy.__init__]
    builds an economy without members and touches nothing, whatever the
    endowment, and [run_simulation] returns at round 0 without running a
    round, whatever the logging interval and the fuel. *)
Theorem economy_without_friends
    (n_friends starting_endowment n_randos stickers_per_pack n : Z)
    (rando_endowment n_logging : Z) (fuel : nat) (w : World) :
  n_friends ≤ 0 →
  Economy.init n_friends starting_endowment n_randos stickers_per_pack n w
    = (Ok (Economy.mk n_friends n_randos stickers_per_pack ∅ n []), w) ∧
  Economy.run_simulation fuel
      (Economy.mk n_friends n_randos stickers_per_pack ∅ n [])
      rando_endowment n_logging w
    = (Ok (Economy.mk n_friends n_randos stickers_per_pack ∅ n [], 0, 0), w).
Proof.
  intros Hfriends. split.
  - unfold Economy.init, Economy.create_people.
    by rewrite Z2Nat.nonpos by done.
  - unfold Economy.run_simulation, Economy.count_finished, bind. simpl.
    destruct fuel; simpl; by destruct (Z.ltb_spec 0 n_friends); [lia|].
Qed.

Section counting.
Import Economy.
Variables (self : Economy.state) (w : World).
Hypothesis wf : wf_economy self w.

Lemma count_finished_from (ms : list (string * loc)) (total : Z) :
  ms ⊆ members self →
  returns
    (for_each (dict_keys ms)
       (λ total p,
          let! person := members_getitem self p in
          let! s := deref person in
          ret (total + (if Person.is_finished s then 1 else 0))) total) w
    (λ total' w',
       total' = total + Z.of_nat (length (filter (finished_member w) ms)) ∧
       w' = w).
Proof.
  revert total. induction ms as [|[id l] ms IH]; intros total Hsub; simpl.
  { apply returns_ret. split; [lia|done]. }
  destruct wf as (Hkeys & _ & Hobj).
  assert ((id, l) ∈ members self) as Hin by (apply Hsub; by left).
  destruct (Hobj id l Hin) as (p & Hl & _).
  apply returns_bind. apply returns_bind.
  eapply members_getitem_spec; [by apply dict_get_elem|].
  apply returns_bind. eapply deref_spec; [done|]. apply returns_ret.
  eapply returns_mono; [apply IH; intros x Hx; apply Hsub; by right|].
  intros total' w' [-> ->]. split; [|done]. rewrite filter_cons.
  destruct (decide (finished_member w (id, l))) as [(q & Hq & Hf)|Hnot]; simpl in *.
  - rewrite Hl in Hq. injection Hq as <-. rewrite Hf. lia.
  - destruct (Person.is_finished p) eqn:Hf; [|lia].
    destruct Hnot. by exists p.
Qed.

Lemma count_finished_spec :
  count_finished self w = (Ok (n_finished_of self w), w).
Proof.
  destruct (count_finished_from (members self) 0) as (t & w' & Heq & -> & ->);
    [done|].
  unfold count_finished, n_finished_of. rewrite Heq. do 2 f_equal.
Qed.

Lemma total_money_spent_from (ms : list (string * loc)) (total : Z) :
  ms ⊆ members self →
  returns
    (for_each (dict_keys ms)
       (λ total id,
          let! person := members_getitem self id in
          let! s := deref person in
          ret (total + Person.money_spent s)) total) w
    (λ total' w',
       total' = foldl (λ total kv,
                         total + from_option Person.money_spent 0 (heap w !! kv.2))
                      total ms ∧
       w' = w).
Proof.
  revert total. induction ms as [|[id l] ms IH]; intros total Hsub; simpl.
  { by apply returns_ret. }
  destruct wf as (Hkeys & _ & Hobj).
  assert ((id, l) ∈ members self) as Hin by (apply Hsub; by left).
  destruct (Hobj id l Hin) as (p & Hl & _).
  apply returns_bind. apply returns_bind.
  eapply members_getitem_spec; [by apply dict_get_elem|].
  apply returns_bind. eapply deref_spec; [done|]. apply returns_ret.
  eapply returns_mono; [apply IH; intros x Hx; apply Hsub; by right|].
  intros total' w' [-> ->]. by rewrite Hl.
Qed.

Lemma total_money_spent_spec :
  total_money_spent self w = (Ok (money_of self w), w).
Proof.
  destruct (total_money_spent_from (members self) 0) as (t & w' & Heq & -> & ->);
    [done|].
  unfold total_money_spent, money_of. by rewrite Heq.
Qed.

Lemma all_finished_when_counted :
  Z.of_nat (length (members self)) ≤ n_finished_of self w →
  ∀ kv, kv ∈ members self → finished_member w kv.
Proof.
  unfold n_finished_of. intros Hcount kv Hin.
  destruct (decide (finished_member w kv)) as [|Hnot]; [done|].
  pose proof (length_filter_lt (finished_member w) _ _ Hin Hnot). lia.
Qed.
End counting.

(** * The bookkeeping of [finishers] *)

Section frames.
Import Economy.
Implicit Types (w : World) (self : Economy.state) (h : gmap loc Person.state).
Implicit Types (X Y : gset loc).

Lemma keeps_refl X h : keeps X h h.
Proof. split; [|done]. intros l p Hl. by exists p. Qed.

Lemma keeps_trans X Y h1 h2 h3 :
  keeps X h1 h2 → keeps Y h2 h3 → keeps (X ∪ Y) h1 h3.
Proof.
  intros (Hm1 & Hs1) (Hm2 & Hs2). split.
  - intros l p Hl. destruct (Hm1 l p Hl) as (p2 & Hl2 & Hf2).
    destruct (Hm2 l p2 Hl2) as (p3 & Hl3 & Hf3). exists p3. auto.
  - intros l p Hl Hp. apply Hs2; [set_solver|]. apply Hs1; [set_solver|done].
Qed.

Lemma keeps_weaken X Y h h' : keeps X h h' → X ⊆ Y → keeps Y h h'.
Proof.
  intros (Hm & Hs) Hsub. split; [done|]. intros l p Hl. apply Hs. set_solver.
Qed.

Lemma keeps_purse X h h' :
  same_purse h h' → (∀ l p, l ∉ X → h !! l = Some p → h' !! l = Some p) →
  keeps X h h'.
Proof.
  intros Hp Hs. split; [|done]. intros l p Hl.
  destruct (Hp l p Hl) as (p' & ? & _ & _ & ?). by exists p'.
Qed.

Lemma keeps_insert h l p q :
  h !! l = Some p → (Person.is_finished p = true → Person.is_finished q = true) →
  keeps {[l]} h (<[l := q]> h).
Proof.
  intros Hl Hf. split.
  - intros l' p' Hl'. destruct (decide (l' = l)) as [->|Hne].
    + exists q. rewrite lookup_insert_eq. split; [done|].
      rewrite Hl in Hl'. by injection Hl' as <-.
    + exists p'. by rewrite lookup_insert_ne.
  - intros l' p' Hne Hl'. rewrite lookup_insert_ne; [done|set_solver].
Qed.

Lemma keeps_alloc h l q : h !! l = None → keeps ∅ h (<[l := q]> h).
Proof.
  intros Hl. split.
  - intros l' p' Hl'. exists p'. rewrite lookup_insert_ne; [done|congruence].
  - intros l' p' _ Hl'. rewrite lookup_insert_ne; [done|congruence].
Qed.

Lemma settle_frame a b pa pb h l :
  l ≠ a → l ≠ b → settle a b pa pb h !! l = h !! l.
Proof. intros Ha Hb. unfold settle. simpl. by rewrite !lookup_insert_ne. Qed.

Lemma call_trade_frame a b w pa pb :
  heap w !! a = Some pa → heap w !! b = Some pb →
  returns (call_trade a b) w
    (λ r w', ∃ traded : bool,
       r = (traded, a, b) ∧
       keeps (if traded then {[a; b]} else ∅) (heap w) (heap w')).
Proof.
  intros Ha Hb. unfold returns, call_trade, bind, deref. rewrite Ha, Hb.
  rewrite (trade_unfold w a b pa pb Ha Hb).
  destruct (decide (can_receive pa pb ≠ ∅ ∧ can_receive pb pa ≠ ∅)); simpl.
  - eexists _, _. split; [done|]. exists true. split; [done|]. simpl.
    apply keeps_purse; [by apply settle_same_purse|].
    intros l p Hl Hp. rewrite settle_frame; [done|set_solver|set_solver].
  - eexists _, _. split; [done|]. exists false. split; [done|]. simpl.
    apply keeps_refl.
Qed.

Lemma call_finished_frame l w p :
  heap w !! l = Some p →
  returns (call_finished l) w (λ _ w', keeps {[l]} (heap w) (heap w')).
Proof.
  intros Hl. eapply returns_eq.
  - unfold call_finished, bind, deref, store. by rewrite Hl.
  - simpl. apply (keeps_insert _ _ p); [done|].
    intros Hf. by rewrite finished_flag, Hf.
Qed.

Lemma call_buy_pack_frame l k w p :
  heap w !! l = Some p → 0 ≤ k → (0 < Person.n_stickers p ∨ k = 0) →
  returns (call_buy_pack l k) w (λ _ w', keeps {[l]} (heap w) (heap w')).
Proof.
  intros Hl Hk Hn. eapply returns_mono; [by apply (call_buy_pack_spec l k w p)|].
  intros _ w' (p' & -> & _ & _ & Hf & _). by apply (keeps_insert _ _ p).
Qed.

Lemma new_Person_frame endowment n w :
  0 ≤ endowment → (0 < n ∨ endowment = 0) →
  returns (new_Person endowment n) w
    (λ l w', heap w !! l = None ∧ is_Some (heap w' !! l) ∧
             keeps ∅ (heap w) (heap w')).
Proof.
  intros He Hn. unfold new_Person. apply returns_bind.
  eapply returns_eq; [done|]. apply returns_bind. simpl.
  set (l := fresh (dom (heap w))).
  assert (heap w !! l = None) as Hfresh.
  { apply not_elem_of_dom. apply is_fresh. }
  eapply returns_mono.
  { eapply (call_buy_pack_spec l endowment); [apply lookup_insert_eq|done|done]. }
  intros _ w' (p' & Hh & _). simpl in *. apply returns_ret.
  rewrite Hh, insert_insert_eq. split; [done|].
  split; [by rewrite lookup_insert_eq|]. by apply keeps_alloc.
Qed.
End frames.

Section finishers_steps.
Import Economy.
Implicit Types (w : World) (self : Economy.state).

Lemma update_member_exact self person_id person w p :
  heap w !! person = Some p →
  dict_get (members self) person_id = Some person →
  returns (update_member self person_id person) w
    (λ self' w',
       w' = w ∧ members self' = members self ∧
       ∀ l, l ∈ finishers self'
            ↔ l ∈ finishers self ∨ (l = person ∧ Person.is_finished p = true)).
Proof.
  intros Hl Hd. eapply returns_eq.
  - unfold update_member, bind, deref. rewrite Hl. done.
  - split; [done|]. destruct (Person.is_finished p); simpl;
      rewrite (dict_set_same _ _ _ Hd); (split; [done|]); intros l; set_solver.
Qed.

Lemma finishers_inv_weaken self0 (updated updated' : string → Prop) self w :
  (∀ id, updated' id → updated id) →
  finishers_inv self0 updated self w → finishers_inv self0 updated' self w.
Proof.
  intros Himp (Hm & Hsub & Hsound & Hcompl). repeat split; try done.
  intros id l p Hin Hup. apply (Hcompl id l p Hin). by apply Himp.
Qed.

(** One step of the bookkeeping: the objects in [touched] may have
    changed, [update_member] ran for those in [U]. *)
Lemma finishers_inv_step self0 (touched U : gset loc)
    (updated updated' : string → Prop) self self' w w' :
  (∀ id l, (id, l) ∈ members self0 → is_Some (heap w !! l)) →
  finishers_inv self0 updated self w →
  members self' = members self →
  keeps touched (heap w) (heap w') →
  (∀ l, l ∈ U → member_loc self0 l) →
  (∀ l, l ∈ finishers self'
        ↔ l ∈ finishers self
          ∨ (l ∈ U ∧ ∃ p, heap w' !! l = Some p ∧ Person.is_finished p = true)) →
  (∀ id l, (id, l) ∈ members self0 → updated' id →
           l ∈ U ∨ ((l ∉ touched) ∧ updated id)) →
  finishers_inv self0 updated' self' w'.
Proof.
  intros Halive (Hm & Hsub & Hsound & Hcompl) Hm' (Hmono & Hsame) HU Hfin Hup.
  split; [congruence|]. split; [|split].
  - intros l Hl. apply Hfin. left. by apply Hsub.
  - intros l [Hl|(Hl & Hp)]%Hfin.
    + destruct (Hsound l Hl) as [?|(Hml & p & Hp & Hf)]; [by left|]. right.
      split; [done|]. destruct (Hmono l p Hp) as (p' & ? & ?). exists p'. auto.
    + right. split; [by apply HU|done].
  - intros id l p Hin Hid Hl Hf. apply Hfin.
    destruct (Hup id l Hin Hid) as [Hl_U|(Hl_t & Hid0)].
    + right. split; [done|]. by exists p.
    + left. destruct (Halive id l Hin) as [p0 Hp0].
      pose proof (Hsame l p0 Hl_t Hp0) as Hp0'. rewrite Hl in Hp0'.
      injection Hp0' as ->. by apply (Hcompl id l p0).
Qed.

Lemma finishers_inv_idle self0 (updated : string → Prop) self w w' :
  (∀ id l, (id, l) ∈ members self0 → is_Some (heap w !! l)) →
  finishers_inv self0 updated self w →
  keeps ∅ (heap w) (heap w') →
  finishers_inv self0 updated self w'.
Proof.
  intros Halive Hfin Hk.
  apply (finishers_inv_step self0 ∅ ∅ updated updated self self w w' Halive Hfin
           eq_refl Hk).
  - intros l Hl. set_solver.
  - intros l. split; [by left|]. intros [?|[Hl _]]; [done|set_solver].
  - intros id l Hin Hid. right. split; [set_solver|done].
Qed.
End finishers_steps.

Section finishers_trading.
Import Economy.
Variables (self0 : Economy.state) (w0 : World).
Hypothesis wf0 : wf_economy self0 w0.

Lemma members_alive acc w :
  trading_inv self0 w0 acc w →
  ∀ id l, (id, l) ∈ members self0 → is_Some (heap w !! l).
Proof.
  intros (tr & _ & Hstep & _) id l Hin. pose proof wf0 as (Hkeys & _).
  destruct (member_alive self0 w0 wf0 tr w id l Hstep) as (p & Hp & _);
    [by apply dict_get_elem|by exists p].
Qed.

Lemma member_of_key id l : dict_get (members self0) id = Some l → member_loc self0 l.
Proof.
  intros Hd%dict_get_Some. by apply (list_elem_of_fmap_2 snd _ (id, l)).
Qed.

Lemma key_of_member id id' l l' :
  dict_get (members self0) id = Some l → (id', l') ∈ members self0 →
  l' ≠ l → id' ≠ id.
Proof.
  intros Hd Hin Hne ->. pose proof wf0 as (Hkeys & _).
  apply (dict_get_elem _ _ _ Hkeys) in Hin. congruence.
Qed.

Lemma trade_with_friends_finishers acc ids w :
  ids.1 ∈ dict_keys (members self0) → ids.2 ∈ dict_keys (members self0) →
  trading_inv self0 w0 acc w →
  finishers_inv self0 (λ id, id ∈ acc.2) acc.1 w →
  returns (trade_with_friends acc ids) w
    (λ acc' w', finishers_inv self0 (λ id, id ∈ acc'.2) acc'.1 w').
Proof.
  destruct acc as [self ht], ids as [id1 id2]. simpl.
  intros [l1 Hd1]%dict_get_key [l2 Hd2]%dict_get_key Hinv Hfin.
  pose proof (members_alive _ _ Hinv) as Halive.
  pose proof Hfin as (Hmem & _). simpl in Hmem.
  destruct (Halive id1 l1 (dict_get_Some _ _ _ Hd1)) as [p1 Hl1].
  destruct (Halive id2 l2 (dict_get_Some _ _ _ Hd2)) as [p2 Hl2].
  apply returns_bind. eapply members_getitem_spec; [by rewrite Hmem|].
  apply returns_bind. eapply members_getitem_spec; [by rewrite Hmem|].
  apply returns_bind. eapply deref_spec; [done|].
  apply returns_bind. eapply deref_spec; [done|].
  destruct (Person.is_finished p1 || Person.is_finished p2); [by apply returns_ret|].
  apply returns_bind. eapply returns_mono;
    [exact (call_trade_frame l1 l2 w p1 p2 Hl1 Hl2)|].
  intros r w1 (traded & -> & Hk1). destruct traded.
  - destruct (proj1 Hk1 l1 p1 Hl1) as (q1 & Hq1 & _).
    apply returns_bind. eapply returns_mono; [by apply (call_finished_frame l1 w1 q1)|].
    intros [] w2 Hk2. cbn beta.
    destruct (proj1 Hk1 l2 p2 Hl2) as (q2' & Hq2' & _).
    destruct (proj1 Hk2 l2 q2' Hq2') as (q2 & Hq2 & _).
    apply returns_bind. eapply returns_mono; [by apply (call_finished_frame l2 w2 q2)|].
    intros [] w3 Hk3. cbn beta.
    destruct (proj1 Hk2 l1 q1 Hq1) as (r1' & Hr1' & _).
    destruct (proj1 Hk3 l1 r1' Hr1') as (r1 & Hr1 & _).
    destruct (proj1 Hk3 l2 q2 Hq2) as (r2 & Hr2 & _).
    apply returns_bind. eapply returns_mono.
    { apply (update_member_exact self id1 l1 w3 r1); [done|by rewrite Hmem]. }
    intros self1 ? (-> & Hm1 & Hf1). cbn beta.
    apply returns_bind. eapply returns_mono.
    { apply (update_member_exact self1 id2 l2 w3 r2); [done|by rewrite Hm1, Hmem]. }
    intros self2 ? (-> & Hm2 & Hf2). cbn beta.
    apply returns_ret. simpl.
    apply (finishers_inv_step self0 {[l1; l2]} {[l1; l2]} (λ id, id ∈ ht) _
             self self2 w w3); try done.
    + congruence.
    + eapply keeps_weaken.
      * exact (keeps_trans _ _ _ _ _ Hk1 (keeps_trans _ _ _ _ _ Hk2 Hk3)).
      * set_solver.
    + intros l [->%elem_of_singleton| ->%elem_of_singleton]%elem_of_union;
        by eapply member_of_key.
    + intros l. rewrite Hf2, Hf1. split.
      * intros [[?|[-> ?]]|[-> ?]]; [by left|right..].
        -- split; [set_solver|]. by exists r1.
        -- split; [set_solver|]. by exists r2.
      * intros [?|([->%elem_of_singleton| ->%elem_of_singleton]%elem_of_union
                   & p & Hp & Hf)]; [by left; left|..].
        -- left. right. split; [done|]. congruence.
        -- right. split; [done|]. congruence.
    + intros id l Hin Hid.
      destruct (decide (l = l1)) as [->|Hne1]; [left; set_solver|].
      destruct (decide (l = l2)) as [->|Hne2]; [left; set_solver|].
      right. split; [set_solver|].
      pose proof (key_of_member _ _ _ _ Hd1 Hin Hne1).
      pose proof (key_of_member _ _ _ _ Hd2 Hin Hne2). set_solver.
  - apply returns_ret. simpl.
    exact (finishers_inv_idle self0 _ self w w1 Halive Hfin Hk1).
Qed.

Variable rando_endowment : Z.
Hypothesis endowment_nonneg : 0 ≤ rando_endowment.
Hypothesis album_positive : 0 < n_stickers self0.

Lemma trade_with_rando_finishers person_id person acc i w :
  dict_get (members self0) person_id = Some person →
  trading_inv self0 w0 acc w →
  finishers_inv self0 (λ id, id ∈ acc.2) acc.1 w →
  returns (trade_with_rando rando_endowment person_id person acc i) w
    (λ acc' w', finishers_inv self0 (λ id, id ∈ acc'.2) acc'.1 w').
Proof.
  destruct acc as [self ht]. simpl. intros Hd Hinv Hfin.
  pose proof (members_alive _ _ Hinv) as Halive.
  pose proof Hinv as (_ & (_ & Hns & _) & _). simpl in Hns.
  pose proof Hfin as (Hmem & _). simpl in Hmem.
  destruct (Halive person_id person (dict_get_Some _ _ _ Hd)) as [p Hl].
  unfold trade_with_rando.
  apply returns_bind. eapply returns_mono.
  { apply new_Person_frame; [done|]. left. by rewrite Hns. }
  intros rando w1 (Hfresh & [q Hq] & Hk1). cbn beta.
  destruct (proj1 Hk1 person p Hl) as (p' & Hl' & _).
  apply returns_bind. eapply returns_mono;
    [exact (call_trade_frame person rando w1 p' q Hl' Hq)|].
  intros r w2 (traded & -> & Hk2). destruct traded.
  - destruct (proj1 Hk2 person p' Hl') as (p2 & Hp2 & _).
    apply returns_bind. eapply returns_mono; [by apply (call_finished_frame person w2 p2)|].
    intros [] w3 Hk3. cbn beta.
    destruct (proj1 Hk3 person p2 Hp2) as (p3 & Hp3 & _).
    apply returns_bind. eapply returns_mono.
    { apply (update_member_exact self person_id person w3 p3); [done|by rewrite Hmem]. }
    intros self1 ? (-> & Hm1 & Hf1). cbn beta.
    apply returns_ret. simpl.
    apply (finishers_inv_step self0 {[person; rando]} {[person]} (λ id, id ∈ ht) _
             self self1 w w3); try done.
    + eapply keeps_weaken.
      * exact (keeps_trans _ _ _ _ _ Hk1
                 (keeps_trans _ _ _ _ _ Hk2 Hk3)).
      * set_solver.
    + intros l ->%elem_of_singleton. by eapply member_of_key.
    + intros l. rewrite Hf1. split.
      * intros [?|[-> ?]]; [by left|right]. split; [set_solver|]. by exists p3.
      * intros [?|(->%elem_of_singleton & p4 & Hp4 & Hf)]; [by left|].
        right. split; [done|]. congruence.
    + intros id l Hin Hid.
      destruct (decide (l = person)) as [->|Hne]; [left; set_solver|].
      right. split.
      * destruct (Halive id l Hin) as [? ?].
        assert (l ≠ rando) by congruence. set_solver.
      * pose proof (key_of_member _ _ _ _ Hd Hin Hne). set_solver.
  - apply returns_ret. simpl.
    apply (finishers_inv_idle self0 _ self w w2 Halive Hfin).
    eapply keeps_weaken; [exact (keeps_trans _ _ _ _ _ Hk1 Hk2)|set_solver].
Qed.

(** The invariant of the trading phases together with the bookkeeping. *)
Lemma trade_with_randos_finishers acc person_id w :
  person_id ∈ dict_keys (members self0) →
  trading_inv self0 w0 acc w ∧ finishers_inv self0 (λ id, id ∈ acc.2) acc.1 w →
  returns (trade_with_randos rando_endowment acc person_id) w
    (λ acc' w', trading_inv self0 w0 acc' w' ∧
                finishers_inv self0 (λ id, id ∈ acc'.2) acc'.1 w').
Proof.
  destruct acc as [self ht]. intros Hkey [Hinv Hfin].
  pose proof Hkey as [person Hd]%dict_get_key.
  pose proof Hinv as (tr & Hcfg & Hstep & _).
  simpl in Hcfg. pose proof Hcfg as (Hmem & _).
  destruct (member_alive self0 w0 wf0 tr w person_id person Hstep Hd) as (p & Hl & _).
  unfold trade_with_randos.
  apply returns_bind. eapply members_getitem_spec; [by rewrite Hmem|].
  apply returns_bind. eapply deref_spec; [done|].
  destruct (Person.is_finished p) eqn:Hf; [by apply returns_ret|].
  apply (returns_for_each_simple
           (λ acc' w', trading_inv self0 w0 acc' w' ∧
                       finishers_inv self0 (λ id, id ∈ acc'.2) acc'.1 w'));
    [done|].
  intros i acc' w' _ [Hinv' Hfin']. apply returns_and.
  - apply trade_with_rando_inv; try done.
    exact (unfinished_at_start self0 w0 tr w person p Hstep Hl Hf).
  - by apply trade_with_rando_finishers.
Qed.

Lemma trading_phases_finishers :
  returns (trading_phases self0 rando_endowment) w0
    (λ acc w, trading_inv self0 w0 acc w ∧
              finishers_inv self0 (λ id, id ∈ acc.2) acc.1 w).
Proof.
  unfold trading_phases. apply returns_bind. eapply returns_mono.
  - apply (returns_for_each_simple
             (λ acc w, trading_inv self0 w0 acc w ∧
                       finishers_inv self0 (λ id, id ∈ acc.2) acc.1 w)).
    + split; [by apply trading_inv_start|]. simpl.
      repeat split; try done. intros l Hl. by left.
    + intros [id1 id2] acc w [H1 H2]%combinations2_elem [Hinv Hfin].
      apply returns_and; [by apply trade_with_friends_inv|].
      by apply trade_with_friends_finishers.
  - intros acc w [Hinv Hfin]. cbn beta.
    pose proof Hinv as (tr & (Hmem & _) & _).
    apply (returns_for_each_simple
             (λ acc w, trading_inv self0 w0 acc w ∧
                       finishers_inv self0 (λ id, id ∈ acc.2) acc.1 w));
      [done|].
    intros id acc' w' Hid Hinv'. apply trade_with_randos_finishers; [|done].
    by rewrite <- Hmem.
Qed.
End finishers_trading.

Section finishers_buying.
Import Economy.
Variables (self0 : Economy.state) (w1 : World) (have_traded : gset string).
Hypothesis wf1 : wf_economy self0 w1.
Hypothesis album_positive : 0 < n_stickers self0.
Hypothesis pack_nonneg : 0 ≤ stickers_per_pack self0.

Lemma buy_if_not_traded_finishers pre x self w :
  x ∈ dict_keys (members self0) →
  buying_inv self0 w1 pre self w →
  finishers_inv self0 (λ id, id ∈ have_traded ∨ id ∈ pre) self w →
  returns (buy_if_not_traded self x) w
    (finishers_inv self0 (λ id, id ∈ have_traded ∨ id ∈ pre ++ [x])).
Proof.
  intros [lx Hdx]%dict_get_key (Hcfg & _ & tr & _ & _ & Hmem) Hfin.
  pose proof Hcfg as (Hmembers & _ & _ & Hpack & _).
  pose proof wf1 as (Hkeys & Hlocs & Hobj).
  pose proof (dict_get_Some _ _ _ Hdx) as Hinx.
  assert (∀ id l, (id, l) ∈ members self0 → is_Some (heap w !! l)) as Halive.
  { intros id l Hin. destruct (Hmem id l Hin) as (? & p & _ & Hp & _). by exists p. }
  destruct (Hmem x lx Hinx) as (p1 & p & Hl1 & Hl & Hn & _).
  destruct (Hobj x lx Hinx) as (p1' & Hl1' & Hn1). rewrite Hl1 in Hl1'.
  injection Hl1' as <-.
  unfold buy_if_not_traded.
  apply returns_bind. eapply members_getitem_spec; [by rewrite Hmembers|].
  apply returns_bind. eapply returns_mono.
  { apply (call_buy_pack_frame lx _ w p); [done|by rewrite Hpack|].
    left. by rewrite Hn, Hn1. }
  intros [] w2 Hk2. cbn beta.
  destruct (proj1 Hk2 lx p Hl) as (p2 & Hp2 & _).
  apply returns_bind. eapply returns_mono; [by apply (call_finished_frame lx w2 p2)|].
  intros [] w3 Hk3. cbn beta.
  destruct (proj1 Hk3 lx p2 Hp2) as (p3 & Hp3 & _).
  eapply returns_mono.
  { apply (update_member_exact self x lx w3 p3); [done|by rewrite Hmembers]. }
  intros self' ? (-> & Hm' & Hf').
  apply (finishers_inv_step self0 {[lx]} {[lx]}
           (λ id, id ∈ have_traded ∨ id ∈ pre) _ self self' w w3 Halive Hfin Hm').
  - eapply keeps_weaken; [exact (keeps_trans _ _ _ _ _ Hk2 Hk3)|set_solver].
  - intros l ->%elem_of_singleton. by apply (list_elem_of_fmap_2 snd _ (x, lx)).
  - intros l. rewrite Hf'. split.
    + intros [?|[-> ?]]; [by left|right]. split; [set_solver|]. by exists p3.
    + intros [?|(->%elem_of_singleton & p4 & Hp4 & Hf)]; [by left|].
      right. split; [done|]. congruence.
  - intros id l Hin Hid.
    destruct (decide (l = lx)) as [->|Hne]; [left; set_solver|].
    right. split; [set_solver|].
    destruct Hid as [?|[?|Hx%list_elem_of_singleton]%elem_of_app]; [by left|by right|].
    subst id. apply (dict_get_elem _ _ _ Hkeys) in Hin. congruence.
Qed.

Lemma buying_phase_finishers self1 :
  same_config self0 self1 →
  finishers_inv self0 (λ id, id ∈ have_traded) self1 w1 →
  returns
    (for_each (elements (list_to_set (dict_keys (members self1)) ∖ have_traded))
       buy_if_not_traded self1) w1
    (finishers_inv self0 (λ _, True)).
Proof.
  intros Hcfg Hfin. set (did_not_trade := _ ∖ _).
  eapply returns_mono.
  - apply (returns_for_each
             (λ pre self w,
                buying_inv self0 w1 pre self w ∧
                finishers_inv self0 (λ id, id ∈ have_traded ∨ id ∈ pre) self w)
             buy_if_not_traded (elements did_not_trade) [] self1 w1).
    + split; [by apply buying_inv_start|].
      eapply finishers_inv_weaken; [|done].
      intros id [?|?%elem_of_nil]; done.
    + intros pre x post self w Heq [Hinv Hfin']. simpl in Heq.
      pose proof (NoDup_elements did_not_trade) as Hnd. rewrite Heq in Hnd.
      apply NoDup_app in Hnd as (_ & Hpre & _).
      assert (x ∈ did_not_trade) as Hx.
      { apply elem_of_elements. rewrite Heq. apply elem_of_app. right. by left. }
      assert (x ∈ dict_keys (members self0)) as Hkey.
      { destruct Hcfg as (<- & _). unfold did_not_trade in Hx.
        apply elem_of_difference in Hx as [Hx _]. by apply elem_of_list_to_set in Hx. }
      apply returns_and.
      * apply buy_if_not_traded_inv; try done.
        intros Hin. apply (Hpre x Hin). by left.
      * by apply buy_if_not_traded_finishers.
  - intros self w [Hinv Hfin']. simpl in Hfin'.
    pose proof Hfin' as (Hm & Hsub & Hsound & Hcompl). repeat split; try done.
    intros id l p Hin _. apply (Hcompl id l p Hin).
    destruct (decide (id ∈ have_traded)) as [?|Hnot]; [by left|right].
    apply elem_of_elements, elem_of_difference. split; [|done].
    apply elem_of_list_to_set. destruct Hcfg as (-> & _).
    by apply (list_elem_of_fmap_2 fst _ (id, l)).
Qed.
End finishers_buying.

(** After a round the set [finishers] holds what it held before and every
    member that is finished. *)
Lemma round_finishers (self : Economy.state) (w : World) (rando_endowment : Z) :
  wf_economy self w →
  0 < Economy.n_stickers self →
  0 ≤ Economy.stickers_per_pack self →
  0 ≤ rando_endowment →
  returns (Economy.round_of_trade self rando_endowment) w
    (λ self' w',
       ∀ l, l ∈ Economy.finishers self'
            ↔ l ∈ Economy.finishers self ∨ finished_loc self w' l).
Proof.
  intros Hwf Hn Hpack Hrando. unfold Economy.round_of_trade.
  apply returns_bind. eapply returns_mono.
  { by apply trading_phases_finishers. }
  intros [self1 have_traded] w1 [(tr & Hcfg & Hstep & _) Hfin]. simpl in Hcfg, Hfin.
  pose proof (wf_economy_after_trading _ _ _ _ Hwf Hstep) as Hwf1.
  eapply returns_mono.
  { by apply (buying_phase_finishers self w1 have_traded Hwf1 Hn Hpack self1). }
  intros self2 w2 (Hm & Hsub & Hsound & Hcompl). intros l. split.
  - apply Hsound.
  - intros [Hl|(Hml & p & Hp & Hf)]; [by apply Hsub|].
    apply list_elem_of_fmap in Hml as ([id l'] & -> & Hin).
    by apply (Hcompl id l' p).
Qed.

(** X14.  A round of trade on a well-formed economy, with a positive album
    size and non-negative pack sizes, returns, and afterwards
    [self.finishers] holds exactly what it held before the round together
    with every member that is finished after the round: no finished friend
    is missing from it, whether it finished in this round or earlier. *)
Theorem finishers_after_round
    (self : Economy.state) (w : World) (rando_endowment : Z) :
  wf_economy self w →
  0 < Economy.n_stickers self →
  0 ≤ Economy.stickers_per_pack self →
  0 ≤ rando_endowment →
  ∃ self' w',
    Economy.round_of_trade self rando_endowment w = (Ok self', w') ∧
    Economy.members self' = Economy.members self ∧
    ∀ l, l ∈ Economy.finishers self'
         ↔ l ∈ Economy.finishers self ∨ finished_loc self w' l.
Proof.
  intros Hwf Hn Hpack Hrando.
  destruct (round_finishers self w rando_endowment Hwf Hn Hpack Hrando)
    as (self' & w' & Hround & Hfin).
  destruct (round_of_trade_spec self w rando_endowment Hwf Hn Hpack Hrando)
    as (self2 & w2 & tr & Hround2 & _ & (Hm & _) & _).
  rewrite Hround in Hround2. injection Hround2 as <- <-.
  by exists self', w'.
Qed.

Lemma size_finishers (self : Economy.state) (w : World) :
  NoDup (Economy.members self).*2 →
  (∀ l, l ∈ Economy.finishers self ↔ finished_loc self w l) →
  Z.of_nat (size (Economy.finishers self)) = n_finished_of self w.
Proof.
  intros Hnd Hfin. unfold n_finished_of.
  assert (Economy.finishers self
          = list_to_set (filter (finished_member w) (Economy.members self)).*2)
    as ->.
  { apply set_eq. intros l. rewrite Hfin, elem_of_list_to_set, list_elem_of_fmap.
    unfold finished_loc, member_loc. rewrite list_elem_of_fmap. split.
    - intros ((kv & -> & Hin) & Hp). exists kv. split; [done|].
      by apply list_elem_of_filter.
    - intros (kv & -> & [Hp Hin]%list_elem_of_filter). split; [by exists kv|done]. }
  rewrite size_list_to_set, length_fmap; [done|].
  eapply sublist_NoDup; [done|]. apply fmap_sublist, sublist_filter.
Qed.

(** X15.  When [self.finishers] holds only finished members before a round
    (as it does after [__init__], which leaves it empty, and after every
    round), then after the round its size, the number [run_simulation]
    logs as the number of finishers, is the number of finished members,
    the number [run_simulation] compares with [n_friends]. *)
Theorem finishers_count_after_round
    (self : Economy.state) (w : World) (rando_endowment : Z) :
  wf_economy self w →
  0 < Economy.n_stickers self →
  0 ≤ Economy.stickers_per_pack self →
  0 ≤ rando_endowment →
  (∀ l, l ∈ Economy.finishers self → finished_loc self w l) →
  ∃ self' w',
    Economy.round_of_trade self rando_endowment w = (Ok self', w') ∧
    (∀ l, l ∈ Economy.finishers self' → finished_loc self' w' l) ∧
    Z.of_nat (size (Economy.finishers self')) = n_finished_of self' w'.
Proof.
  intros Hwf Hn Hpack Hrando Hsound.
  destruct (round_finishers self w rando_endowment Hwf Hn Hpack Hrando)
    as (self' & w' & Hround & Hfin).
  destruct (round_of_trade_spec self w rando_endowment Hwf Hn Hpack Hrando)
    as (self2 & w2 & tr & Hround2 & _ & (Hm & _) & Hwf' & _ & _ & Hkeep).
  rewrite Hround in Hround2. injection Hround2 as <- <-.
  exists self', w'. split; [done|].
  assert (∀ l, l ∈ Economy.finishers self' ↔ finished_loc self' w' l) as Hiff.
  { intros l. rewrite Hfin. unfold finished_loc, member_loc. rewrite Hm. split.
    - intros [Hl|?]; [|done]. destruct (Hsound l Hl) as (Hml & p & Hp & Hf).
      split; [done|]. apply list_elem_of_fmap in Hml as ([id l'] & -> & Hin).
      destruct (Hkeep id l' p Hin Hp) as (p' & Hp' & Hf' & _). exists p'. auto.
    - by right. }
  split; [intros l; by apply Hiff|]. apply size_finishers; [|done].
  by destruct Hwf' as (_ & ? & _).
Qed.

(** * Only [run_simulation] prints *)

Section quiet_facts.
Import Economy.

Lemma quiet_ret {A} (a : A) : quiet (ret a).
Proof. done. Qed.

Lemma quiet_raise {A} e : quiet (raise (A := A) e).
Proof. done. Qed.

Lemma quiet_bind {A B} (c : M A) (k : A → M B) :
  quiet c → (∀ a, quiet (k a)) → quiet (bind c k).
Proof.
  intros Hc Hk w. unfold bind. specialize (Hc w).
  destruct (c w) as [[a|e|why] w1]; simpl in *; [|done..].
  by rewrite Hk.
Qed.

Lemma quiet_for_each {A B} (l : list A) (body : B → A → M B) :
  (∀ acc x, quiet (body acc x)) → ∀ acc, quiet (for_each l body acc).
Proof.
  intros Hbody. induction l as [|x l IH]; intros acc; simpl.
  - apply quiet_ret.
  - apply quiet_bind; [apply Hbody|done].
Qed.

Lemma quiet_deref l : quiet (deref l).
Proof. intros w. unfold deref. by destruct (heap w !! l). Qed.

Lemma quiet_store l p : quiet (store l p).
Proof. done. Qed.

Lemma quiet_alloc p : quiet (alloc p).
Proof. done. Qed.

Lemma quiet_emit e : quiet (emit e).
Proof. done. Qed.

Lemma quiet_call_finished l : quiet (call_finished l).
Proof. apply quiet_bind; [apply quiet_deref|]. intros p. apply quiet_store. Qed.

Lemma quiet_call_update_collection l giving receiving :
  quiet (call_update_collection l giving receiving).
Proof. apply quiet_bind; [apply quiet_deref|]. intros p. apply quiet_store. Qed.

Lemma quiet_call_buy_pack l k : quiet (call_buy_pack l k).
Proof.
  apply quiet_bind; [apply quiet_emit|]. intros _.
  apply quiet_bind; [apply quiet_deref|]. intros p w.
  by destruct (Person.buy_pack k p (rng w)) as [[r q] g].
Qed.

Lemma quiet_new_Person endowment n : quiet (new_Person endowment n).
Proof.
  apply quiet_bind; [apply quiet_alloc|]. intros l.
  apply quiet_bind; [apply quiet_call_buy_pack|]. intros _. apply quiet_ret.
Qed.

Lemma quiet_members_getitem self id : quiet (members_getitem self id).
Proof. unfold members_getitem. by destruct (dict_get _ _). Qed.

Lemma quiet_trade a b : quiet (trade a b).
Proof.
  apply quiet_bind; [apply quiet_deref|]. intros p2.
  apply quiet_bind; [apply quiet_deref|]. intros p1.
  cbn beta zeta. destruct (bool_decide _ && bool_decide _); [|apply quiet_ret].
  apply quiet_bind; [apply quiet_call_update_collection|]. intros _.
  apply quiet_bind; [apply quiet_call_update_collection|]. intros _.
  apply quiet_ret.
Qed.

Lemma quiet_call_trade a b : quiet (call_trade a b).
Proof.
  apply quiet_bind; [apply quiet_deref|]. intros p1.
  apply quiet_bind; [apply quiet_deref|]. intros p2.
  apply quiet_bind; [apply quiet_trade|]. intros [[traded a'] b'].
  apply quiet_bind; [apply quiet_emit|]. intros _. apply quiet_ret.
Qed.

Lemma quiet_update_member self id l : quiet (update_member self id l).
Proof. apply quiet_bind; [apply quiet_deref|]. intros p. apply quiet_ret. Qed.

Lemma quiet_trade_with_friends acc ids : quiet (trade_with_friends acc ids).
Proof.
  destruct acc as [self ht], ids as [id1 id2]. unfold trade_with_friends.
  apply quiet_bind; [apply quiet_members_getitem|]. intros l1.
  apply quiet_bind; [apply quiet_members_getitem|]. intros l2.
  apply quiet_bind; [apply quiet_deref|]. intros p1.
  apply quiet_bind; [apply quiet_deref|]. intros p2.
  destruct (Person.is_finished p1 || Person.is_finished p2); [apply quiet_ret|].
  apply quiet_bind; [apply quiet_call_trade|]. intros [[[|] a] b]; [|apply quiet_ret].
  apply quiet_bind; [apply quiet_call_finished|]. intros _.
  apply quiet_bind; [apply quiet_call_finished|]. intros _.
  apply quiet_bind; [apply quiet_update_member|]. intros self1.
  apply quiet_bind; [apply quiet_update_member|]. intros self2.
  apply quiet_ret.
Qed.

Lemma quiet_trade_with_rando rando_endowment id l acc i :
  quiet (trade_with_rando rando_endowment id l acc i).
Proof.
  destruct acc as [self ht]. unfold trade_with_rando.
  apply quiet_bind; [apply quiet_new_Person|]. intros rando.
  apply quiet_bind; [apply quiet_call_trade|]. intros [[[|] a] b]; [|apply quiet_ret].
  apply quiet_bind; [apply quiet_call_finished|]. intros _.
  apply quiet_bind; [apply quiet_update_member|]. intros self1.
  apply quiet_ret.
Qed.

Lemma quiet_trade_with_randos rando_endowment acc id :
  quiet (trade_with_randos rando_endowment acc id).
Proof.
  destruct acc as [self ht]. unfold trade_with_randos.
  apply quiet_bind; [apply quiet_members_getitem|]. intros l.
  apply quiet_bind; [apply quiet_deref|]. intros p.
  destruct (Person.is_finished p); [apply quiet_ret|].
  apply quiet_for_each. intros acc i. apply quiet_trade_with_rando.
Qed.

Lemma quiet_buy_if_not_traded self id : quiet (buy_if_not_traded self id).
Proof.
  apply quiet_bind; [apply quiet_members_getitem|]. intros l.
  apply quiet_bind; [apply quiet_call_buy_pack|]. intros _.
  apply quiet_bind; [apply quiet_call_finished|]. intros _.
  apply quiet_update_member.
Qed.

Lemma quiet_round_of_trade self rando_endowment :
  quiet (round_of_trade self rando_endowment).
Proof.
  apply quiet_bind.
  - apply quiet_bind.
    + apply quiet_for_each. intros acc ids. apply quiet_trade_with_friends.
    + intros acc. apply quiet_for_each. intros acc' id.
      apply quiet_trade_with_randos.
  - intros [self1 ht]. apply quiet_for_each. intros acc id.
    apply quiet_buy_if_not_traded.
Qed.

Lemma quiet_create_people n n_friends endowment :
  quiet (create_people n n_friends endowment).
Proof.
  apply quiet_for_each. intros members i.
  apply quiet_bind; [apply quiet_new_Person|]. intros l. apply quiet_ret.
Qed.

Lemma quiet_init n_friends starting_endowment n_randos stickers_per_pack n :
  quiet (init n_friends starting_endowment n_randos stickers_per_pack n).
Proof.
  apply quiet_bind; [apply quiet_create_people|]. intros members. apply quiet_ret.
Qed.
End quiet_facts.

(** * The loop of [run_simulation] *)

(** X12.  When some friend is not finished and the logging interval is 0,
    [run_simulation] raises [ZeroDivisionError] on entering its loop, before
    any round: the world is left as it was. *)
Theorem run_simulation_zero_logging
    (fuel : nat) (self : Economy.state) (rando_endowment : Z) (w : World) :
  wf_economy self w →
  n_finished_of self w < Economy.n_friends self →
  Economy.run_simulation (S fuel) self rando_endowment 0 w
  = (Raise ZeroDivisionError, w).
Proof.
  intros Hwf Hcount. unfold Economy.run_simulation, bind.
  rewrite (count_finished_spec self w Hwf). simpl.
  destruct (Z.ltb_spec (n_finished_of self w) (Economy.n_friends self)); [done|lia].
Qed.

Lemma wf_economy_heap self w w' :
  heap w' = heap w → wf_economy self w → wf_economy self w'.
Proof. intros Hh (? & ? & Hobj). repeat split; try done. by rewrite Hh. Qed.

Lemma wf_economy_config self self' w :
  same_config self self' → wf_economy self w → wf_economy self' w.
Proof.
  intros (Hm & Hn & _) (? & ? & Hobj). rewrite <- Hm in *. repeat split; try done.
  intros id l Hin. destruct (Hobj id l Hin) as (p & ? & ?). exists p.
  split; [done|]. congruence.
Qed.

(** The logging step at the head of the loop body. *)
Lemma logging_step self w n_logging n_rounds :
  wf_economy self w → n_logging ≠ 0 →
  ∃ w',
    (if n_logging =? 0 then raise ZeroDivisionError
     else if n_rounds `mod` n_logging =? 0 then
       let n_finishers := Z.of_nat (size (Economy.finishers self)) in
       let! money_spent := Economy.total_money_spent self in
       do! print (FinishersLine n_rounds n_finishers) in
       print (MoneyLine n_rounds money_spent)
     else ret tt) w = (Ok tt, w') ∧
    heap w' = heap w ∧ trace w' = trace w ∧
    stdout w'
    = stdout w ++ (if n_rounds `mod` n_logging =? 0
                   then [FinishersLine n_rounds (Z.of_nat (size (Economy.finishers self)));
                         MoneyLine n_rounds (money_of self w)]
                   else []).
Proof.
  intros Hwf Hlog. destruct (Z.eqb_spec n_logging 0); [done|].
  destruct (n_rounds `mod` n_logging =? 0).
  - unfold bind. rewrite (total_money_spent_spec self w Hwf). simpl.
    eexists. split; [done|]. simpl. by rewrite <- app_assoc.
  - eexists. split; [done|]. by rewrite app_nil_r.
Qed.

Lemma run_loop_unfold fuel self rando_endowment n_logging n_rounds n_finished :
  Economy.run_loop fuel self rando_endowment n_logging n_rounds n_finished
  = if n_finished <? Economy.n_friends self then
      match fuel with
      | O => get_stuck OutOfFuel
      | S fuel =>
          do! (if n_logging =? 0 then raise ZeroDivisionError
               else if n_rounds `mod` n_logging =? 0 then
                 let n_finishers := Z.of_nat (size (Economy.finishers self)) in
                 let! money_spent := Economy.total_money_spent self in
                 do! print (FinishersLine n_rounds n_finishers) in
                 print (MoneyLine n_rounds money_spent)
               else ret tt) in
          let! self := Economy.round_of_trade self rando_endowment in
          let! n_finished := Economy.count_finished self in
          Economy.run_loop fuel self rando_endowment n_logging (n_rounds + 1)
            n_finished
      end
    else ret (self, n_rounds, n_finished).
Proof. by destruct fuel. Qed.

Lemma bind_ok {A B} (c : M A) (k : A → M B) w a w' :
  c w = (Ok a, w') → bind c k w = k a w'.
Proof. intros Hc. unfold bind. by rewrite Hc. Qed.

Lemma n_finished_of_le self w :
  n_finished_of self w ≤ Z.of_nat (length (Economy.members self)).
Proof.
  unfold n_finished_of.
  pose proof (length_filter (finished_member w) (Economy.members self)). lia.
Qed.

Lemma logged_rounds_0 n_logging n_rounds : logged_rounds n_logging n_rounds 0 = [].
Proof. done. Qed.

Lemma logged_rounds_cons n_logging n_rounds k :
  0 ≤ k →
  logged_rounds n_logging n_rounds (1 + k)
  = (if n_rounds `mod` n_logging =? 0 then [n_rounds] else [])
    ++ logged_rounds n_logging (n_rounds + 1) k.
Proof.
  intros Hk. unfold logged_rounds. rewrite seqZ_cons by lia.
  replace (Z.pred (1 + k)) with k by lia.
  replace (Z.succ n_rounds) with (n_rounds + 1) by lia.
  rewrite filter_cons. destruct (Z.eqb_spec (n_rounds `mod` n_logging) 0).
  - by rewrite decide_True.
  - by rewrite decide_False.
Qed.

Lemma logged_rounds_elem n_logging n_rounds k r :
  r ∈ logged_rounds n_logging n_rounds k →
  n_rounds ≤ r < n_rounds + k ∧ r `mod` n_logging = 0.
Proof.
  unfold logged_rounds. intros [Hmod Hin]%list_elem_of_filter.
  apply elem_of_seqZ in Hin. done.
Qed.

Lemma log_lines_app f m rounds rounds' :
  log_lines f m (rounds ++ rounds') = log_lines f m rounds ++ log_lines f m rounds'.
Proof. unfold log_lines. by rewrite fmap_app, concat_app. Qed.

Lemma log_lines_ext f m f' m' rounds :
  (∀ r, r ∈ rounds → f r = f' r ∧ m r = m' r) →
  log_lines f m rounds = log_lines f' m' rounds.
Proof.
  intros Hext. unfold log_lines. f_equal. apply list_fmap_ext.
  intros i r Hr%list_elem_of_lookup_2. by destruct (Hext r Hr) as [-> ->].
Qed.

Lemma all_members_finished self w :
  Economy.n_friends self = Z.of_nat (length (Economy.members self)) →
  ¬ n_finished_of self w < Economy.n_friends self →
  ∀ l, finished_loc self w l ↔ member_loc self l.
Proof.
  intros Hfriends Hge l. unfold finished_loc. split; [by intros [? _]|].
  intros Hml. split; [done|].
  apply list_elem_of_fmap in Hml as ([id l'] & -> & Hin).
  destruct (all_finished_when_counted self w) with (kv := (id, l'))
    as (q & Hq & Hf); [lia|done|]. by exists q.
Qed.

Section run_loop.
Variables (rando_endowment n_logging : Z).
Hypothesis endowment_nonneg : 0 ≤ rando_endowment.
Hypothesis logging_nonzero : n_logging ≠ 0.

Lemma run_loop_spec (fuel : nat) :
  ∀ (self : Economy.state) (w : World) (n_rounds : Z),
    wf_economy self w →
    0 < Economy.n_stickers self →
    0 ≤ Economy.stickers_per_pack self →
    Economy.n_friends self = Z.of_nat (length (Economy.members self)) →
    (∃ w', Economy.run_loop fuel self rando_endowment n_logging n_rounds
             (n_finished_of self w) w = (Stuck OutOfFuel, w')) ∨
    (∃ self' w' k,
       Economy.run_loop fuel self rando_endowment n_logging n_rounds
         (n_finished_of self w) w
       = (Ok (self', n_rounds + k, Economy.n_friends self), w') ∧
       0 ≤ k ≤ Z.of_nat fuel ∧
       same_config self self' ∧ wf_economy self' w' ∧
       (∀ id l p,
          (id, l) ∈ Economy.members self → heap w !! l = Some p →
          ∃ p', heap w' !! l = Some p' ∧ Person.is_finished p' = true ∧
                Person.money_spent p ≤ Person.money_spent p'
                ≤ Person.money_spent p + k) ∧
       (k = 0 → self' = self ∧ w' = w) ∧
       (0 < k → ∀ l, l ∈ Economy.finishers self'
                     ↔ l ∈ Economy.finishers self ∨ member_loc self l) ∧
       ∃ f m : Z → Z,
         f n_rounds = Z.of_nat (size (Economy.finishers self)) ∧
         m n_rounds = money_of self w ∧
         stdout w' = stdout w ++ log_lines f m (logged_rounds n_logging n_rounds k)).
Proof.
  assert (∀ self w n_rounds,
            Economy.n_friends self = Z.of_nat (length (Economy.members self)) →
            ¬ n_finished_of self w < Economy.n_friends self →
            ∃ self' w' k,
              ret (self, n_rounds, n_finished_of self w) w
              = (Ok (self', n_rounds + k, Economy.n_friends self), w') ∧
              k = 0 ∧
              same_config self self' ∧ (wf_economy self w → wf_economy self' w') ∧
              (∀ id l p,
                 (id, l) ∈ Economy.members self → heap w !! l = Some p →
                 ∃ p', heap w' !! l = Some p' ∧ Person.is_finished p' = true ∧
                       Person.money_spent p ≤ Person.money_spent p'
                       ≤ Person.money_spent p + k) ∧
              (k = 0 → self' = self ∧ w' = w) ∧
              (0 < k → ∀ l, l ∈ Economy.finishers self'
                            ↔ l ∈ Economy.finishers self ∨ member_loc self l) ∧
              ∃ f m : Z → Z,
                f n_rounds = Z.of_nat (size (Economy.finishers self)) ∧
                m n_rounds = money_of self w ∧
                stdout w'
                = stdout w ++ log_lines f m (logged_rounds n_logging n_rounds k))
    as Hdone.
  { intros self w n_rounds Hfriends Hge. exists self, w, 0. split.
    { pose proof (n_finished_of_le self w) as Hle.
      assert (n_finished_of self w = Economy.n_friends self) as -> by lia.
      by rewrite Z.add_0_r. }
    split; [done|]. split; [apply same_config_refl|]. split; [done|].
    split; [|split; [done|split; [lia|]]].
    - intros id l p Hin Hl.
      destruct (all_finished_when_counted self w) with (kv := (id, l))
        as (q & Hq & Hf); [lia|done|].
      simpl in Hq. rewrite Hl in Hq. injection Hq as <-.
      exists p. split; [done|]. split; [done|]. lia.
    - exists (λ _, Z.of_nat (size (Economy.finishers self))), (λ _, money_of self w).
      split; [done|]. split; [done|].
      by rewrite logged_rounds_0, app_nil_r. }
  induction fuel as [|fuel IH]; intros self w n_rounds Hwf Hn Hpack Hfriends;
    rewrite run_loop_unfold;
    destruct (Z.ltb_spec (n_finished_of self w) (Economy.n_friends self))
      as [Hlt|Hge].
  - left. by eexists.
  - right.
    destruct (Hdone self w n_rounds Hfriends)
      as (self' & w' & k & ? & -> & ? & Hwf' & ?); [lia|].
    exists self', w', 0. split; [done|]. split; [lia|]. split; [done|]. auto.
  - destruct (logging_step self w n_logging n_rounds Hwf logging_nonzero)
      as (w_log & Hlog & Hheap & _ & Hout).
    pose proof (wf_economy_heap self w w_log Hheap Hwf) as Hwf_log.
    destruct (round_of_trade_spec self w_log rando_endowment
                Hwf_log Hn Hpack endowment_nonneg)
      as (self1 & w1 & tr & Hround & _ & Hcfg & Hwf1 & _ & _ & Hfriends1).
    destruct (round_finishers self w_log rando_endowment
                Hwf_log Hn Hpack endowment_nonneg)
      as (self1' & w1' & Hround' & Hfin1).
    rewrite Hround in Hround'. injection Hround' as <- <-.
    pose proof (quiet_round_of_trade self rando_endowment w_log) as Hquiet.
    rewrite Hround in Hquiet. simpl in Hquiet.
    pose proof Hcfg as (Hmembers & Hns & _ & Hpk & Hnf).
    rewrite (bind_ok _ _ _ _ _ Hlog), (bind_ok _ _ _ _ _ Hround).
    rewrite (bind_ok _ _ _ _ _ (count_finished_spec self1 w1 Hwf1)).
    assert (∀ l, member_loc self1 l ↔ member_loc self l) as Hml.
    { intros l. unfold member_loc. by rewrite Hmembers. }
    destruct (IH self1 w1 (n_rounds + 1) Hwf1) as
      [(w' & Hstuck)|(self' & w' & k & Hrun & Hk & Hcfg' & Hwf' & Hall & Hzero
                      & Hfin & f & m & Hf & Hm & Hlines)];
      [lia|lia|congruence| |].
    + left. by exists w'.
    + right. exists self', w', (1 + k). split.
      { rewrite Hrun, Hnf. by rewrite Z.add_assoc. }
      split; [lia|]. split; [by eapply same_config_trans|]. split; [done|].
      split; [|split; [lia|split]].
      * intros id l p Hin Hl. rewrite <- Hheap in Hl.
        destruct (Hfriends1 id l p Hin Hl) as (p1 & Hl1 & _ & Hbuy & Hnobuy).
        rewrite <- Hmembers in Hin.
        destruct (Hall id l p1 Hin Hl1) as (p' & Hl' & Hf' & Hm').
        exists p'. split; [done|]. split; [done|].
        destruct (classic_traded tr l) as [Ht|Ht].
        -- destruct (Hnobuy Ht) as (_ & Hm1). lia.
        -- destruct (Hbuy Ht) as (_ & Hm1). lia.
      * intros _ l. destruct (decide (k = 0)) as [->|Hk0].
        -- destruct (Hzero eq_refl) as [-> ->]. rewrite Hfin1.
           assert (finished_loc self w1 l ↔ member_loc self l) as ->; [|done].
           split; [by intros [? _]|]. intros Hl. split; [done|].
           apply list_elem_of_fmap in Hl as ([id l'] & -> & Hin).
           pose proof Hin as Hin1. rewrite <- Hmembers in Hin1.
           destruct Hwf1 as (_ & _ & Hobj1).
           destruct (Hobj1 id l' Hin1) as (p1 & Hp1 & _).
           destruct (Hall id l' p1 Hin1 Hp1) as (p' & Hp' & Hf' & _).
           by exists p'.
        -- rewrite Hfin by lia. rewrite Hfin1, Hml. unfold finished_loc. tauto.
      * exists (λ r, if decide (r = n_rounds)
                     then Z.of_nat (size (Economy.finishers self)) else f r),
               (λ r, if decide (r = n_rounds) then money_of self w else m r).
        rewrite !decide_True by done. split; [done|]. split; [done|].
        rewrite Hlines, Hquiet, Hout, logged_rounds_cons, log_lines_app by lia.
        rewrite <- app_assoc. f_equal. f_equal.
        -- destruct (n_rounds `mod` n_logging =? 0); [|done].
           unfold log_lines. simpl. by rewrite !decide_True.
        -- apply log_lines_ext. intros r [Hr _]%logged_rounds_elem.
           rewrite !decide_False by lia. done.
  - right.
    destruct (Hdone self w n_rounds Hfriends)
      as (self' & w' & k & ? & -> & ? & Hwf' & ?); [lia|].
    exists self', w', 0. split; [done|]. split; [lia|]. split; [done|]. auto.
Qed.
End run_loop.

(** X13.  On a well-formed economy with a positive album size, non-negative
    pack sizes, a logging interval other than 0 and [n_friends] equal to the
    number of members, [run_simulation] never raises: it either needs more
    rounds than the fuel allows or returns, and when it returns every friend
    is finished, [n_finished] equals [n_friends], the members and the
    configuration are those it started with, and every friend has bought at
    most one pack per round run. *)
Theorem run_simulation_finishes
    (fuel : nat) (self : Economy.state) (rando_endowment n_logging : Z) (w : World) :
  wf_economy self w →
  0 < Economy.n_stickers self →
  0 ≤ Economy.stickers_per_pack self →
  0 ≤ rando_endowment →
  n_logging ≠ 0 →
  Economy.n_friends self = Z.of_nat (length (Economy.members self)) →
  (∃ w', Economy.run_simulation fuel self rando_endowment n_logging w
         = (Stuck OutOfFuel, w')) ∨
  (∃ self' w' n_rounds,
     Economy.run_simulation fuel self rando_endowment n_logging w
     = (Ok (self', n_rounds, Economy.n_friends self), w') ∧
     0 ≤ n_rounds ≤ Z.of_nat fuel ∧
     same_config self self' ∧ wf_economy self' w' ∧
     ∀ id l p,
       (id, l) ∈ Economy.members self → heap w !! l = Some p →
       ∃ p', heap w' !! l = Some p' ∧ Person.is_finished p' = true ∧
             Person.money_spent p ≤ Person.money_spent p'
             ≤ Person.money_spent p + n_rounds).
Proof.
  intros Hwf Hn Hpack Hrando Hlog Hfriends.
  unfold Economy.run_simulation, bind. rewrite (count_finished_spec self w Hwf).
  destruct (run_loop_spec rando_endowment n_logging Hrando Hlog fuel self w 0
              Hwf Hn Hpack Hfriends)
    as [(w' & Hstuck)|(self' & w' & k & Hrun & Hk & Hcfg & Hwf' & Hall & _)].
  - left. by exists w'.
  - right. exists self', w', k. by rewrite Hrun.
Qed.

(** X16.  On a well-formed economy with a positive album size, non-negative
    pack sizes, a logging interval other than 0 and [n_friends] equal to the
    number of members, [run_simulation] either needs more rounds than the
    fuel allows or returns; when it returns after at least one round,
    [self.finishers] holds what it held before together with every friend;
    when it returns without running a round (every friend was finished
    already) it changes nothing, so [self.finishers] is not filled in: after
    [__init__] it stays empty. *)
Theorem run_simulation_fills_finishers
    (fuel : nat) (self : Economy.state) (rando_endowment n_logging : Z) (w : World) :
  wf_economy self w →
  0 < Economy.n_stickers self →
  0 ≤ Economy.stickers_per_pack self →
  0 ≤ rando_endowment →
  n_logging ≠ 0 →
  Economy.n_friends self = Z.of_nat (length (Economy.members self)) →
  (∃ w', Economy.run_simulation fuel self rando_endowment n_logging w
         = (Stuck OutOfFuel, w')) ∨
  (∃ self' w' n_rounds,
     Economy.run_simulation fuel self rando_endowment n_logging w
     = (Ok (self', n_rounds, Economy.n_friends self), w') ∧
     (n_rounds = 0 → self' = self ∧ w' = w) ∧
     (0 < n_rounds →
      ∀ l, l ∈ Economy.finishers self'
           ↔ l ∈ Economy.finishers self ∨ member_loc self l)).
Proof.
  intros Hwf Hn Hpack Hrando Hlog Hfriends.
  unfold Economy.run_simulation, bind. rewrite (count_finished_spec self w Hwf).
  destruct (run_loop_spec rando_endowment n_logging Hrando Hlog fuel self w 0
              Hwf Hn Hpack Hfriends)
    as [(w' & Hstuck)|(self' & w' & k & Hrun & _ & _ & _ & _ & Hzero & Hfin & _)].
  - left. by exists w'.
  - right. exists self', w', k. by rewrite Hrun.
Qed.

(** X17.  On a well-formed economy with a positive album size, non-negative
    pack sizes, a logging interval other than 0 and [n_friends] equal to the
    number of members, [run_simulation] either needs more rounds than the
    fuel allows or returns; when it returns after [n_rounds] rounds it has
    printed, after what was printed before, two lines for each round [r] in
    [0, n_rounds) with [r % n_logging == 0], in order, and nothing else: the
    number of finishers and the total money spent.  The lines of round 0
    show the size of [self.finishers] and the money spent by the members as
    they were when the method was called. *)
Theorem run_simulation_log
    (fuel : nat) (self : Economy.state) (rando_endowment n_logging : Z) (w : World) :
  wf_economy self w →
  0 < Economy.n_stickers self →
  0 ≤ Economy.stickers_per_pack self →
  0 ≤ rando_endowment →
  n_logging ≠ 0 →
  Economy.n_friends self = Z.of_nat (length (Economy.members self)) →
  (∃ w', Economy.run_simulation fuel self rando_endowment n_logging w
         = (Stuck OutOfFuel, w')) ∨
  (∃ self' w' n_rounds (n_finishers money_spent : Z → Z),
     Economy.run_simulation fuel self rando_endowment n_logging w
     = (Ok (self', n_rounds, Economy.n_friends self), w') ∧
     n_finishers 0 = Z.of_nat (size (Economy.finishers self)) ∧
     money_spent 0 = money_of self w ∧
     stdout w'
     = stdout w
       ++ log_lines n_finishers money_spent (logged_rounds n_logging 0 n_rounds)).
Proof.
  intros Hwf Hn Hpack Hrando Hlog Hfriends.
  unfold Economy.run_simulation, bind. rewrite (count_finished_spec self w Hwf).
  destruct (run_loop_spec rando_endowment n_logging Hrando Hlog fuel self w 0
              Hwf Hn Hpack Hfriends)
    as [(w' & Hstuck)|(self' & w' & k & Hrun & _ & _ & _ & _ & _ & _
                       & f & m & Hf & Hm & Hout)].
  - left. by exists w'.
  - right. exists self', w', k, f, m. by rewrite Hrun.
Qed.

(** * The further properties at concrete inputs *)

(** X1 at [other_friend] buying a pack of one sticker. *)
Lemma buy_pack_draws_witness :
  drawable (Person.n_stickers other_friend) 1 ∧
  ∃ q, Person.buy_pack 1 other_friend (random_state_of [1])
       = (Ok tt, q, advance (Z.to_nat 1) (random_state_of [1])) ∧
       holdings q = holdings other_friend + 1 ∧
       Person.album q
       = Person.album other_friend
         ∪ list_to_set (sample (Person.n_stickers other_friend) (Z.to_nat 1)
                          (random_state_of [1])) ∧
       Person.money_spent q = Person.money_spent other_friend + 1 ∧
       Person.n_stickers q = Person.n_stickers other_friend.
Proof.
  assert (drawable (Person.n_stickers other_friend) 1) as Hk
    by (unfold drawable; simpl; lia).
  split; [exact Hk|].
  exact (buy_pack_draws 1 other_friend (random_state_of [1]) Hk).
Defined.

(** X2 at [other_friend] asked for a pack of minus one sticker. *)
Lemma buy_pack_raises_witness :
  ¬ drawable (Person.n_stickers other_friend) (-1) ∧
  Person.buy_pack (-1) other_friend (random_state_of [1])
  = (Raise ValueError,
     Person.mk (Person.album other_friend) (Person.repeats other_friend)
               (Person.is_finished other_friend)
               (Person.money_spent other_friend + 1)
               (Person.n_stickers other_friend),
     random_state_of [1]).
Proof.
  assert (¬ drawable (Person.n_stickers other_friend) (-1)) as Hk
    by (unfold drawable; simpl; lia).
  split; [exact Hk|].
  exact (buy_pack_raises (-1) other_friend (random_state_of [1]) Hk).
Defined.

(** X3 at [other_friend] after it bought a pack of one sticker. *)
Lemma repeats_are_in_album_witness :
  Person.constructed other_friend ∧
  rtc Person.call other_friend
    (Person.after_buy_pack 1 other_friend (random_state_of [1])) ∧
  Economy.can_give (Person.after_buy_pack 1 other_friend (random_state_of [1]))
    ⊆ Person.album (Person.after_buy_pack 1 other_friend (random_state_of [1])).
Proof.
  assert (rtc Person.call other_friend
            (Person.after_buy_pack 1 other_friend (random_state_of [1]))) as Hcalls.
  { apply rtc_once, Person.calls_buy_pack. }
  split; [exact other_friend_constructed|]. split; [exact Hcalls|].
  exact (repeats_are_in_album other_friend _ other_friend_constructed Hcalls).
Defined.

(** X4 for a first pack of two stickers of an album of two. *)
Lemma constructor_endows_witness :
  drawable 2 2 ∧
  ∃ p, Person.init 2 2 (random_state_of [0; 0])
       = (Ok tt, p, advance (Z.to_nat 2) (random_state_of [0; 0])) ∧
       Person.money_spent p = 1 ∧
       Person.n_stickers p = 2 ∧
       holdings p = 2 ∧
       Person.album p = list_to_set (sample 2 (Z.to_nat 2) (random_state_of [0; 0])) ∧
       (Person.is_finished p = true ↔ Z.of_nat (size (Person.album p)) = 2).
Proof.
  assert (drawable 2 2) as Hk by (unfold drawable; lia).
  split; [exact Hk|].
  exact (constructor_endows 2 2 (random_state_of [0; 0]) Hk).
Defined.

(** X6 at [alice] and [bob]. *)
Lemma trade_is_barter_witness :
  0%nat ≠ 1%nat ∧
  heap alice_and_bob !! 0%nat = Some alice ∧
  heap alice_and_bob !! 1%nat = Some bob ∧
  ∃ traded w' pa' pb',
    Economy.trade 0 1 alice_and_bob = (Ok (traded, 0%nat, 1%nat), w') ∧
    heap w' !! 0%nat = Some pa' ∧ heap w' !! 1%nat = Some pb' ∧
    holdings pa' + holdings pb' = holdings alice + holdings bob ∧
    (traded = true →
       holdings pa' = holdings alice + Z.of_nat (size (can_receive alice bob))
                      - Z.of_nat (size (can_receive bob alice))) ∧
    Person.money_spent pa' = Person.money_spent alice ∧
    Person.money_spent pb' = Person.money_spent bob ∧
    rng w' = rng alice_and_bob ∧ trace w' = trace alice_and_bob ∧
    stdout w' = stdout alice_and_bob ∧
    ∀ l, l ≠ 0%nat → l ≠ 1%nat → heap w' !! l = heap alice_and_bob !! l.
Proof.
  assert (0%nat ≠ 1%nat) as Hne by lia.
  split; [exact Hne|]. split; [reflexivity|]. split; [reflexivity|].
  exact (trade_is_barter alice_and_bob 0 1 alice bob Hne eq_refl eq_refl).
Defined.

(** X7 at [alice] and [bob]. *)
Lemma trade_is_symmetric_witness :
  heap alice_and_bob !! 0%nat = Some alice ∧
  heap alice_and_bob !! 1%nat = Some bob ∧
  ∃ traded w',
    Economy.trade 0 1 alice_and_bob = (Ok (traded, 0%nat, 1%nat), w') ∧
    Economy.trade 1 0 alice_and_bob = (Ok (traded, 1%nat, 0%nat), w').
Proof.
  split; [reflexivity|]. split; [reflexivity|].
  exact (trade_is_symmetric alice_and_bob 0 1 alice bob eq_refl eq_refl).
Defined.

(** X8 at [alice] and [bob]. *)
Lemma trade_twice_witness :
  0%nat ≠ 1%nat ∧
  heap alice_and_bob !! 0%nat = Some alice ∧
  heap alice_and_bob !! 1%nat = Some bob ∧
  ∃ traded w',
    Economy.trade 0 1 alice_and_bob = (Ok (traded, 0%nat, 1%nat), w') ∧
    Economy.trade 0 1 w' = (Ok (false, 0%nat, 1%nat), w').
Proof.
  assert (0%nat ≠ 1%nat) as Hne by lia.
  split; [exact Hne|]. split; [reflexivity|]. split; [reflexivity|].
  exact (trade_twice alice_and_bob 0 1 alice bob Hne eq_refl eq_refl).
Defined.

(** X9 for two friends with first packs of two stickers of an album of
    two. *)
Lemma economy_init_builds_witness :
  drawable 2 2 ∧
  ∃ self w',
    Economy.init 2 2 1 1 2 (empty_world [0; 1; 0; 0; 1; 1]) = (Ok self, w') ∧
    self = Economy.mk 2 1 1 ∅ 2 (Economy.members self) ∧
    dict_keys (Economy.members self) = Economy.member_id <$> seq 0 (Z.to_nat 2) ∧
    wf_economy self w' ∧
    (∀ id l, (id, l) ∈ Economy.members self →
       heap (empty_world [0; 1; 0; 0; 1; 1]) !! l = None ∧
       ∃ p, heap w' !! l = Some p ∧ Person.constructed p ∧
            Person.money_spent p = 1 ∧ holdings p = 2) ∧
    (∀ l p, heap (empty_world [0; 1; 0; 0; 1; 1]) !! l = Some p →
            heap w' !! l = Some p) ∧
    stdout w' = stdout (empty_world [0; 1; 0; 0; 1; 1]).
Proof.
  assert (drawable 2 2) as Hk by (unfold drawable; lia).
  split; [exact Hk|].
  exact (economy_init_builds 2 2 1 1 2 (empty_world [0; 1; 0; 0; 1; 1]) Hk).
Defined.

(** X10 for one friend and a first pack of minus one sticker. *)
Lemma economy_init_raises_witness :
  1 ≤ 1 ∧ ¬ drawable 2 (-1) ∧
  ∃ w',
    Economy.init 1 (-1) 5 5 2 alice_and_bob = (Raise ValueError, w') ∧
    ∀ l p, heap alice_and_bob !! l = Some p → heap w' !! l = Some p.
Proof.
  assert (1 ≤ 1) as Hfriends by lia.
  assert (¬ drawable 2 (-1)) as Hk by (unfold drawable; lia).
  split; [exact Hfriends|]. split; [exact Hk|].
  exact (economy_init_raises 1 (-1) 5 5 2 alice_and_bob Hfriends Hk).
Defined.

(** X11 for an economy of no friends. *)
Lemma economy_without_friends_witness :
  0 ≤ 0 ∧
  Economy.init 0 5 5 5 682 (empty_world []) = (Ok (Economy.mk 0 5 5 ∅ 682 []), empty_world []) ∧
  Economy.run_simulation 0 (Economy.mk 0 5 5 ∅ 682 []) 500 0 (empty_world [])
    = (Ok (Economy.mk 0 5 5 ∅ 682 [], 0, 0), empty_world []).
Proof.
  assert (0 ≤ 0) as Hfriends by lia.
  split; [exact Hfriends|].
  exact (economy_without_friends 0 5 5 5 682 500 0 0 (empty_world []) Hfriends).
Defined.

(** One of the two friends of [two_friends] is finished. *)
Lemma two_friends_unfinished :
  n_finished_of two_friends two_friends_world < Economy.n_friends two_friends.
Proof. by_computation. Qed.

Lemma two_friends_counted :
  Economy.n_friends two_friends = Z.of_nat (length (Economy.members two_friends)).
Proof. reflexivity. Qed.

(** X12 at the economy [two_friends]. *)
Lemma run_simulation_zero_logging_witness :
  wf_economy two_friends two_friends_world ∧
  n_finished_of two_friends two_friends_world < Economy.n_friends two_friends ∧
  Economy.run_simulation 1 two_friends 2 0 two_friends_world
  = (Raise ZeroDivisionError, two_friends_world).
Proof.
  split; [exact two_friends_wf|]. split; [exact two_friends_unfinished|].
  exact (run_simulation_zero_logging 0 two_friends 2 two_friends_world
           two_friends_wf two_friends_unfinished).
Defined.

(** X13 at the economy [two_friends], logging every round, for at most
    three rounds. *)
Lemma run_simulation_finishes_witness :
  wf_economy two_friends two_friends_world ∧
  0 < Economy.n_stickers two_friends ∧
  0 ≤ Economy.stickers_per_pack two_friends ∧
  0 ≤ 2 ∧ 1 ≠ 0 ∧
  Economy.n_friends two_friends = Z.of_nat (length (Economy.members two_friends)) ∧
  ((∃ w', Economy.run_simulation 3 two_friends 2 1 two_friends_world
          = (Stuck OutOfFuel, w')) ∨
   (∃ self' w' n_rounds,
      Economy.run_simulation 3 two_friends 2 1 two_friends_world
      = (Ok (self', n_rounds, Economy.n_friends two_friends), w') ∧
      0 ≤ n_rounds ≤ Z.of_nat 3 ∧
      same_config two_friends self' ∧ wf_economy self' w' ∧
      ∀ id l p,
        (id, l) ∈ Economy.members two_friends →
        heap two_friends_world !! l = Some p →
        ∃ p', heap w' !! l = Some p' ∧ Person.is_finished p' = true ∧
              Person.money_spent p ≤ Person.money_spent p'
              ≤ Person.money_spent p + n_rounds)).
Proof.
  assert (0 < Economy.n_stickers two_friends) as Hn by (simpl; lia).
  assert (0 ≤ Economy.stickers_per_pack two_friends) as Hpack by (simpl; lia).
  assert (0 ≤ 2) as Hrando by lia.
  assert (1 ≠ 0) as Hlog by lia.
  split; [exact two_friends_wf|]. split; [exact Hn|]. split; [exact Hpack|].
  split; [exact Hrando|]. split; [exact Hlog|]. split; [exact two_friends_counted|].
  exact (run_simulation_finishes 3 two_friends 2 1 two_friends_world
           two_friends_wf Hn Hpack Hrando Hlog two_friends_counted).
Defined.

(** X14 at the economy [two_friends], with strangers endowed with two
    stickers. *)
Lemma finishers_after_round_witness :
  wf_economy two_friends two_friends_world ∧
  0 < Economy.n_stickers two_friends ∧
  0 ≤ Economy.stickers_per_pack two_friends ∧
  0 ≤ 2 ∧
  ∃ self' w',
    Economy.round_of_trade two_friends 2 two_friends_world = (Ok self', w') ∧
    Economy.members self' = Economy.members two_friends ∧
    ∀ l, l ∈ Economy.finishers self'
         ↔ l ∈ Economy.finishers two_friends ∨ finished_loc two_friends w' l.
Proof.
  assert (0 < Economy.n_stickers two_friends) as Hn by (simpl; lia).
  assert (0 ≤ Economy.stickers_per_pack two_friends) as Hpack by (simpl; lia).
  assert (0 ≤ 2) as Hrando by lia.
  split; [exact two_friends_wf|]. split; [exact Hn|]. split; [exact Hpack|].
  split; [exact Hrando|].
  exact (finishers_after_round two_friends two_friends_world 2
           two_friends_wf Hn Hpack Hrando).
Defined.

(** The set [finishers] of [two_friends] is empty. *)
Lemma two_friends_no_finishers :
  ∀ l, l ∈ Economy.finishers two_friends →
       finished_loc two_friends two_friends_world l.
Proof. intros l Hl. simpl in Hl. by apply not_elem_of_empty in Hl. Qed.

(** X15 at the economy [two_friends]. *)
Lemma finishers_count_after_round_witness :
  wf_economy two_friends two_friends_world ∧
  0 < Economy.n_stickers two_friends ∧
  0 ≤ Economy.stickers_per_pack two_friends ∧
  0 ≤ 2 ∧
  (∀ l, l ∈ Economy.finishers two_friends →
        finished_loc two_friends two_friends_world l) ∧
  ∃ self' w',
    Economy.round_of_trade two_friends 2 two_friends_world = (Ok self', w') ∧
    (∀ l, l ∈ Economy.finishers self' → finished_loc self' w' l) ∧
    Z.of_nat (size (Economy.finishers self')) = n_finished_of self' w'.
Proof.
  assert (0 < Economy.n_stickers two_friends) as Hn by (simpl; lia).
  assert (0 ≤ Economy.stickers_per_pack two_friends) as Hpack by (simpl; lia).
  assert (0 ≤ 2) as Hrando by lia.
  split; [exact two_friends_wf|]. split; [exact Hn|]. split; [exact Hpack|].
  split; [exact Hrando|]. split; [exact two_friends_no_finishers|].
  exact (finishers_count_after_round two_friends two_friends_world 2
           two_friends_wf Hn Hpack Hrando two_friends_no_finishers).
Defined.

(** X16 at the economy [two_friends], for at most three rounds. *)
Lemma run_simulation_fills_finishers_witness :
  wf_economy two_friends two_friends_world ∧
  0 < Economy.n_stickers two_friends ∧
  0 ≤ Economy.stickers_per_pack two_friends ∧
  0 ≤ 2 ∧ 1 ≠ 0 ∧
  Economy.n_friends two_friends = Z.of_nat (length (Economy.members two_friends)) ∧
  ((∃ w', Economy.run_simulation 3 two_friends 2 1 two_friends_world
          = (Stuck OutOfFuel, w')) ∨
   (∃ self' w' n_rounds,
      Economy.run_simulation 3 two_friends 2 1 two_friends_world
      = (Ok (self', n_rounds, Economy.n_friends two_friends), w') ∧
      (n_rounds = 0 → self' = two_friends ∧ w' = two_friends_world) ∧
      (0 < n_rounds →
       ∀ l, l ∈ Economy.finishers self'
            ↔ l ∈ Economy.finishers two_friends ∨ member_loc two_friends l))).
Proof.
  assert (0 < Economy.n_stickers two_friends) as Hn by (simpl; lia).
  assert (0 ≤ Economy.stickers_per_pack two_friends) as Hpack by (simpl; lia).
  assert (0 ≤ 2) as Hrando by lia.
  assert (1 ≠ 0) as Hlog by lia.
  split; [exact two_friends_wf|]. split; [exact Hn|]. split; [exact Hpack|].
  split; [exact Hrando|]. split; [exact Hlog|]. split; [exact two_friends_counted|].
  exact (run_simulation_fills_finishers 3 two_friends 2 1 two_friends_world
           two_friends_wf Hn Hpack Hrando Hlog two_friends_counted).
Defined.

(** X17 at the economy [two_friends], logging every second round, for at
    most three rounds. *)
Lemma run_simulation_log_witness :
  wf_economy two_friends two_friends_world ∧
  0 < Economy.n_stickers two_friends ∧
  0 ≤ Economy.stickers_per_pack two_friends ∧
  0 ≤ 2 ∧ 2 ≠ 0 ∧
  Economy.n_friends two_friends = Z.of_nat (length (Economy.members two_friends)) ∧
  ((∃ w', Economy.run_simulation 3 two_friends 2 2 two_friends_world
          = (Stuck OutOfFuel, w')) ∨
   (∃ self' w' n_rounds (n_finishers money_spent : Z → Z),
      Economy.run_simulation 3 two_friends 2 2 two_friends_world
      = (Ok (self', n_rounds, Economy.n_friends two_friends), w') ∧
      n_finishers 0 = Z.of_nat (size (Economy.finishers two_friends)) ∧
      money_spent 0 = money_of two_friends two_friends_world ∧
      stdout w'
      = stdout two_friends_world
        ++ log_lines n_finishers money_spent (logged_rounds 2 0 n_rounds))).
Proof.
  assert (0 < Economy.n_stickers two_friends) as Hn by (simpl; lia).
  assert (0 ≤ Economy.stickers_per_pack two_friends) as Hpack by (simpl; lia).
  assert (0 ≤ 2) as Hrando by lia.
  assert (2 ≠ 0) as Hlog by lia.
  split; [exact two_friends_wf|]. split; [exact Hn|]. split; [exact Hpack|].
  split; [exact Hrando|]. split; [exact Hlog|]. split; [exact two_friends_counted|].
  exact (run_simulation_log 3 two_friends 2 2 two_friends_world
           two_friends_wf Hn Hpack Hrando Hlog two_friends_counted).
Defined.

(** * Trade attempts and finished friends *)

Section attempts_facts.
Variable self : Economy.state.
Implicit Types (tr pre post : list event) (e : event) (l : loc).

Lemma snoc_split tr e pre x post :
  tr ++ [e] = pre ++ x :: post →
  (∃ post0, tr = pre ++ x :: post0 ∧ post = post0 ++ [e]) ∨
  (pre = tr ∧ x = e ∧ post = []).
Proof.
  destruct post as [|y post0 _] using rev_ind.
  - intros [-> ->]%app_inj_tail. by right.
  - change (pre ++ x :: post0 ++ [y]) with (pre ++ (x :: post0) ++ [y]).
    rewrite app_assoc. intros [-> ->]%app_inj_tail. left. by exists post0.
Qed.

Lemma traded_in_snoc post a b f1 f2 l :
  a = l ∨ b = l → traded_in (post ++ [Trade a b f1 f2 true]) l.
Proof.
  intros [-> | ->].
  - exists b, f1, f2. left. apply elem_of_app. right. by left.
  - exists a, f1, f2. right. apply elem_of_app. right. by left.
Qed.

Lemma traded_in_buys tr tr' l :
  (∀ e, e ∈ tr' → ∃ r, e = BuyPack r) → traded_in (tr ++ tr') l → traded_in tr l.
Proof.
  intros Hbuys (o & f1 & f2 & [H|H]); apply elem_of_app in H as [H|H];
    try (by destruct (Hbuys _ H)); exists o, f1, f2; auto.
Qed.

(** ** The attempts of finished friends *)

Lemma own_loop_nil : finished_only_in_own_loop self [].
Proof. intros pre a b f1 f2 t post Heq. by destruct pre. Qed.

Lemma own_loop_snoc_buy tr r :
  finished_only_in_own_loop self tr →
  finished_only_in_own_loop self (tr ++ [BuyPack r]).
Proof.
  intros Htr pre a b f1 f2 t post
    [(post0 & -> & _)|(_ & [=] & _)]%snoc_split.
  by eapply Htr.
Qed.

Lemma own_loop_snoc_trade tr a b f1 f2 t :
  finished_only_in_own_loop self tr →
  member_loc self a →
  (f1 = true →
   ¬ member_loc self b ∧ ∃ r g, ¬ member_loc self r ∧ Trade a r false g true ∈ tr) →
  finished_only_in_own_loop self (tr ++ [Trade a b f1 f2 t]).
Proof.
  intros Htr Ha Hf pre a' b' g1 g2 t' post
    [(post0 & -> & _)|(-> & [= -> -> -> -> ->] & _)]%snoc_split.
  - by eapply Htr.
  - done.
Qed.

Lemma own_loop_app_buys tr tr' :
  (∀ e, e ∈ tr' → ∃ r, e = BuyPack r) →
  finished_only_in_own_loop self tr →
  finished_only_in_own_loop self (tr ++ tr').
Proof.
  induction tr' as [|e tr' IH] using rev_ind; intros Hbuys Htr.
  - by rewrite app_nil_r.
  - rewrite app_assoc. destruct (Hbuys e) as [r ->].
    { apply elem_of_app. right. by left. }
    apply own_loop_snoc_buy, IH; [|done].
    intros e He. apply Hbuys, elem_of_app. by left.
Qed.

(** ** The last successful trade of a friend *)

Lemma last_trade_snoc_buy tr l r :
  last_trade_in_own_loop self tr l →
  last_trade_in_own_loop self (tr ++ [BuyPack r]) l.
Proof.
  intros Htr pre a b f1 f2 post
    [(post0 & -> & ->)|(_ & [=] & _)]%snoc_split Hl Hnot.
  eapply Htr; [done|done|]. intros Ht. by apply Hnot, traded_in_app_l.
Qed.

Lemma last_trade_snoc_failed tr l a b f1 f2 :
  last_trade_in_own_loop self tr l →
  last_trade_in_own_loop self (tr ++ [Trade a b f1 f2 false]) l.
Proof.
  intros Htr pre a' b' g1 g2 post
    [(post0 & -> & ->)|(_ & [=] & _)]%snoc_split Hl Hnot.
  eapply Htr; [done|done|]. intros Ht. by apply Hnot, traded_in_app_l.
Qed.

Lemma last_trade_snoc_traded tr l b f1 f2 :
  ¬ member_loc self b →
  last_trade_in_own_loop self (tr ++ [Trade l b f1 f2 true]) l.
Proof.
  intros Hb pre a' b' g1 g2 post
    [(post0 & -> & ->)|(-> & [= -> -> -> ->] & ->)]%snoc_split Hl Hnot.
  - destruct Hnot. apply traded_in_snoc. by left.
  - done.
Qed.

(** ** After the last successful trade *)

Lemma settled_nil l : settled_after self [] l.
Proof. intros pre a b f1 f2 post Heq. by destruct pre. Qed.

Lemma settled_untraded tr l : ¬ traded_in tr l → settled_after self tr l.
Proof.
  intros Hnot pre a b f1 f2 post -> [-> | ->] _; destruct Hnot.
  - exists b, f1, f2. left. apply elem_of_app. right. by left.
  - exists a, f1, f2. right. apply elem_of_app. right. by left.
Qed.

Lemma settled_snoc_buy tr l r :
  settled_after self tr l → settled_after self (tr ++ [BuyPack r]) l.
Proof.
  intros Htr pre a b f1 f2 post
    [(post0 & -> & ->)|(_ & [=] & _)]%snoc_split Hl Hnot e He Hinv.
  apply elem_of_app in He as [He|He%list_elem_of_singleton].
  - eapply Htr; [done|done| |done|done].
    intros Ht. by apply Hnot, traded_in_app_l.
  - by subst e.
Qed.

Lemma settled_snoc_other tr l a b f1 f2 t :
  settled_after self tr l → a ≠ l → b ≠ l →
  settled_after self (tr ++ [Trade a b f1 f2 t]) l.
Proof.
  intros Htr Ha Hb pre a' b' g1 g2 post
    [(post0 & -> & ->)|(-> & Heq & ->)]%snoc_split Hl Hnot e He Hinv.
  - apply elem_of_app in He as [He|He%list_elem_of_singleton].
    + eapply Htr; [done|done| |done|done].
      intros Ht. by apply Hnot, traded_in_app_l.
    + subst e. by destruct Hinv.
  - injection Heq as -> -> _ _ _. by destruct Hl.
Qed.

Lemma settled_snoc_traded tr l a b f1 f2 :
  a = l ∨ b = l → settled_after self (tr ++ [Trade a b f1 f2 true]) l.
Proof.
  intros Hab pre a' b' g1 g2 post
    [(post0 & -> & ->)|(-> & _ & ->)]%snoc_split Hl Hnot e He Hinv.
  - destruct Hnot. by apply traded_in_snoc.
  - by apply elem_of_nil in He.
Qed.

(** An attempt of a finished friend in its own stranger loop. *)
Lemma settled_snoc_slip tr l b f1 f2 :
  settled_after self tr l → last_trade_in_own_loop self tr l →
  ¬ member_loc self b →
  settled_after self (tr ++ [Trade l b f1 f2 false]) l.
Proof.
  intros Htr Hlast Hb pre a' b' g1 g2 post
    [(post0 & -> & ->)|(_ & [=] & _)]%snoc_split Hl Hnot e He Hinv.
  assert (¬ traded_in post0 l) as Hnot0.
  { intros Ht. by apply Hnot, traded_in_app_l. }
  apply elem_of_app in He as [He|He%list_elem_of_singleton].
  - by eapply Htr.
  - subst e. split; [by eapply Hlast|done].
Qed.

Lemma settled_app_buys tr tr' l :
  (∀ e, e ∈ tr' → ∃ r, e = BuyPack r) →
  settled_after self tr l → settled_after self (tr ++ tr') l.
Proof.
  induction tr' as [|e tr' IH] using rev_ind; intros Hbuys Htr.
  - by rewrite app_nil_r.
  - rewrite app_assoc. destruct (Hbuys e) as [r ->].
    { apply elem_of_app. right. by left. }
    apply settled_snoc_buy, IH; [|done].
    intros e He. apply Hbuys, elem_of_app. by left.
Qed.
End attempts_facts.

Section attempt_specs.
Import Economy.
Implicit Types (w : World) (self : Economy.state) (n : Z).

Lemma call_trade_attempt n a b w pa pb :
  heap w !! a = Some pa → heap w !! b = Some pb →
  returns (call_trade a b) w
    (λ r w', ∃ traded : bool,
       r = (traded, a, b) ∧
       trace w'
       = trace w ++ [Trade a b (Person.is_finished pa) (Person.is_finished pb) traded] ∧
       keeps (if traded then {[a; b]} else ∅) (heap w) (heap w') ∧
       (typed_heap n (heap w) → typed_heap n (heap w')) ∧
       (typed_heap n (heap w) → traded = true →
        Person.is_finished pa = false ∧ Person.is_finished pb = false)).
Proof.
  intros Ha Hb. eapply returns_mono.
  - exact (returns_and _ _ _ _ (call_trade_spec n a b w pa pb Ha Hb)
             (call_trade_frame a b w pa pb Ha Hb)).
  - intros r w' [(traded & -> & (_ & Htr & _ & Hty) & Hflags)
                 (traded' & [= <-] & Hk)].
    exists traded. done.
Qed.

Lemma call_finished_quiet l w p :
  heap w !! l = Some p →
  returns (call_finished l) w
    (λ _ w', trace w' = trace w ∧ keeps {[l]} (heap w) (heap w')).
Proof.
  intros Hl. eapply returns_mono.
  - exact (returns_and _ _ _ _
             (call_finished_spec 0 l w (ex_intro _ p Hl))
             (call_finished_frame l w p Hl)).
  - intros _ w' [(_ & Htr & _) Hk]. by rewrite app_nil_r in Htr.
Qed.

Lemma new_Person_attempt endowment n w :
  0 ≤ endowment → (0 < n ∨ endowment = 0) →
  returns (new_Person endowment n) w
    (λ l w', heap w !! l = None ∧ is_Some (heap w' !! l) ∧
             trace w' = trace w ++ [BuyPack l] ∧
             keeps ∅ (heap w) (heap w') ∧
             (typed_heap n (heap w) → typed_heap n (heap w'))).
Proof.
  intros He Hn. eapply returns_mono.
  - exact (returns_and _ _ _ _ (new_Person_spec endowment n w He Hn)
             (new_Person_frame endowment n w He Hn)).
  - intros l w' [(_ & _ & Htr & _ & Hty) (Hnone & Hsome & Hk)]. done.
Qed.

(** An object outside [touched] that was alive before has the record it
    had. *)
Lemma keeps_lookup (touched : gset loc) (h h' : gmap loc Person.state) l p :
  keeps touched h h' → l ∉ touched → is_Some (h !! l) → h' !! l = Some p →
  h !! l = Some p.
Proof.
  intros (_ & Hsame) Hl [p0 Hp0] Hp. rewrite (Hsame l p0 Hl Hp0) in Hp. congruence.
Qed.
End attempt_specs.

Section attempts_trading.
Import Economy.
Variables (self0 : Economy.state) (w0 : World).
Hypothesis wf0 : wf_economy self0 w0.
Hypothesis typed0 : typed_heap (n_stickers self0) (heap w0).

Lemma trade_with_friends_attempts acc ids w :
  ids.1 ∈ dict_keys (members self0) → ids.2 ∈ dict_keys (members self0) →
  trading_inv self0 w0 acc w → attempts_inv self0 w0 w →
  returns (trade_with_friends acc ids) w (λ _ w', attempts_inv self0 w0 w').
Proof.
  destruct acc as [self ht], ids as [id1 id2]. simpl.
  intros [l1 Hd1]%dict_get_key [l2 Hd2]%dict_get_key Hinv (tr & Htr & Hown & Hsettled).
  pose proof (members_alive self0 w0 wf0 _ _ Hinv) as Halive.
  pose proof Hinv as (_ & (Hmem & _) & _). simpl in Hmem.
  destruct (Halive id1 l1 (dict_get_Some _ _ _ Hd1)) as [p1 Hl1].
  destruct (Halive id2 l2 (dict_get_Some _ _ _ Hd2)) as [p2 Hl2].
  apply returns_bind. eapply members_getitem_spec; [by rewrite Hmem|].
  apply returns_bind. eapply members_getitem_spec; [by rewrite Hmem|].
  apply returns_bind. eapply deref_spec; [done|].
  apply returns_bind. eapply deref_spec; [done|].
  destruct (Person.is_finished p1 || Person.is_finished p2) eqn:Hfin.
  { apply returns_ret. by exists tr. }
  apply orb_false_elim in Hfin as [Hf1 Hf2].
  apply returns_bind. eapply returns_mono;
    [exact (call_trade_attempt (n_stickers self0) l1 l2 w p1 p2 Hl1 Hl2)|].
  intros r w1 (traded & -> & Htr1 & Hk1 & _ & _). rewrite Hf1, Hf2 in Htr1.
  assert (finished_only_in_own_loop self0 (tr ++ [Trade l1 l2 false false traded]))
    as Hown1.
  { apply own_loop_snoc_trade; [done|by eapply member_of_key|done]. }
  destruct traded.
  - destruct (proj1 Hk1 l1 p1 Hl1) as (q1 & Hq1 & _).
    apply returns_bind. eapply returns_mono; [by apply (call_finished_quiet l1 w1 q1)|].
    intros [] w2 [Htr2 Hk2]. cbn beta.
    destruct (proj1 Hk1 l2 p2 Hl2) as (q2' & Hq2' & _).
    destruct (proj1 Hk2 l2 q2' Hq2') as (q2 & Hq2 & _).
    apply returns_bind. eapply returns_mono; [by apply (call_finished_quiet l2 w2 q2)|].
    intros [] w3 [Htr3 Hk3]. cbn beta.
    destruct (proj1 Hk2 l1 q1 Hq1) as (r1' & Hr1' & _).
    destruct (proj1 Hk3 l1 r1' Hr1') as (r1 & Hr1 & _).
    destruct (proj1 Hk3 l2 q2 Hq2) as (r2 & Hr2 & _).
    apply returns_bind. eapply returns_mono.
    { apply (update_member_spec self id1 l1 w3); [by eexists|by rewrite Hmem]. }
    intros self1 ? (-> & Hcfg1). cbn beta.
    apply returns_bind. eapply returns_mono.
    { apply (update_member_spec self1 id2 l2 w3); [by eexists|].
      destruct Hcfg1 as (-> & _). by rewrite Hmem. }
    intros self2 ? (-> & Hcfg2). cbn beta.
    apply returns_ret.
    exists (tr ++ [Trade l1 l2 false false true]).
    split; [by rewrite Htr3, Htr2, Htr1, Htr, app_assoc|]. split; [done|].
    intros id l p Hin Hl Hf.
    destruct (decide (l = l1)) as [->|Hne1]; [apply settled_snoc_traded; by left|].
    destruct (decide (l = l2)) as [->|Hne2]; [apply settled_snoc_traded; by right|].
    apply settled_snoc_other; [|done|done].
    apply (Hsettled id l p Hin); [|done].
    eapply (keeps_lookup ({[l1; l2]} ∪ ({[l1]} ∪ {[l2]}))); [|set_solver|by eapply Halive|done].
    exact (keeps_trans _ _ _ _ _ Hk1 (keeps_trans _ _ _ _ _ Hk2 Hk3)).
  - apply returns_ret.
    exists (tr ++ [Trade l1 l2 false false false]).
    split; [by rewrite Htr1, Htr, app_assoc|]. split; [done|].
    intros id l p Hin Hl Hf.
    assert (heap w !! l = Some p) as Hl0.
    { eapply (keeps_lookup ∅); [exact Hk1|set_solver|by eapply Halive|done]. }
    apply settled_snoc_other; [by apply (Hsettled id l p Hin)| |].
    + intros <-. congruence.
    + intros <-. congruence.
Qed.

Variable rando_endowment : Z.
Hypothesis endowment_nonneg : 0 ≤ rando_endowment.
Hypothesis album_positive : 0 < n_stickers self0.

Lemma trade_with_rando_attempts person_id person acc i w :
  dict_get (members self0) person_id = Some person →
  trading_inv self0 w0 acc w → own_loop_inv self0 w0 person w →
  returns (trade_with_rando rando_endowment person_id person acc i) w
    (λ _ w', own_loop_inv self0 w0 person w').
Proof.
  destruct acc as [self ht]. simpl.
  intros Hd Hinv (tr & Htr & Hown & Hsettled & Hloop).
  pose proof (members_alive self0 w0 wf0 _ _ Hinv) as Halive.
  pose proof Hinv as (tr0 & (Hmem & Hns & _) & Hstep & _). simpl in Hmem, Hns.
  assert (typed_heap (n_stickers self0) (heap w)) as Hty.
  { destruct Hstep as (_ & _ & _ & Hty). by apply Hty. }
  pose proof (member_of_key self0 _ _ Hd) as Hperson.
  destruct (Halive person_id person (dict_get_Some _ _ _ Hd)) as [p Hl].
  unfold trade_with_rando.
  apply returns_bind. eapply returns_mono.
  { apply new_Person_attempt; [done|]. left. by rewrite Hns. }
  intros rando w1 (Hfresh & [q Hq] & Htr1 & Hk1 & Hty1). cbn beta.
  rewrite Hns in Hty1. specialize (Hty1 Hty).
  assert (¬ member_loc self0 rando) as Hrando.
  { intros ([id l] & -> & Hin)%list_elem_of_fmap.
    destruct (Halive id l Hin) as [? ?]. simpl in Hfresh. congruence. }
  pose proof (proj2 Hk1 person p (not_elem_of_empty _) Hl) as Hl1.
  apply returns_bind. eapply returns_mono;
    [exact (call_trade_attempt (n_stickers self0) person rando w1 p q Hl1 Hq)|].
  intros r w2 (traded & -> & Htr2 & Hk2 & _ & Hflags). specialize (Hflags Hty1).
  assert (∀ id l p', (id, l) ∈ members self0 → l ≠ person →
            heap w !! l = Some p' → Person.is_finished p' = true →
            settled_after self0
              (tr ++ [BuyPack rando;
                      Trade person rando (Person.is_finished p)
                            (Person.is_finished q) traded]) l) as Hothers.
  { intros id l p' Hin Hne Hl' Hf'.
    change (tr ++ [BuyPack rando; ?e]) with (tr ++ [BuyPack rando] ++ [e]).
    rewrite app_assoc. apply settled_snoc_other; [|done|].
    - apply settled_snoc_buy. by apply (Hsettled id l p' Hin).
    - intros <-. simpl in Hfresh. congruence. }
  destruct traded.
  - destruct (Hflags eq_refl) as [Hf1 _]. rewrite Hf1 in *.
    destruct (proj1 Hk2 person p Hl1) as (p2 & Hp2 & _).
    apply returns_bind. eapply returns_mono;
      [by apply (call_finished_quiet person w2 p2)|].
    intros [] w3 [Htr3 Hk3]. cbn beta.
    destruct (proj1 Hk3 person p2 Hp2) as (p3 & Hp3 & _).
    apply returns_bind. eapply returns_mono.
    { apply (update_member_spec self person_id person w3); [by eexists|by rewrite Hmem]. }
    intros self1 ? (-> & Hcfg1). cbn beta.
    apply returns_ret.
    exists (tr ++ [BuyPack rando; Trade person rando false (Person.is_finished q) true]).
    split; [by rewrite Htr3, Htr2, Htr1, Htr, <- !app_assoc|].
    change (tr ++ [BuyPack rando; ?e]) with (tr ++ [BuyPack rando] ++ [e]).
    rewrite app_assoc. split; [|split].
    + apply own_loop_snoc_trade; [by apply own_loop_snoc_buy|done|done].
    + intros id l p' Hin Hl' Hf'.
      destruct (decide (l = person)) as [->|Hne];
        [apply settled_snoc_traded; by left|].
      rewrite <- app_assoc. apply (Hothers id l p' Hin Hne); [|done].
      assert (l ≠ rando).
      { intros ->. destruct (Halive id rando Hin) as [? ?]. congruence. }
      eapply (keeps_lookup (∅ ∪ ({[person; rando]} ∪ {[person]})));
        [|set_solver|by eapply Halive|done].
      exact (keeps_trans _ _ _ _ _ Hk1 (keeps_trans _ _ _ _ _ Hk2 Hk3)).
    + intros p' _ _. split.
      * exists rando, (Person.is_finished q). split; [done|].
        apply elem_of_app. right. by left.
      * by apply last_trade_snoc_traded.
  - apply returns_ret.
    exists (tr ++ [BuyPack rando;
                   Trade person rando (Person.is_finished p)
                         (Person.is_finished q) false]).
    split; [by rewrite Htr2, Htr1, Htr, <- !app_assoc|].
    assert (∀ l p', is_Some (heap w !! l) → heap w2 !! l = Some p' →
                    heap w !! l = Some p') as Hback.
    { intros l p' Hsome Hl'.
      eapply (keeps_lookup (∅ ∪ ∅)); [|set_solver|done|done].
      exact (keeps_trans _ _ _ _ _ Hk1 Hk2). }
    split; [|split].
    + change (tr ++ [BuyPack rando; ?e]) with (tr ++ [BuyPack rando] ++ [e]).
      rewrite app_assoc.
      apply own_loop_snoc_trade; [by apply own_loop_snoc_buy|done|].
      intros Hf1. split; [done|].
      destruct (Hloop p Hl Hf1) as ((r & g & Hr & Hin) & _).
      exists r, g. split; [done|]. apply elem_of_app. by left.
    + intros id l p' Hin Hl' Hf'.
      pose proof (Hback l p' (Halive id l Hin) Hl') as Hl0.
      destruct (decide (l = person)) as [->|Hne];
        [|by apply (Hothers id l p' Hin Hne)].
      assert (p' = p) as -> by congruence.
      destruct (Hloop p Hl Hf') as (_ & Hlast).
      change (tr ++ [BuyPack rando; ?e]) with (tr ++ [BuyPack rando] ++ [e]).
      rewrite app_assoc. apply settled_snoc_slip; [| |done].
      * apply settled_snoc_buy. by apply (Hsettled id person p Hin).
      * by apply last_trade_snoc_buy.
    + intros p' Hl' Hf'.
      pose proof (Hback person p' (ex_intro _ p Hl) Hl') as Hl0.
      assert (p' = p) as -> by congruence.
      destruct (Hloop p Hl Hf') as ((r & g & Hr & Hin) & Hlast). split.
      * exists r, g. split; [done|]. apply elem_of_app. by left.
      * change (tr ++ [BuyPack rando; ?e]) with (tr ++ [BuyPack rando] ++ [e]).
        rewrite app_assoc.
        by apply last_trade_snoc_failed, last_trade_snoc_buy.
Qed.

Lemma trade_with_randos_attempts acc person_id w :
  person_id ∈ dict_keys (members self0) →
  trading_inv self0 w0 acc w ∧ attempts_inv self0 w0 w →
  returns (trade_with_randos rando_endowment acc person_id) w
    (λ acc' w', trading_inv self0 w0 acc' w' ∧ attempts_inv self0 w0 w').
Proof.
  destruct acc as [self ht]. intros Hkey [Hinv Hatt].
  pose proof Hkey as [person Hd]%dict_get_key.
  pose proof Hinv as (tr & Hcfg & Hstep & _).
  simpl in Hcfg. pose proof Hcfg as (Hmem & _).
  destruct (member_alive self0 w0 wf0 tr w person_id person Hstep Hd) as (p & Hl & _).
  unfold trade_with_randos.
  apply returns_bind. eapply members_getitem_spec; [by rewrite Hmem|].
  apply returns_bind. eapply deref_spec; [done|].
  destruct (Person.is_finished p) eqn:Hf; [by apply returns_ret|].
  eapply returns_mono.
  - apply (returns_for_each_simple
             (λ acc' w', trading_inv self0 w0 acc' w' ∧
                         own_loop_inv self0 w0 person w')).
    + split; [done|]. destruct Hatt as (tr' & Htr' & Hown & Hsettled).
      exists tr'. split; [done|]. split; [done|]. split; [done|].
      intros p' Hl' Hf'. congruence.
    + intros i acc' w' _ [Hinv' Hloop']. apply returns_and.
      * apply trade_with_rando_inv; try done.
        exact (unfinished_at_start self0 w0 tr w person p Hstep Hl Hf).
      * by apply trade_with_rando_attempts.
  - intros acc' w' [Hinv' (tr' & Htr' & Hown & Hsettled & _)].
    split; [done|]. by exists tr'.
Qed.

Lemma trading_phases_attempts :
  returns (trading_phases self0 rando_endowment) w0
    (λ acc w, trading_inv self0 w0 acc w ∧ attempts_inv self0 w0 w).
Proof.
  unfold trading_phases. apply returns_bind. eapply returns_mono.
  - apply (returns_for_each_simple
             (λ acc w, trading_inv self0 w0 acc w ∧ attempts_inv self0 w0 w)).
    + split; [by apply trading_inv_start|].
      exists []. split; [by rewrite app_nil_r|]. split; [apply own_loop_nil|].
      intros id l p _ _ _. apply settled_nil.
    + intros [id1 id2] acc w [H1 H2]%combinations2_elem [Hinv Hatt].
      apply returns_and; [by apply trade_with_friends_inv|].
      by apply trade_with_friends_attempts.
  - intros acc w [Hinv Hatt]. cbn beta.
    pose proof Hinv as (tr & (Hmem & _) & _).
    apply (returns_for_each_simple
             (λ acc w, trading_inv self0 w0 acc w ∧ attempts_inv self0 w0 w));
      [done|].
    intros id acc' w' Hid Hinv'. apply trade_with_randos_attempts; [|done].
    by rewrite <- Hmem.
Qed.
End attempts_trading.

Section attempts_buying.
Import Economy.
Variables (self0 : Economy.state) (w1 : World).
Hypothesis wf1 : wf_economy self0 w1.
Hypothesis album_positive : 0 < n_stickers self0.
Hypothesis pack_nonneg : 0 ≤ stickers_per_pack self0.

(** The purchase phase leaves the members it does not visit as they
    were. *)
Lemma buy_if_not_traded_frame pre x self w :
  x ∈ dict_keys (members self0) →
  buying_inv self0 w1 pre self w →
  (∀ id l p, (id, l) ∈ members self0 → id ∉ pre →
             heap w1 !! l = Some p → heap w !! l = Some p) →
  returns (buy_if_not_traded self x) w
    (λ _ w', ∀ id l p, (id, l) ∈ members self0 → id ∉ pre ++ [x] →
                       heap w1 !! l = Some p → heap w' !! l = Some p).
Proof.
  intros [lx Hdx]%dict_get_key (Hcfg & _ & tr & _ & _ & Hmem) Hframe.
  pose proof Hcfg as (Hmembers & _ & _ & Hpack & _).
  pose proof wf1 as (Hkeys & Hlocs & Hobj).
  pose proof (dict_get_Some _ _ _ Hdx) as Hinx.
  destruct (Hmem x lx Hinx) as (p1 & p & Hl1 & Hl & Hn & _).
  destruct (Hobj x lx Hinx) as (p1' & Hl1' & Hn1). rewrite Hl1 in Hl1'.
  injection Hl1' as <-.
  unfold buy_if_not_traded.
  apply returns_bind. eapply members_getitem_spec; [by rewrite Hmembers|].
  apply returns_bind. eapply returns_mono.
  { apply (call_buy_pack_frame lx _ w p); [done|by rewrite Hpack|].
    left. by rewrite Hn, Hn1. }
  intros [] w2 Hk2. cbn beta.
  destruct (proj1 Hk2 lx p Hl) as (p2 & Hp2 & _).
  apply returns_bind. eapply returns_mono; [by apply (call_finished_frame lx w2 p2)|].
  intros [] w3 Hk3. cbn beta.
  destruct (proj1 Hk3 lx p2 Hp2) as (p3 & Hp3 & _).
  eapply returns_mono.
  { apply (update_member_spec self x lx w3); [by eexists|by rewrite Hmembers]. }
  intros self' ? (-> & _) id l q Hin Hid Hq.
  assert ((id ∉ pre) ∧ id ≠ x) as [Hpre Hne].
  { split; intros ?; apply Hid, elem_of_app; [by left|right].
    subst id. by left. }
  assert (l ≠ lx) as Hl_ne.
  { intros ->. apply Hne. by eapply NoDup_snd_key. }
  apply (proj2 (keeps_trans _ _ _ _ _ Hk2 Hk3)); [set_solver|].
  by apply (Hframe id l q).
Qed.

Lemma buying_phase_frame self1 (have_traded : gset string) :
  same_config self0 self1 →
  returns
    (for_each (elements (list_to_set (dict_keys (members self1)) ∖ have_traded))
       buy_if_not_traded self1) w1
    (λ self w,
       buying_inv self0 w1
         (elements (list_to_set (dict_keys (members self1)) ∖ have_traded)) self w ∧
       ∀ id l p, (id, l) ∈ members self0 → id ∈ have_traded →
                 heap w1 !! l = Some p → heap w !! l = Some p).
Proof.
  intros Hcfg. set (did_not_trade := _ ∖ _).
  eapply returns_mono.
  - apply (returns_for_each
             (λ pre self w,
                buying_inv self0 w1 pre self w ∧
                ∀ id l p, (id, l) ∈ members self0 → id ∉ pre →
                          heap w1 !! l = Some p → heap w !! l = Some p)
             buy_if_not_traded (elements did_not_trade) [] self1 w1).
    + split; [by apply buying_inv_start|]. done.
    + intros pre x post self w Heq [Hinv Hframe]. simpl in Heq.
      pose proof (NoDup_elements did_not_trade) as Hnd. rewrite Heq in Hnd.
      apply NoDup_app in Hnd as (_ & Hpre & _).
      assert (x ∈ did_not_trade) as Hx.
      { apply elem_of_elements. rewrite Heq. apply elem_of_app. right. by left. }
      assert (x ∈ dict_keys (members self0)) as Hkey.
      { destruct Hcfg as (<- & _). unfold did_not_trade in Hx.
        apply elem_of_difference in Hx as [Hx _]. by apply elem_of_list_to_set in Hx. }
      apply returns_and.
      * apply buy_if_not_traded_inv; try done.
        intros Hin. apply (Hpre x Hin). by left.
      * by apply buy_if_not_traded_frame.
  - intros self w [Hinv Hframe]. simpl in Hinv, Hframe. split; [done|].
    intros id l p Hin Hid. apply (Hframe id l p Hin).
    rewrite elem_of_elements. unfold did_not_trade.
    rewrite elem_of_difference. by intros [_ ?].
Qed.
End attempts_buying.

(** The attempts of a whole round. *)
Lemma round_attempts (self : Economy.state) (w : World) (rando_endowment : Z) :
  wf_economy self w →
  typed_heap (Economy.n_stickers self) (heap w) →
  0 < Economy.n_stickers self →
  0 ≤ Economy.stickers_per_pack self →
  0 ≤ rando_endowment →
  returns (Economy.round_of_trade self rando_endowment) w
    (λ self' w',
       ∃ tr, trace w' = trace w ++ tr ∧
             finished_only_in_own_loop self tr ∧
             ∀ id l p', (id, l) ∈ Economy.members self →
                        heap w' !! l = Some p' → Person.is_finished p' = true →
                        settled_after self tr l).
Proof.
  intros Hwf Htyped Hn Hpack Hrando. unfold Economy.round_of_trade.
  apply returns_bind. eapply returns_mono.
  { by apply trading_phases_attempts. }
  intros [self1 have_traded] w1
    [(tr12' & Hcfg & Hstep & Hev & _) (tr12 & Htr12 & Hown & Hsettled)].
  simpl in Hcfg, Hev.
  assert (tr12' = tr12) as ->.
  { destruct Hstep as (_ & Htr' & _). rewrite Htr12 in Htr'.
    by apply app_inv_head in Htr'. }
  pose proof (wf_economy_after_trading _ _ _ _ Hwf Hstep) as Hwf1.
  eapply returns_mono.
  { by apply (buying_phase_frame self w1 Hwf1 Hn Hpack self1 have_traded). }
  intros self2 w2 [(_ & _ & tr3 & Htr3 & Honly & _) Hframe].
  exists (tr12 ++ tr3). split; [by rewrite Htr3, Htr12, app_assoc|].
  split; [by apply own_loop_app_buys|].
  intros id l p' Hin Hl' Hf'.
  destruct (decide (id ∈ have_traded)) as [Hid|Hid].
  - apply settled_app_buys; [done|].
    destruct Hwf1 as (_ & _ & Hobj1). destruct (Hobj1 id l Hin) as (p1 & Hp1 & _).
    pose proof (Hframe id l p1 Hin Hid Hp1) as Hp1'.
    assert (p' = p1) as -> by congruence.
    by apply (Hsettled id l p1 Hin).
  - apply settled_untraded. intros Ht%(traded_in_buys _ _ _ Honly).
    apply Hid. destruct Ht as (o & f1 & f2 & [Ht|Ht]);
      destruct (Hev _ _ _ _ _ Ht) as (_ & _ & _ & _ & Hin_ht);
      apply (Hin_ht eq_refl id l Hin); auto.
Qed.

(** C3, as amended.  In a round of an economy of typed collectors:

    - no trade succeeds with a collector that is finished when the trade is
      attempted, and no trade is attempted between two friends one of which
      is finished;
    - every trade attempt is made by a friend (its first party), and a
      friend that is finished when an attempt is made is in its own stranger
      loop, in which it has traded successfully, while unfinished, with an
      earlier stranger: the guard of that loop is tested once, before the
      loop, so a friend that finished before its turn, at the start of the
      round or in the friend phase, is passed to no stranger at all;
    - every friend stays in [members] and stays finished if it was, buys at
      most one pack in the round and none if it traded;
    - a friend that is finished when the round starts takes part in no trade
      attempt, but it does buy one pack in the purchase phase, like every
      friend that did not trade;
    - a friend that is finished after the round takes part in no trade
      attempt after its last successful trade of the round, except that,
      when this trade was with a stranger, the remaining strangers of its
      loop are still tried.

    The economy is well-formed and typed with the same configuration
    afterwards, so all of this holds in every later round. *)
Theorem finished_friend_round (self : Economy.state) (w : World) (rando_endowment : Z) :
  wf_economy self w →
  typed_heap (Economy.n_stickers self) (heap w) →
  0 < Economy.n_stickers self →
  0 ≤ Economy.stickers_per_pack self →
  0 ≤ rando_endowment →
  ∃ self' w' tr,
    Economy.round_of_trade self rando_endowment w = (Ok self', w') ∧
    trace w' = trace w ++ tr ∧
    wf_economy self' w' ∧ typed_heap (Economy.n_stickers self') (heap w') ∧
    same_config self self' ∧
    (∀ a b f1 f2 t, Trade a b f1 f2 t ∈ tr →
       (t = true → f1 = false ∧ f2 = false) ∧
       (member_loc self a → member_loc self b → f1 = false ∧ f2 = false)) ∧
    finished_only_in_own_loop self tr ∧
    ∀ id l p,
      (id, l) ∈ Economy.members self → heap w !! l = Some p →
      (id, l) ∈ Economy.members self' ∧
      ∃ p', heap w' !! l = Some p' ∧
            (Person.is_finished p = true → Person.is_finished p' = true) ∧
            (count_occ event_eq_dec tr (BuyPack l) ≤ 1)%nat ∧
            (traded_in tr l → count_occ event_eq_dec tr (BuyPack l) = 0%nat) ∧
            (Person.is_finished p = true →
               (∀ a b f1 f2 t, Trade a b f1 f2 t ∈ tr → a ≠ l ∧ b ≠ l) ∧
               count_occ event_eq_dec tr (BuyPack l) = 1%nat ∧
               Person.money_spent p' = Person.money_spent p + 1) ∧
            (Person.is_finished p' = true → settled_after self tr l).
Proof.
  intros Hwf Htyped Hn Hpack Hrando.
  destruct (round_of_trade_spec self w rando_endowment Hwf Hn Hpack Hrando)
    as (self' & w' & tr & Hround & Htr & Hcfg & Hwf' & Hty' & Hev & Hfriends).
  destruct (round_attempts self w rando_endowment Hwf Htyped Hn Hpack Hrando)
    as (self2 & w2 & Hround2 & tr2 & Htr2 & Hown & Hsettled).
  rewrite Hround in Hround2. injection Hround2 as <- <-.
  assert (tr2 = tr) as ->.
  { rewrite Htr in Htr2. by apply app_inv_head in Htr2. }
  exists self', w', tr. split; [done|]. split; [done|]. split; [done|].
  pose proof Hcfg as (Hmembers & Hns & _).
  split; [rewrite Hns; auto|]. split; [done|]. split.
  { intros a b f1 f2 t Hin. destruct (Hev a b f1 f2 t Hin) as (_ & _ & ? & ?). auto. }
  split; [done|].
  intros id l p Hin Hl. split; [by rewrite Hmembers|].
  destruct (Hfriends id l p Hin Hl) as (p' & Hl' & Hmono & Hbuy & Hnobuy).
  exists p'. split; [done|]. split; [done|].
  assert (∀ a b f1 f2 t, Person.is_finished p = true →
            Trade a b f1 f2 t ∈ tr → a ≠ l ∧ b ≠ l) as Hskip.
  { intros a b f1 f2 t Hfin Hab. destruct (Hev a b f1 f2 t Hab) as (Ha & Hb & _).
    split; intros ->.
    - specialize (Ha p Hl). congruence.
    - specialize (Hb p Hl). congruence. }
  split; [|split; [|split]].
  - destruct (classic_traded tr l) as [Ht|Ht].
    + destruct (Hnobuy Ht) as (-> & _). lia.
    + destruct (Hbuy Ht) as (-> & _). lia.
  - intros Ht. by destruct (Hnobuy Ht).
  - intros Hfin. split; [by intros a b f1 f2 t; apply Hskip|].
    apply Hbuy. intros (other & f1 & f2 & [Ht|Ht]);
      destruct (Hskip _ _ _ _ _ Hfin Ht); done.
  - intros Hfin'. by apply (Hsettled id l p' Hin).
Qed.

(** [three_friends] is the economy the constructor builds from the draws
    0, 0, 1, 1, 0, 0. *)
Lemma three_friends_built :
  Economy.init 3 2 1 1 2 (empty_world [0; 0; 1; 1; 0; 0; 0; 1])
  = (Ok three_friends, three_friends_world).
Proof. vm_compute. reflexivity. Qed.

Lemma three_friends_wf : wf_economy three_friends three_friends_world.
Proof.
  destruct (init_wf 3 2 1 1 2 (empty_world [0; 0; 1; 1; 0; 0; 0; 1]))
    as (self & w & Hinit & Hwf & _); [lia|lia|].
  rewrite three_friends_built in Hinit. by injection Hinit as <- <-.
Qed.

Lemma three_friends_typed :
  typed_heap (Economy.n_stickers three_friends) (heap three_friends_world).
Proof.
  destruct (init_wf 3 2 1 1 2 (empty_world [0; 0; 1; 1; 0; 0; 0; 1]))
    as (self & w & Hinit & _ & _ & _ & _ & _ & Hty); [lia|lia|].
  rewrite three_friends_built in Hinit. injection Hinit as <- <-.
  apply Hty. intros l p Hl. simpl in Hl. by rewrite lookup_empty in Hl.
Qed.

(** C3, as amended, at the economy [three_friends] with strangers endowed
    with one sticker: [id0] and [id1] trade with each other and are
    finished; no stranger is built for them, and no pack is bought by
    them; [id2] tries one stranger, without success, and buys a pack. *)
Lemma finished_friend_round_witness :
  wf_economy three_friends three_friends_world ∧
  typed_heap (Economy.n_stickers three_friends) (heap three_friends_world) ∧
  0 < Economy.n_stickers three_friends ∧
  0 ≤ Economy.stickers_per_pack three_friends ∧
  0 ≤ 1 ∧
  (∃ self' w' tr,
     Economy.round_of_trade three_friends 1 three_friends_world = (Ok self', w') ∧
     trace w' = trace three_friends_world ++ tr ∧
     wf_economy self' w' ∧ typed_heap (Economy.n_stickers self') (heap w') ∧
     same_config three_friends self' ∧
     (∀ a b f1 f2 t, Trade a b f1 f2 t ∈ tr →
        (t = true → f1 = false ∧ f2 = false) ∧
        (member_loc three_friends a → member_loc three_friends b →
         f1 = false ∧ f2 = false)) ∧
     finished_only_in_own_loop three_friends tr ∧
     ∀ id l p,
       (id, l) ∈ Economy.members three_friends →
       heap three_friends_world !! l = Some p →
       (id, l) ∈ Economy.members self' ∧
       ∃ p', heap w' !! l = Some p' ∧
             (Person.is_finished p = true → Person.is_finished p' = true) ∧
             (count_occ event_eq_dec tr (BuyPack l) ≤ 1)%nat ∧
             (traded_in tr l → count_occ event_eq_dec tr (BuyPack l) = 0%nat) ∧
             (Person.is_finished p = true →
                (∀ a b f1 f2 t, Trade a b f1 f2 t ∈ tr → a ≠ l ∧ b ≠ l) ∧
                count_occ event_eq_dec tr (BuyPack l) = 1%nat ∧
                Person.money_spent p' = Person.money_spent p + 1) ∧
             (Person.is_finished p' = true → settled_after three_friends tr l)) ∧
  ∃ self' w' p0 p1,
    Economy.round_of_trade three_friends 1 three_friends_world = (Ok self', w') ∧
    trace w'
    = trace three_friends_world
      ++ [Trade 0 1 false false true; BuyPack 3; Trade 2 3 false false false;
          BuyPack 2] ∧
    heap w' !! 0%nat = Some p0 ∧ Person.is_finished p0 = true ∧
    heap w' !! 1%nat = Some p1 ∧ Person.is_finished p1 = true.
Proof.
  assert (0 < Economy.n_stickers three_friends) as Hn by (simpl; lia).
  assert (0 ≤ Economy.stickers_per_pack three_friends) as Hpack by (simpl; lia).
  assert (0 ≤ 1) as Hrando by lia.
  split; [exact three_friends_wf|]. split; [exact three_friends_typed|].
  split; [exact Hn|]. split; [exact Hpack|]. split; [exact Hrando|].
  split.
  - exact (finished_friend_round three_friends three_friends_world 1
             three_friends_wf three_friends_typed Hn Hpack Hrando).
  - eexists _, _, _, _. split; [vm_compute; reflexivity|].
    split; [reflexivity|]. split; [vm_compute; reflexivity|].
    split; [reflexivity|]. split; [vm_compute; reflexivity|]. reflexivity.
Defined.
